(** * spixels: the DMA multi-SPI engine ([lib/dma-multi-spi.cc])

    A shallow embedding of [DMAMultiSPI]: the shadow buffer of GPIO
    operations, its growth in [RegisterDataGPIO], the bit encoding of
    [SetBufferedByte], the control-block chain of [FinishRegistration] and
    the register protocol of [SendBuffers].

    Conventions.
    - C++ integers are [Z]; a conversion to a fixed width is written out
      ([uint32_t], [int_of], [uint8_t], [size_t]).  [int] is 32 bits wide
      and [size_t] 64 (LP64).
    - A call returns [None] where the C++ stops in [assert] or leaves
      defined behaviour (an access outside an allocation, a signed
      overflow, a shift by a count outside the width of [int], a write
      through a null pointer).
    - [gpio_shadow_] is a [list GPIOData]; the null pointer is the empty
      list.  Pointers into it are indices. *)

From Stdlib Require Import ZArith Lia Bool.
From stdpp Require Import base list.

Local Open Scope Z_scope.

(** ** Machine integers *)

Module CInt.

(** Conversion to [uint32_t]. *)
Definition uint32_t (x : Z) : Z := x mod 2 ^ 32.

(** Conversion to [uint8_t]. *)
Definition uint8_t (x : Z) : Z := x mod 2 ^ 8.

(** Conversion to [size_t]. *)
Definition size_t (x : Z) : Z := x mod 2 ^ 64.

(** Conversion to a 32-bit two's complement [int]. *)
Definition int_of (x : Z) : Z := (x + 2 ^ 31) mod 2 ^ 32 - 2 ^ 31.

Definition INT_MAX : Z := 2 ^ 31 - 1.

(** The value of [1 << g] at type [int] for a shift count [0 <= g < 32],
    where the shift is defined. *)
Definition shl1 (g : Z) : Z := int_of (Z.shiftl 1 g).

(** The expression [1 << g]: undefined for a shift count that is
    negative or not below the width of [int]. *)
Definition shift1 (g : Z) : option Z :=
  if (0 <=? g) && (g <? 32) then Some (shl1 g) else None.

(** Signed [int] addition: overflow is undefined. *)
Definition int_add (a b : Z) : option Z :=
  if (- 2 ^ 31 <=? a + b) && (a + b <=? INT_MAX) then Some (a + b) else None.

End CInt.
Export CInt.

(** GPIO numbers whose bit exists in the 32-bit set and clear registers;
    [1 << g] is undefined for any other [g] (see [shift1]). *)
Definition valid_gpio (g : Z) : Prop := 0 <= g < 32.

(** ** Collaborators that are not part of this translation unit *)

(** [ft::GPIO] of [ft-gpio.h], used through [Init] and [AddOutput], and
    [ft::mmap_bcm_register]. *)
Class FtGPIO := {
  gpio_state : Type;
  gpio_new : gpio_state;
  gpio_Init : gpio_state -> gpio_state * bool;
  gpio_AddOutput : gpio_state -> Z -> gpio_state * bool;
  mmap_bcm_register : Z -> Z
}.

(** [rpi-dma.h]: the uncached memory block, the size of [struct dma_cb] and
    the register constants and field macros the engine names. *)
Class RpiDMA := {
  UncachedMemBlock : Type;
  UncachedMemBlock_alloc : Z -> option UncachedMemBlock;
  UncachedMemBlock_mem : UncachedMemBlock -> Z;
  UncachedMemBlock_to_physical : UncachedMemBlock -> Z -> Z;
  sizeof_dma_cb : Z;
  DMA_CB_TI_SRC_INC : Z;
  DMA_CB_TI_DEST_INC : Z;
  DMA_CB_TI_NO_WIDE_BURSTS : Z;
  DMA_CB_TI_TDMODE : Z;
  DMA_CB_TXFR_LEN_YLENGTH : Z -> Z;
  DMA_CB_TXFR_LEN_XLENGTH : Z -> Z;
  DMA_CB_STRIDE_D_STRIDE : Z -> Z;
  DMA_CB_STRIDE_S_STRIDE : Z -> Z;
  DMA_CS_END : Z;
  DMA_CS_ACTIVE : Z;
  DMA_CS_ERROR : Z;
  DMA_CS_ABORT : Z;
  DMA_CS_RESET : Z;
  DMA_CS_DISDEBUG : Z;
  DMA_CS_PRIORITY : Z -> Z;
  DMA_CS_PANIC_PRIORITY : Z -> Z
}.

(** ** Constants of this file *)

Definition GPIO_REGISTER_BASE : Z := 0x200000.
Definition GPIO_SET_OFFSET : Z := 0x1C.
Definition GPIO_CLR_OFFSET : Z := 0x28.
Definition PHYSICAL_GPIO_BUS : Z := 0x7E000000 + GPIO_REGISTER_BASE.
Definition DMA_CHANNEL : Z := 5.
Definition DMA_BASE : Z := 0x007000.

(** ** The data model *)

(** [struct DMAMultiSPI::GPIOData]: one write to the GPIO set and clear
    registers. *)
Record GPIOData := mkGPIOData {
  set : Z;
  ignored_upper_set_bits : Z;
  reserved_area : Z;
  clr : Z
}.

Definition sizeof_GPIOData : Z := 16.

(** Byte offset of a field of [GPIOData]. *)
Definition offsetof_set : Z := 0.
Definition offsetof_clr : Z := 12.

Definition zero_GPIOData : GPIOData := mkGPIOData 0 0 0 0.

(** [d.set = v] and [d.clr = v]. *)
Definition with_set (v : Z) (d : GPIOData) : GPIOData :=
  mkGPIOData v (ignored_upper_set_bits d) (reserved_area d) (clr d).

Definition with_clr (v : Z) (d : GPIOData) : GPIOData :=
  mkGPIOData (set d) (ignored_upper_set_bits d) (reserved_area d) v.

(** [struct dma_cb] of [rpi-dma.h]: the fields the engine writes. *)
Record dma_cb := mk_dma_cb {
  info : Z;
  src : Z;
  dst : Z;
  length_ : Z;
  stride : Z;
  next : Z
}.

(** The state of one [DMAMultiSPI] object.  [mem_cb] and [mem_gpio] are
    the contents of the block [alloced_.mem]: first the control blocks,
    then the GPIO operations [gpio_dma_] points to. *)
Record DMAMultiSPI `{FtGPIO} `{RpiDMA} := mkDMAMultiSPI {
  gpio_ : gpio_state;
  clock_gpio_ : Z;
  serial_byte_size_ : Z;
  alloced_ : option UncachedMemBlock;
  gpio_dma_ : option Z;
  start_block_ : Z;
  dma_channel_ : Z;
  gpio_shadow_ : list GPIOData;
  gpio_buffer_size_ : Z;
  mem_cb : list dma_cb;
  mem_gpio : list GPIOData
}.
Arguments mkDMAMultiSPI {_ _}.

Section Timeline.
Context `{FtGPIO} `{RpiDMA}.

Local Abbreviation engine := DMAMultiSPI.

Definition with_timeline (this : engine) (bytes : Z) (shadow : list GPIOData)
    (size : Z) : engine :=
  mkDMAMultiSPI (gpio_ this) (clock_gpio_ this) bytes (alloced_ this)
    (gpio_dma_ this) (start_block_ this) (dma_channel_ this) shadow size
    (mem_cb this) (mem_gpio this).

Definition with_gpio (this : engine) (g : gpio_state) : engine :=
  mkDMAMultiSPI g (clock_gpio_ this) (serial_byte_size_ this) (alloced_ this)
    (gpio_dma_ this) (start_block_ this) (dma_channel_ this)
    (gpio_shadow_ this) (gpio_buffer_size_ this) (mem_cb this) (mem_gpio this).

(** [DMAMultiSPI::DMAMultiSPI(int clock_gpio)].  [gpio_buffer_size_] is
    not initialised by the constructor; [size0] is what it happens to
    hold. *)
Definition DMAMultiSPI_new (size0 : Z) (clock_gpio : Z) : option engine :=
  let '(g1, success) := gpio_Init gpio_new in
  if negb success then None else
  let '(g2, success) := gpio_AddOutput g1 clock_gpio in
  if negb success then None else
  Some (mkDMAMultiSPI g2 clock_gpio 0 None None 0 0 [] size0 [] []).

(** [bytes_to_gpio_ops]: the [size_t] product wraps modulo a multiple of
    [2^32], which the conversion of the result to [int] absorbs. *)
Definition bytes_to_gpio_ops (bytes : Z) : Z := int_of (bytes * 8 * 2 + 1).

(** [realloc(old, n * sizeof(GPIOData))]: the first [n] elements are
    kept, elements past the old size hold whatever the allocator left
    there ([junk], by index). *)
Definition realloc (junk : nat -> GPIOData) (old : list GPIOData) (n : nat)
    : list GPIOData :=
  take n old ++ (junk <$> seq (length old) (n - length old)).

(** [bzero(buf + start, count * sizeof(GPIOData))]. *)
Definition bzero (buf : list GPIOData) (start count : nat) : list GPIOData :=
  list_inserts start (replicate count zero_GPIOData) buf.

(** Body of the clock loop of [RegisterDataGPIO] at index [i], for a
    clock pin whose shift [1 << clock_gpio_] is defined. *)
Definition clock_step (clock_gpio : Z) (shadow : list GPIOData) (i : Z)
    : list GPIOData :=
  if Z.rem i 2 =? 0
  then alter (with_clr (uint32_t (shl1 clock_gpio))) (Z.to_nat i) shadow
  else alter (with_set (uint32_t (shl1 clock_gpio))) (Z.to_nat i) shadow.

(** The passes of the clock loop over the indices [from], ..., [to - 1]. *)
Definition clock_passes (clock_gpio : Z) (from to : Z) (shadow : list GPIOData)
    : list GPIOData :=
  foldl (clock_step clock_gpio) shadow (seqZ from (to - from)).

(** [for (int i = from; i < to; ++i) ...].  Every pass evaluates
    [1 << clock_gpio_]; a loop without a pass does not. *)
Definition clock_loop (clock_gpio : Z) (from to : Z) (shadow : list GPIOData)
    : option (list GPIOData) :=
  if to <=? from then Some shadow else
  _ ← shift1 clock_gpio;
  Some (clock_passes clock_gpio from to shadow).

(** The block guarded by [requested_bytes > serial_byte_size_].  When the
    wrapped slot count lies below the previous end, the length handed to
    [bzero] is negative and the C++ is undefined. *)
Definition grow (junk : nat -> GPIOData) (this : engine) (requested_bytes : Z)
    : option engine :=
  let prev_gpio_end := bytes_to_gpio_ops (serial_byte_size_ this) - 1 in
  let gpio_operations := bytes_to_gpio_ops requested_bytes in
  if (gpio_operations <? prev_gpio_end) || (prev_gpio_end <? 0) then None else
  let size := gpio_operations * sizeof_GPIOData in
  let shadow1 := realloc junk (gpio_shadow_ this) (Z.to_nat gpio_operations) in
  let shadow2 := bzero shadow1 (Z.to_nat prev_gpio_end)
                   (Z.to_nat (gpio_operations - prev_gpio_end)) in
  shadow3 ← clock_loop (clock_gpio_ this) prev_gpio_end gpio_operations
              shadow2;
  Some (with_timeline this requested_bytes shadow3 size).

(** [DMAMultiSPI::RegisterDataGPIO]. *)
Definition RegisterDataGPIO (junk : nat -> GPIOData) (this : engine)
    (gpio requested_bytes : Z) : option (engine * bool) :=
  match gpio_dma_ this with
  | Some _ => None
  | None =>
    this1 ← (if serial_byte_size_ this <? requested_bytes
             then grow junk this requested_bytes
             else Some this);
    let '(g, ok) := gpio_AddOutput (gpio_ this1) gpio in
    Some (with_gpio this1 g, ok)
  end.

(** What one pass of the body of the loop of [SetBufferedByte] leaves in
    the operation [d], for a data pin whose shift [1 << data_gpio] is
    defined. *)
Definition set_bit (data_gpio data bit : Z) (d : GPIOData) : GPIOData :=
  if negb (Z.land data bit =? 0)
  then (* set *)
    with_clr (uint32_t (Z.land (clr d) (uint32_t (Z.lnot (shl1 data_gpio)))))
      (with_set (uint32_t (Z.lor (set d) (uint32_t (shl1 data_gpio)))) d)
  else (* reset *)
    with_clr (uint32_t (Z.lor (clr d) (uint32_t (shl1 data_gpio))))
      (with_set (uint32_t (Z.land (set d) (uint32_t (Z.lnot (shl1 data_gpio))))) d).

(** [for (uint8_t bit = ...; bit; bit >>= 1, buffer_pos += 2)].  A
    [uint8_t] is zero after eight halvings, so the caller's fuel of 8
    body runs is enough (see [SetBufferedByte_loop_fuel]).  Either branch
    of the body reads and writes through [buffer_pos] and evaluates
    [1 << data_gpio]. *)
Fixpoint SetBufferedByte_loop (fuel : nat) (data_gpio data bit : Z)
    (buffer_pos : nat) (shadow : list GPIOData) : option (list GPIOData) :=
  if bit =? 0 then Some shadow else
  match fuel with
  | O => None
  | S fuel' =>
    d ← shadow !! buffer_pos;
    _ ← shift1 data_gpio;
    SetBufferedByte_loop fuel' data_gpio data (uint8_t (Z.shiftr bit 1))
      (buffer_pos + 2)%nat (<[buffer_pos := set_bit data_gpio data bit d]> shadow)
  end.

(** [2 * 8 * pos], a product at type [size_t]: the index of the
    operation [buffer_pos] starts at. *)
Definition first_slot (pos : Z) : nat := Z.to_nat (size_t (2 * 8 * pos)).

(** [DMAMultiSPI::SetBufferedByte]. *)
Definition SetBufferedByte (this : engine) (data_gpio pos data : Z)
    : option engine :=
  if negb (pos <? serial_byte_size_ this) then None else
  shadow ← SetBufferedByte_loop 8 data_gpio data 128
             (first_slot pos) (gpio_shadow_ this);
  Some (with_timeline this (serial_byte_size_ this) shadow
          (gpio_buffer_size_ this)).

End Timeline.


(** ** Building the control-block chain *)

Section Descriptors.
Context `{FtGPIO} `{RpiDMA}.

Local Abbreviation engine := DMAMultiSPI.

(** [c.next = v]. *)
Definition with_next (v : Z) (c : dma_cb) : dma_cb :=
  mk_dma_cb (info c) (src c) (dst c) (length_ c) (stride c) v.

(** The four fields and the transfer shape written in one pass of the
    loop; [next] keeps what it held. *)
Definition fill_cb (src_phys n : Z) (c : dma_cb) : dma_cb :=
  mk_dma_cb
    (uint32_t (Z.lor (Z.lor (Z.lor DMA_CB_TI_SRC_INC DMA_CB_TI_DEST_INC)
                        DMA_CB_TI_NO_WIDE_BURSTS) DMA_CB_TI_TDMODE))
    (uint32_t src_phys)
    (uint32_t (PHYSICAL_GPIO_BUS + GPIO_SET_OFFSET))
    (uint32_t (Z.lor (DMA_CB_TXFR_LEN_YLENGTH n)
                 (DMA_CB_TXFR_LEN_XLENGTH sizeof_GPIOData)))
    (uint32_t (Z.lor (DMA_CB_STRIDE_D_STRIDE (-16)) (DMA_CB_STRIDE_S_STRIDE 0)))
    (next c).

Definition kMaxOpsPerBlock : Z := int_of (Z.shiftl 2 15 / sizeof_GPIOData).

(** The variables of the loop of [FinishRegistration].  Control blocks
    are named by their index in the block; [start_gpio] is a CPU
    address. *)
Record finish_loop := mk_finish_loop {
  previous : option nat;
  cb : option nat;
  start_gpio : Z;
  remaining : Z;
  blocks : list dma_cb
}.

(** Address of control block [i] of the block [blk]. *)
Definition cb_address (blk : UncachedMemBlock) (i : Z) : Z :=
  UncachedMemBlock_mem blk + i * sizeof_dma_cb.

Definition finish_step (blk : UncachedMemBlock) (st : finish_loop) (i : Z)
    : finish_loop :=
  let blocks1 :=
    match previous st with
    | Some p =>
      alter (with_next (uint32_t
               (UncachedMemBlock_to_physical blk (cb_address blk i))))
        p (blocks st)
    | None => blocks st
    end in
  let n := if kMaxOpsPerBlock <? remaining st then kMaxOpsPerBlock
           else remaining st in
  let blocks2 :=
    alter (fill_cb (UncachedMemBlock_to_physical blk (start_gpio st)) n)
      (Z.to_nat i) blocks1 in
  mk_finish_loop (Some (Z.to_nat i)) (Some (Z.to_nat i))
    (start_gpio st + n * sizeof_GPIOData) (remaining st - n) blocks2.

(** [DMAMultiSPI::FinishRegistration].  The block comes back from the
    allocator with unknown contents ([junk_cb], [junk_gpio]).  The sum
    that rounds the block count up is an [int] sum, and [alloc_size] is
    an [int]: when the byte count does not fit it, the block is smaller
    than what the loop writes.  After a loop without a pass, [cb] is
    null at the final store. *)
Definition FinishRegistration (junk_cb : nat -> dma_cb)
    (junk_gpio : nat -> GPIOData) (this : engine) : option engine :=
  match alloced_ this with
  | Some _ => None
  | None =>
    let gpio_operations := bytes_to_gpio_ops (serial_byte_size_ this) in
    sum ← int_add gpio_operations kMaxOpsPerBlock;
    sum1 ← int_add sum (-1);
    let control_blocks := Z.quot sum1 kMaxOpsPerBlock in
    let bytes := control_blocks * sizeof_dma_cb
                 + gpio_operations * sizeof_GPIOData in
    let alloc_size := int_of bytes in
    if negb (alloc_size =? bytes) then None else
    blk ← UncachedMemBlock_alloc alloc_size;
    let gpio_dma := UncachedMemBlock_mem blk + control_blocks * sizeof_dma_cb in
    let st := foldl (finish_step blk)
                (mk_finish_loop None None gpio_dma gpio_operations
                   (junk_cb <$> seq 0 (Z.to_nat control_blocks)))
                (seqZ 0 control_blocks) in
    last_cb ← cb st;
    let blocks' := alter (with_next 0) last_cb (blocks st) in
    let dmaBase := mmap_bcm_register DMA_BASE in
    Some (mkDMAMultiSPI (gpio_ this) (clock_gpio_ this)
            (serial_byte_size_ this) (Some blk) (Some gpio_dma)
            (UncachedMemBlock_mem blk) (dmaBase + 0x100 * DMA_CHANNEL)
            (gpio_shadow_ this) (gpio_buffer_size_ this) blocks'
            (junk_gpio <$> seq 0 (Z.to_nat gpio_operations)))
  end.

End Descriptors.

(** ** Driving the transfer *)

(** What the engine does to the DMA channel registers, in program order:
    a load of [cs] with the value it returned, a store to [cs] or
    [cblock], a sleep. *)
Inductive mmio :=
  | ld_cs (v : Z)
  | st_cs (v : Z)
  | st_cblock (v : Z)
  | usleep (us : Z).

(** The register bus as the driver sees it: how many loads of [cs] were
    issued, and the accesses so far. *)
Record bus := mk_bus { loads : nat; trace : list mmio }.

(** Why the poll loop of [SendBuffers] was left. *)
Inductive poll_exit := completed | errored.

Section Transfer.
Context `{FtGPIO} `{RpiDMA}.

Local Abbreviation engine := DMAMultiSPI.

(** The hardware: [cs_reads k] is what load number [k] of
    [dma_channel_->cs] returns. *)
Variable cs_reads : nat -> Z.

Definition load_cs (b : bus) : Z * bus :=
  (cs_reads (loads b),
   mk_bus (S (loads b)) (trace b ++ [ld_cs (cs_reads (loads b))])).

Definition emit (e : mmio) (b : bus) : bus := mk_bus (loads b) (trace b ++ [e]).

(** [dma_channel_->cs |= x]. *)
Definition cs_or (x : Z) (b : bus) : bus :=
  let '(v, b1) := load_cs b in emit (st_cs (uint32_t (Z.lor v x))) b1.

(** [dma_channel_->cs &= ~x]. *)
Definition cs_and_not (x : Z) (b : bus) : bus :=
  let '(v, b1) := load_cs b in
  emit (st_cs (uint32_t (Z.land v (uint32_t (Z.lnot x))))) b1.

(** [while ((cs & ACTIVE) && !(cs & ERROR)) usleep(10);] with a bound on
    the number of sleeps. *)
Fixpoint poll (fuel : nat) (b : bus) : option (poll_exit * bus) :=
  let '(v1, b1) := load_cs b in
  if Z.land v1 DMA_CS_ACTIVE =? 0 then Some (completed, b1) else
  let '(v2, b2) := load_cs b1 in
  if negb (Z.land v2 DMA_CS_ERROR =? 0) then Some (errored, b2) else
  match fuel with
  | O => None
  | S fuel' => poll fuel' (emit (usleep 10) b2)
  end.

(** The four statements after the loop. *)
Definition teardown (b : bus) : bus :=
  cs_or DMA_CS_RESET
    (cs_and_not DMA_CS_ACTIVE
       (emit (usleep 100) (cs_or DMA_CS_ABORT b))).

(** [memcpy(dst, src, n)] over whole [GPIOData] elements; undefined from
    a null source or past either allocation. *)
Definition memcpy (dst src : list GPIOData) (n : Z) : option (list GPIOData) :=
  match src with
  | [] => None
  | _ =>
    if (n <? 0) || negb (Z.rem n sizeof_GPIOData =? 0)
       || (Z.of_nat (length src) * sizeof_GPIOData <? n)
       || (Z.of_nat (length dst) * sizeof_GPIOData <? n)
    then None
    else Some (take (Z.to_nat (n / sizeof_GPIOData)) src
               ++ drop (Z.to_nat (n / sizeof_GPIOData)) dst)
  end.

Definition with_mem_gpio (this : engine) (m : list GPIOData) : engine :=
  mkDMAMultiSPI (gpio_ this) (clock_gpio_ this) (serial_byte_size_ this)
    (alloced_ this) (gpio_dma_ this) (start_block_ this) (dma_channel_ this)
    (gpio_shadow_ this) (gpio_buffer_size_ this) (mem_cb this) m.

(** The statements of [SendBuffers] before the poll loop. *)
Definition arm (blk : UncachedMemBlock) (this : engine) (b : bus) : bus :=
  cs_or DMA_CS_ACTIVE
    (emit (st_cs (uint32_t (Z.lor (Z.lor (DMA_CS_PRIORITY 7)
                                     (DMA_CS_PANIC_PRIORITY 7)) DMA_CS_DISDEBUG)))
       (emit (st_cblock (uint32_t
                (UncachedMemBlock_to_physical blk (start_block_ this))))
          (cs_or DMA_CS_END b))).

(** [DMAMultiSPI::SendBuffers]; it returns [void]. *)
Definition SendBuffers (fuel : nat) (junk_cb : nat -> dma_cb)
    (junk_gpio : nat -> GPIOData) (this : engine) (b : bus)
    : option (engine * bus) :=
  this1 ← match gpio_dma_ this with
          | None => FinishRegistration junk_cb junk_gpio this
          | Some _ => Some this
          end;
  m ← memcpy (mem_gpio this1) (gpio_shadow_ this1) (gpio_buffer_size_ this1);
  blk ← alloced_ this1;
  '(_, b1) ← poll fuel (arm blk this1 b);
  Some (with_mem_gpio this1 m, teardown b1).

End Transfer.

(** ** Concrete collaborators, for evaluating the engine *)

(** Modelled from the spec: [ft-gpio.h] is not among the sources.  Section 6
    gives [initialize() -> success|failure] and
    [reserve_output(pin) -> success|failure], failing on an invalid pin;
    this instance keeps the list of reserved output pins and takes the
    pins with a bit in the 32-bit registers as the valid ones. *)
#[export] Instance list_gpio : FtGPIO := {|
  gpio_state := list Z;
  gpio_new := [];
  gpio_Init := fun g => (g, true);
  gpio_AddOutput := fun g pin =>
    if (0 <=? pin) && (pin <? 32) then (pin :: g, true) else (g, false);
  mmap_bcm_register := fun base => 0x3F000000 + base
|}.

(** Modelled from the spec: [rpi-dma.h] is not among the sources.  Section 6
    gives [allocate(byte_size) -> block] and
    [to_physical_address(block, cpu_pointer) -> physical_address]; a block
    is its CPU address and its bus address, and translation keeps the
    offset.  The constants follow the register and control-block layout of
    the BCM2835 DMA controller: the destination stride is the signed upper
    half of the stride word, the source stride the lower half. *)
#[export] Instance bcm2835_dma : RpiDMA := {|
  UncachedMemBlock := Z * Z;
  UncachedMemBlock_alloc := fun size =>
    if 0 <? size then Some (0x10000, 0xC0000000) else None;
  UncachedMemBlock_mem := fst;
  UncachedMemBlock_to_physical := fun blk p => snd blk + (p - fst blk);
  sizeof_dma_cb := 32;
  DMA_CB_TI_SRC_INC := Z.shiftl 1 8;
  DMA_CB_TI_DEST_INC := Z.shiftl 1 4;
  DMA_CB_TI_NO_WIDE_BURSTS := Z.shiftl 1 26;
  DMA_CB_TI_TDMODE := Z.shiftl 1 1;
  DMA_CB_TXFR_LEN_YLENGTH := fun y => Z.shiftl (Z.land y 0x3fff) 16;
  DMA_CB_TXFR_LEN_XLENGTH := fun x => Z.land x 0xffff;
  DMA_CB_STRIDE_D_STRIDE := fun x => Z.shiftl (Z.land x 0xffff) 16;
  DMA_CB_STRIDE_S_STRIDE := fun x => Z.land x 0xffff;
  DMA_CS_END := Z.shiftl 1 1;
  DMA_CS_ACTIVE := Z.shiftl 1 0;
  DMA_CS_ERROR := Z.shiftl 1 8;
  DMA_CS_ABORT := Z.shiftl 1 30;
  DMA_CS_RESET := Z.shiftl 1 31;
  DMA_CS_DISDEBUG := Z.shiftl 1 29;
  DMA_CS_PRIORITY := fun x => Z.shiftl (Z.land x 0xf) 16;
  DMA_CS_PANIC_PRIORITY := fun x => Z.shiftl (Z.land x 0xf) 20
|}.

(** ** A worked engine: clock on pin 18, one channel on pin 23 *)

Module Example.

(** What [realloc] and the allocator leave in fresh memory. *)
Definition junk : nat -> GPIOData := fun _ => mkGPIOData 0xdeadbeef 1 2 0xfeedface.
Definition junk_cb : nat -> dma_cb := fun _ => mk_dma_cb 9 9 9 9 9 9.

Definition fresh : DMAMultiSPI :=
  @mkDMAMultiSPI list_gpio bcm2835_dma [18] 18 0 None None 0 0 [] 0 [] [].

(** After [RegisterDataGPIO(23, 1)]. *)
Definition one_byte : DMAMultiSPI := Eval vm_compute in
  match RegisterDataGPIO junk fresh 23 1 with
  | Some (this, _) => this
  | None => fresh
  end.

(** After [RegisterDataGPIO(23, 0)]. *)
Definition no_byte : DMAMultiSPI := Eval vm_compute in
  match RegisterDataGPIO junk fresh 23 0 with
  | Some (this, _) => this
  | None => fresh
  end.

(** After [RegisterDataGPIO(23, 2^28 + 1)]. *)
Definition wrapped : DMAMultiSPI := Eval vm_compute in
  match RegisterDataGPIO junk fresh 23 (2 ^ 28 + 1) with
  | Some (this, _) => this
  | None => fresh
  end.

(** [one_byte] after [SetBufferedByte(23, 0, 0xFF)]. *)
Definition all_ones : DMAMultiSPI := Eval vm_compute in
  match SetBufferedByte one_byte 23 0 0xFF with
  | Some this => this
  | None => fresh
  end.

(** [one_byte] after [FinishRegistration]. *)
Definition finished : DMAMultiSPI := Eval vm_compute in
  match FinishRegistration junk_cb junk one_byte with
  | Some this => this
  | None => fresh
  end.

(** [all_ones] after [FinishRegistration], and what [memcpy] then
    leaves in the DMA memory. *)
Definition ready : DMAMultiSPI := Eval vm_compute in
  match FinishRegistration junk_cb junk all_ones with
  | Some this => this
  | None => fresh
  end.

Definition copied : list GPIOData := Eval vm_compute in
  match memcpy (mem_gpio ready) (gpio_shadow_ ready) (gpio_buffer_size_ ready) with
  | Some m => m
  | None => []
  end.

(** A channel that stays active for three polls and then completes, and
    one that reports an error while active. *)
Definition completing : nat -> Z :=
  fun k => if (k <? 8)%nat then DMA_CS_ACTIVE else 0.
Definition failing : nat -> Z :=
  fun k => Z.lor DMA_CS_ACTIVE DMA_CS_ERROR.

Definition idle : bus := mk_bus 0 [].

Definition polled_completing : bus := Eval vm_compute in
  match poll completing 10 (arm completing (0x10000, 0xC0000000) ready idle) with
  | Some (_, b) => b
  | None => idle
  end.

Definition polled_failing : bus := Eval vm_compute in
  match poll failing 10 (arm failing (0x10000, 0xC0000000) ready idle) with
  | Some (_, b) => b
  | None => idle
  end.

End Example.

(** ** Vocabulary of the statements *)

(** Whether pin [g] is driven high, or low, by the operation [d]. *)
Definition pin_set (d : GPIOData) (g : Z) : bool := Z.testbit (set d) g.
Definition pin_clr (d : GPIOData) (g : Z) : bool := Z.testbit (clr d) g.

(** No pin is in both masks of [d]. *)
Definition disjoint_masks (d : GPIOData) : Prop :=
  forall g, ~ (pin_set d g = true /\ pin_clr d g = true).

(** The operation that only moves the clock: low at an even index, high at
    an odd one. *)
Definition clock_slot (clock_gpio i : Z) : GPIOData :=
  if Z.even i
  then mkGPIOData 0 0 0 (uint32_t (shl1 clock_gpio))
  else mkGPIOData (uint32_t (shl1 clock_gpio)) 0 0 0.

(** The clock bit of the operation at index [i] follows the parity of [i]. *)
Definition clock_pattern_at (clock_gpio i : Z) (d : GPIOData) : Prop :=
  if Z.even i then pin_clr d clock_gpio = true else pin_set d clock_gpio = true.

(** The loop of [SetBufferedByte] unrolled over the bit numbers [n], ...,
    0, for a buffer it does not leave. *)
Fixpoint encode (data_gpio data : Z) (n : nat) (buffer_pos : nat)
    (shadow : list GPIOData) : list GPIOData :=
  let shadow1 :=
    alter (set_bit data_gpio data (2 ^ Z.of_nat n)) buffer_pos shadow in
  match n with
  | O => shadow1
  | S n' => encode data_gpio data n' (buffer_pos + 2)%nat shadow1
  end.

(** The largest capacity among those passed to [RegisterDataGPIO]. *)
Definition max_capacity (caps : list Z) : Z := foldr Z.max 0 caps.

Section Reachable.
Context `{FtGPIO} `{RpiDMA}.

(** The engines that a constructor call followed by calls of
    [RegisterDataGPIO] and of [SetBufferedByte] on data pins other than
    the clock pin produces, with the capacities registered on the way
    (latest first). *)
Inductive reachable : list Z -> DMAMultiSPI -> Prop :=
  | reach_new size0 clock_gpio this :
      valid_gpio clock_gpio ->
      DMAMultiSPI_new size0 clock_gpio = Some this ->
      reachable [] this
  | reach_register caps this junk gpio requested_bytes this' ok :
      reachable caps this ->
      0 <= requested_bytes ->
      RegisterDataGPIO junk this gpio requested_bytes = Some (this', ok) ->
      reachable (requested_bytes :: caps) this'
  | reach_set_byte caps this data_gpio pos data this' :
      reachable caps this ->
      valid_gpio data_gpio ->
      data_gpio <> clock_gpio_ this ->
      0 <= pos ->
      SetBufferedByte this data_gpio pos data = Some this' ->
      reachable caps this'.

(** The buffer is still null, or it holds as many operations as
    [bytes_to_gpio_ops] gives for the stored byte count. *)
Definition timeline_shape (this : DMAMultiSPI) : Prop :=
  (gpio_shadow_ this = [] /\ serial_byte_size_ this = 0)
  \/ (0 < bytes_to_gpio_ops (serial_byte_size_ this)
      /\ length (gpio_shadow_ this)
         = Z.to_nat (bytes_to_gpio_ops (serial_byte_size_ this))).

(** What every reachable engine satisfies. *)
Record engine_inv (caps : list Z) (this : DMAMultiSPI) : Prop := {
  inv_capacity : serial_byte_size_ this = max_capacity caps;
  inv_clock : valid_gpio (clock_gpio_ this);
  inv_shape : timeline_shape this;
  inv_slots : forall i d, gpio_shadow_ this !! i = Some d ->
    clock_pattern_at (clock_gpio_ this) (Z.of_nat i) d /\ disjoint_masks d
}.

End Reachable.

(** The two levels a slot gives pin [g]: whether it drives it high, and
    whether it drives it low. *)
Definition pin_levels (g : Z) (d : GPIOData) : bool * bool :=
  (pin_set d g, pin_clr d g).

Section Statements.
Context `{FtGPIO} `{RpiDMA}.

(** Pin [pin] carries the bits of [value], most significant first, in
    both operations of every bit of byte [pos]: the data operation
    [16 pos + 2k] and the clock-edge operation [16 pos + 2k + 1]. *)
Definition writes_both_slots (this' : DMAMultiSPI) (pin pos value : Z) : Prop :=
  forall k j, 0 <= k < 8 ->
    j = 16 * pos + 2 * k \/ j = 16 * pos + 2 * k + 1 ->
    exists d', gpio_shadow_ this' !! Z.to_nat j = Some d'
      /\ pin_set d' pin = Z.testbit value (7 - k)
      /\ pin_clr d' pin = negb (Z.testbit value (7 - k)).

(** The buffer holds [b * 16 + 1] operations for the largest registered
    capacity [b]. *)
Definition slot_count_formula (caps : list Z) (this : DMAMultiSPI) : Prop :=
  Z.of_nat (length (gpio_shadow_ this)) = max_capacity caps * 16 + 1.

(** The stride word of control block [c] carries, as destination
    stride, minus the distance from the set register to the clear
    register. *)
Definition stride_is_register_distance (c : dma_cb) : Prop :=
  stride c
  = uint32_t (Z.lor (DMA_CB_STRIDE_D_STRIDE (- (GPIO_CLR_OFFSET - GPIO_SET_OFFSET)))
                (DMA_CB_STRIDE_S_STRIDE 0)).

(** [FinishRegistration] left in [this'] as many control blocks as the
    buffer of [this] has operations, divided by the block limit and
    rounded up. *)
Definition descriptor_count_formula (this this' : DMAMultiSPI) : Prop :=
  Z.of_nat (length (mem_cb this'))
  = (Z.of_nat (length (gpio_shadow_ this)) + kMaxOpsPerBlock - 1)
    / kMaxOpsPerBlock.

(** The stride word every pass of the loop writes. *)
Definition stride_word : Z :=
  uint32_t (Z.lor (DMA_CB_STRIDE_D_STRIDE (- sizeof_GPIOData))
              (DMA_CB_STRIDE_S_STRIDE 0)).

(** The register accesses of the four statements after the poll loop,
    for the three values their loads return. *)
Definition teardown_trace (v1 v2 v3 : Z) : list mmio :=
  [ ld_cs v1; st_cs (uint32_t (Z.lor v1 DMA_CS_ABORT));
    usleep 100;
    ld_cs v2; st_cs (uint32_t (Z.land v2 (uint32_t (Z.lnot DMA_CS_ACTIVE))));
    ld_cs v3; st_cs (uint32_t (Z.lor v3 DMA_CS_RESET)) ].

(** What the last load of the poll loop saw, by the way the loop was
    left. *)
Definition exit_condition (how : poll_exit) (v : Z) : Prop :=
  match how with
  | completed => Z.land v DMA_CS_ACTIVE = 0
  | errored => Z.land v DMA_CS_ERROR <> 0
  end.

End Statements.

(** ** Vocabulary of the further properties *)

(** The level a reader of the buffer finds for pin [g] in operation [i]:
    high when the operation sets the pin. *)
Definition read_bit (shadow : list GPIOData) (g : Z) (i : nat) : bool :=
  match shadow !! i with
  | Some d => pin_set d g
  | None => false
  end.

(** The byte a reader shifts in, most significant bit first, from the
    eight data operations of byte [pos]. *)
Definition read_byte (shadow : list GPIOData) (g pos : Z) : Z :=
  foldl (fun acc k => 2 * acc + Z.b2z (read_bit shadow g (Z.to_nat (16 * pos + 2 * k))))
    0 (seqZ 0 8).

(** Operation [j] is one of the eight data operations a call of
    [SetBufferedByte] for byte [pos] visits. *)
Definition data_slot_of (pos : Z) (j : nat) : Prop :=
  exists k, (k < 8)%nat /\ j = (first_slot pos + 2 * k)%nat.


(** An operation as the engine means to write it: the two words between
    the masks are zero, and the masks are 32-bit values. *)
Definition clean_slot (d : GPIOData) : Prop :=
  ignored_upper_set_bits d = 0 /\ reserved_area d = 0
  /\ 0 <= set d < 2 ^ 32 /\ 0 <= clr d < 2 ^ 32.

Section FurtherInvariant.
Context `{FtGPIO} `{RpiDMA}.

(** What else every reachable engine satisfies: it was not finished; the
    stored buffer size is the size of the buffer; every operation is
    clean; and the operations at odd indices and the last one are pure
    clock operations. *)
Record timeline_inv (this : DMAMultiSPI) : Prop := {
  tl_unfinished : gpio_dma_ this = None /\ alloced_ this = None;
  tl_size : gpio_shadow_ this = []
            \/ (0 < serial_byte_size_ this
                /\ gpio_buffer_size_ this
                   = Z.of_nat (length (gpio_shadow_ this)) * sizeof_GPIOData);
  tl_clean : forall i d, gpio_shadow_ this !! i = Some d -> clean_slot d;
  tl_clock : forall i d, gpio_shadow_ this !! i = Some d ->
    Z.odd (Z.of_nat i) = true \/ S i = length (gpio_shadow_ this) ->
    d = clock_slot (clock_gpio_ this) (Z.of_nat i)
}.

(** An engine that was finished and can be sent again: buffer and DMA
    memory have the same length, which the stored size records. *)
Definition sendable (this : DMAMultiSPI) : Prop :=
  is_Some (gpio_dma_ this) /\ is_Some (alloced_ this)
  /\ gpio_shadow_ this <> []
  /\ length (mem_gpio this) = length (gpio_shadow_ this)
  /\ gpio_buffer_size_ this
     = Z.of_nat (length (gpio_shadow_ this)) * sizeof_GPIOData.

End FurtherInvariant.


Section TransferVocabulary.
Context `{FtGPIO} `{RpiDMA}.
Variable cs_reads : nat -> Z.

(** The accesses of [n] passes of the poll loop that found the channel
    active and without error, the first load being load number [k]. *)
Fixpoint poll_rounds (k n : nat) : list mmio :=
  match n with
  | O => []
  | S n' =>
    ld_cs (cs_reads k) :: ld_cs (cs_reads (S k)) :: usleep 10
    :: poll_rounds (S (S k)) n'
  end.

(** From load number [k] on, the channel shows the active bit and no
    error bit for [n] passes of the poll loop. *)
Definition busy_for (k n : nat) : Prop :=
  forall j, (j < n)%nat ->
    Z.land (cs_reads (k + 2 * j)) DMA_CS_ACTIVE <> 0
    /\ Z.land (cs_reads (k + 2 * j + 1)) DMA_CS_ERROR = 0.

(** What the channel shows in the pass that leaves the loop, and the
    loads of that pass. *)
Definition leaves (how : poll_exit) (k : nat) : Prop :=
  match how with
  | completed => Z.land (cs_reads k) DMA_CS_ACTIVE = 0
  | errored => Z.land (cs_reads k) DMA_CS_ACTIVE <> 0
               /\ Z.land (cs_reads (S k)) DMA_CS_ERROR <> 0
  end.

Definition last_loads (how : poll_exit) (k : nat) : list mmio :=
  match how with
  | completed => [ld_cs (cs_reads k)]
  | errored => [ld_cs (cs_reads k); ld_cs (cs_reads (S k))]
  end.

(** The accesses of [SendBuffers] before the poll loop, for the two
    values its loads return. *)
Definition arm_trace (blk : UncachedMemBlock) (this : DMAMultiSPI)
    (v0 v1 : Z) : list mmio :=
  [ ld_cs v0; st_cs (uint32_t (Z.lor v0 DMA_CS_END));
    st_cblock (uint32_t (UncachedMemBlock_to_physical blk (start_block_ this)));
    st_cs (uint32_t (Z.lor (Z.lor (DMA_CS_PRIORITY 7) (DMA_CS_PANIC_PRIORITY 7))
                       DMA_CS_DISDEBUG));
    ld_cs v1; st_cs (uint32_t (Z.lor v1 DMA_CS_ACTIVE)) ].

End TransferVocabulary.


(** ** A longer run of the example engine *)

Module Replay.
Import Example.

(** [all_ones] after [SetBufferedByte(24, 0, 0x0F)]. *)
Definition two_pins : DMAMultiSPI := Eval vm_compute in
  match SetBufferedByte all_ones 24 0 0x0F with
  | Some this => this
  | None => fresh
  end.



(** [all_ones] after [SendBuffers] against the completing channel. *)
Definition sent : DMAMultiSPI := Eval vm_compute in
  match SendBuffers completing 10 junk_cb junk all_ones idle with
  | Some (this, _) => this
  | None => fresh
  end.

Definition sent_bus : bus := Eval vm_compute in
  match SendBuffers completing 10 junk_cb junk all_ones idle with
  | Some (_, b) => b
  | None => idle
  end.

(** [sent] after [SetBufferedByte(23, 0, 0)], and after a second
    [SendBuffers], against the failing channel. *)
Definition rewritten : DMAMultiSPI := Eval vm_compute in
  match SetBufferedByte sent 23 0 0 with
  | Some this => this
  | None => fresh
  end.

Definition resent : DMAMultiSPI := Eval vm_compute in
  match SendBuffers failing 10 junk_cb junk rewritten idle with
  | Some (this, _) => this
  | None => fresh
  end.

Definition resent_bus : bus := Eval vm_compute in
  match SendBuffers failing 10 junk_cb junk rewritten idle with
  | Some (_, b) => b
  | None => idle
  end.

(** A channel that never leaves the active state. *)
Definition stuck : nat -> Z := fun _ => DMA_CS_ACTIVE.

(** [fresh] after [RegisterDataGPIO(23, 513)]: 8209 operations, three
    control blocks. *)
Definition three_blocks : DMAMultiSPI :=
  match RegisterDataGPIO junk fresh 23 513 with
  | Some (this, _) => this
  | None => fresh
  end.

(** [fresh] and [no_byte] after [FinishRegistration]. *)
Definition finished_fresh : DMAMultiSPI := Eval vm_compute in
  match FinishRegistration junk_cb junk fresh with
  | Some this => this
  | None => fresh
  end.

Definition finished_no_byte : DMAMultiSPI := Eval vm_compute in
  match FinishRegistration junk_cb junk no_byte with
  | Some this => this
  | None => fresh
  end.

(** [fresh] after [RegisterDataGPIO(23, 2)]. *)
Definition two_bytes : DMAMultiSPI := Eval vm_compute in
  match RegisterDataGPIO junk fresh 23 2 with
  | Some (this, _) => this
  | None => fresh
  end.

(** [all_ones] after [RegisterDataGPIO(24, 2^28 + 1)], and [one_byte]
    after [RegisterDataGPIO(99, 2^28 + 1)]. *)
Definition overgrown : DMAMultiSPI := Eval vm_compute in
  match RegisterDataGPIO junk all_ones 24 (2 ^ 28 + 1) with
  | Some (this, _) => this
  | None => fresh
  end.

Definition unreserved : DMAMultiSPI := Eval vm_compute in
  match RegisterDataGPIO junk one_byte 99 (2 ^ 28 + 1) with
  | Some (this, _) => this
  | None => fresh
  end.

End Replay.

(** * Properties *)

(** ** Bits of the machine integers *)

Section Bits.

Lemma uint32_t_testbit x i :
  0 <= i -> Z.testbit (uint32_t x) i = (i <? 32) && Z.testbit x i.
Proof.
  intros Hi. unfold uint32_t. rewrite Z.testbit_mod_pow2 by lia.
  reflexivity.
Qed.

Lemma int_of_mod x : int_of x mod 2 ^ 32 = x mod 2 ^ 32.
Proof.
  unfold int_of. rewrite Zminus_mod_idemp_l. f_equal. lia.
Qed.

Lemma int_of_testbit x i :
  0 <= i < 32 -> Z.testbit (int_of x) i = Z.testbit x i.
Proof.
  intros Hi.
  rewrite <- (Z.mod_pow2_bits_low (int_of x) 32 i) by lia.
  rewrite int_of_mod. apply Z.mod_pow2_bits_low. lia.
Qed.

Lemma int_of_small x : - 2 ^ 31 <= x <= INT_MAX -> int_of x = x.
Proof.
  unfold int_of, INT_MAX. intros Hx. rewrite Z.mod_small; lia.
Qed.

(** The shift is defined exactly for the valid pins. *)
Lemma shift1_valid g : valid_gpio g -> shift1 g = Some (shl1 g).
Proof.
  intros [H0 H1]. unfold shift1.
  replace (0 <=? g) with true by (symmetry; apply Z.leb_le; assumption).
  replace (g <? 32) with true by (symmetry; apply Z.ltb_lt; assumption).
  reflexivity.
Qed.

Lemma shift1_Some g m : shift1 g = Some m -> valid_gpio g /\ m = shl1 g.
Proof.
  unfold shift1, valid_gpio. destruct (0 <=? g) eqn:E0; [|discriminate].
  destruct (g <? 32) eqn:E1; [|discriminate].
  apply Z.leb_le in E0. apply Z.ltb_lt in E1. intros [= <-]. auto.
Qed.

Lemma shift1_invalid g : ~ valid_gpio g -> shift1 g = None.
Proof.
  intros Hg. destruct (shift1 g) as [m|] eqn:E; [|reflexivity].
  apply shift1_Some in E as [Hv _]. contradiction.
Qed.

(** [2 * 8 * pos] does not wrap below [2^60]; it always is a multiple of
    16 below [2^64]. *)
Lemma first_slot_small pos :
  0 <= pos < 2 ^ 60 -> first_slot pos = Z.to_nat (2 * 8 * pos).
Proof.
  intros Hpos. unfold first_slot, size_t. rewrite Z.mod_small; [reflexivity|].
  change (2 ^ 64) with (16 * 2 ^ 60). lia.
Qed.

Lemma first_slot_aligned pos :
  exists q, 0 <= q < 2 ^ 60 /\ first_slot pos = Z.to_nat (16 * q).
Proof.
  exists (pos mod 2 ^ 60). split; [apply Z.mod_pos_bound; lia|].
  unfold first_slot, size_t. f_equal.
  replace (2 * 8 * pos) with (pos * 16) by lia.
  change (2 ^ 64) with (2 ^ 60 * 16).
  rewrite Zmult_mod_distr_r. lia.
Qed.

(** The mask of a pin, as [SetBufferedByte] and the clock loop use it. *)
Lemma mask_testbit g i :
  valid_gpio g -> 0 <= i < 32 ->
  Z.testbit (uint32_t (shl1 g)) i = (g =? i).
Proof.
  intros Hg Hi. rewrite uint32_t_testbit by lia.
  replace (i <? 32) with true by (symmetry; apply Z.ltb_lt; lia).
  cbn [andb]. unfold shl1. rewrite int_of_testbit by lia.
  rewrite Z.shiftl_1_l. apply Z.pow2_bits_eqb. unfold valid_gpio in Hg. lia.
Qed.

Lemma not_mask_testbit g i :
  valid_gpio g -> 0 <= i < 32 ->
  Z.testbit (uint32_t (Z.lnot (shl1 g))) i = negb (g =? i).
Proof.
  intros Hg Hi. rewrite uint32_t_testbit by lia.
  replace (i <? 32) with true by (symmetry; apply Z.ltb_lt; lia).
  cbn [andb]. rewrite Z.lnot_spec by lia. f_equal.
  unfold shl1. rewrite int_of_testbit by lia.
  rewrite Z.shiftl_1_l. apply Z.pow2_bits_eqb. unfold valid_gpio in Hg. lia.
Qed.

(** [data & bit] for a one-bit [bit] reads that bit of [data]. *)
Lemma land_pow2_eqb data m :
  0 <= m -> negb (Z.land data (2 ^ m) =? 0) = Z.testbit data m.
Proof.
  intros Hm. destruct (Z.testbit data m) eqn:Hb.
  - apply negb_true_iff, Z.eqb_neq. intros H0.
    assert (Hc : Z.testbit (Z.land data (2 ^ m)) m = true).
    { rewrite Z.land_spec, Hb, Z.pow2_bits_true by lia. reflexivity. }
    rewrite H0, Z.bits_0 in Hc. discriminate.
  - apply negb_false_iff, Z.eqb_eq. apply Z.bits_inj'. intros n Hn.
    rewrite Z.land_spec, Z.bits_0.
    destruct (Z.eq_dec m n) as [->|Hne].
    + rewrite Hb. reflexivity.
    + rewrite (Z.pow2_bits_false m n) by assumption. apply andb_false_r.
Qed.

End Bits.

(** ** One pass of the encoder on one operation *)

Section SetBit.

Lemma or_mask_testbit a g q :
  valid_gpio g -> 0 <= q < 32 ->
  Z.testbit (uint32_t (Z.lor a (uint32_t (shl1 g)))) q
  = Z.testbit a q || (g =? q).
Proof.
  intros Hg Hq. rewrite (uint32_t_testbit (Z.lor _ _)) by lia.
  rewrite Z.lor_spec, mask_testbit by assumption.
  replace (q <? 32) with true by (symmetry; apply Z.ltb_lt; lia).
  reflexivity.
Qed.

Lemma and_not_mask_testbit a g q :
  valid_gpio g -> 0 <= q < 32 ->
  Z.testbit (uint32_t (Z.land a (uint32_t (Z.lnot (shl1 g))))) q
  = Z.testbit a q && negb (g =? q).
Proof.
  intros Hg Hq. rewrite (uint32_t_testbit (Z.land _ _)) by lia.
  rewrite Z.land_spec, not_mask_testbit by assumption.
  replace (q <? 32) with true by (symmetry; apply Z.ltb_lt; lia).
  reflexivity.
Qed.

Lemma set_bit_pin g data m d :
  valid_gpio g -> 0 <= m ->
  pin_set (set_bit g data (2 ^ m) d) g = Z.testbit data m
  /\ pin_clr (set_bit g data (2 ^ m) d) g = negb (Z.testbit data m).
Proof.
  intros Hg Hm.
  rewrite <- (land_pow2_eqb data m Hm).
  unfold pin_set, pin_clr, set_bit.
  destruct (negb (Z.land data (2 ^ m) =? 0));
    cbn [set clr with_set with_clr];
    rewrite or_mask_testbit, and_not_mask_testbit by assumption;
    rewrite Z.eqb_refl; cbn;
    rewrite ?orb_true_r, ?andb_false_r; auto.
Qed.

Lemma set_bit_other g data bit d q :
  valid_gpio g -> valid_gpio q -> q <> g ->
  pin_set (set_bit g data bit d) q = pin_set d q
  /\ pin_clr (set_bit g data bit d) q = pin_clr d q.
Proof.
  intros Hg Hq Hne.
  assert (Hgq : (g =? q) = false) by (apply Z.eqb_neq; congruence).
  unfold pin_set, pin_clr, set_bit.
  destruct (negb (Z.land data bit =? 0));
    cbn [set clr with_set with_clr];
    rewrite or_mask_testbit, and_not_mask_testbit by assumption;
    rewrite Hgq; cbn;
    rewrite ?orb_false_r, ?andb_true_r; auto.
Qed.

(** Whatever the pin, the two masks stay disjoint. *)
Lemma set_bit_disjoint g data bit d :
  disjoint_masks d -> disjoint_masks (set_bit g data bit d).
Proof.
  intros Hd q. specialize (Hd q). revert Hd.
  unfold pin_set, pin_clr, set_bit.
  destruct (Z.neg_nonneg_cases q) as [Hq|Hq].
  { intros _. rewrite !Z.testbit_neg_r by assumption. intros [? _]. discriminate. }
  destruct (negb (Z.land data bit =? 0));
    cbn [set clr with_set with_clr];
    rewrite (uint32_t_testbit (Z.lor _ _)), (uint32_t_testbit (Z.land _ _)) by lia;
    rewrite Z.lor_spec, Z.land_spec;
    rewrite (uint32_t_testbit (Z.lnot _)), (uint32_t_testbit (shl1 _)) by lia;
    rewrite Z.lnot_spec by lia;
    destruct (q <? 32), (Z.testbit (set d) q), (Z.testbit (clr d) q),
      (Z.testbit (shl1 g) q); cbn; intuition congruence.
Qed.

End SetBit.

(** ** Arrays as lists *)

Section Arrays.
Context {A : Type}.

(** Reading an element and storing its image is [alter]. *)
Lemma alter_as_insert (f : A -> A) (l : list A) (i : nat) (x : A) :
  l !! i = Some x -> alter f i l = <[i := f x]> l.
Proof.
  intros Hx. rewrite list_insert_alter.
  apply list_alter_ext; [|reflexivity]. intros y Hy. congruence.
Qed.

End Arrays.

(** ** The encoder loop *)

Section EncodeEquations.
Variables data_gpio data : Z.

Lemma encode_0 p sh :
  encode data_gpio data 0 p sh
  = alter (set_bit data_gpio data (2 ^ Z.of_nat 0)) p sh.
Proof. reflexivity. Qed.

Lemma encode_S n p sh :
  encode data_gpio data (S n) p sh
  = encode data_gpio data n (p + 2)%nat
      (alter (set_bit data_gpio data (2 ^ Z.of_nat (S n))) p sh).
Proof. reflexivity. Qed.

End EncodeEquations.

Arguments encode : simpl never.

Section Encoder.
Variables data_gpio data : Z.

Lemma length_encode n p sh :
  length (encode data_gpio data n p sh) = length sh.
Proof.
  revert p sh. induction n as [|n IH]; intros p sh; rewrite ?encode_0, ?encode_S.
  - apply length_alter.
  - rewrite IH. apply length_alter.
Qed.

(** Operations the loop does not visit are left as they were. *)
Lemma encode_lookup_miss n p sh j :
  (forall k, (k <= n)%nat -> j <> (p + 2 * k)%nat) ->
  encode data_gpio data n p sh !! j = sh !! j.
Proof.
  revert p sh. induction n as [|n IH]; intros p sh Hj; rewrite ?encode_0, ?encode_S.
  - apply list_lookup_alter_ne. specialize (Hj 0%nat). lia.
  - rewrite IH.
    + apply list_lookup_alter_ne. specialize (Hj 0%nat). lia.
    + intros k Hk. specialize (Hj (S k)). lia.
Qed.

(** Pass [k] rewrites operation [p + 2k] from bit [n - k] of the data. *)
Lemma encode_lookup_hit n p sh k :
  (k <= n)%nat ->
  encode data_gpio data n p sh !! (p + 2 * k)%nat
  = set_bit data_gpio data (2 ^ Z.of_nat (n - k)) <$> sh !! (p + 2 * k)%nat.
Proof.
  revert p sh k. induction n as [|n IH]; intros p sh k Hk; rewrite ?encode_0, ?encode_S.
  - assert (k = 0%nat) as -> by lia.
    replace (p + 2 * 0)%nat with p by lia.
    rewrite list_lookup_alter. case_decide; [reflexivity | lia].
  - destruct k as [|k].
    + rewrite encode_lookup_miss by (intros; lia).
      replace (p + 2 * 0)%nat with p by lia.
      rewrite list_lookup_alter. case_decide; [reflexivity | lia].
    + replace (p + 2 * S k)%nat with (p + 2 + 2 * k)%nat by lia.
      rewrite IH by lia. rewrite list_lookup_alter_ne by lia.
      reflexivity.
Qed.

(** Every operation of the encoded buffer is the one before it, or one
    pass of the encoder on it. *)
Lemma encode_lookup_cases n p sh j :
  encode data_gpio data n p sh !! j = sh !! j
  \/ exists bit,
       encode data_gpio data n p sh !! j = set_bit data_gpio data bit <$> sh !! j.
Proof.
  assert (Hcase : (exists k, (k <= n)%nat /\ j = (p + 2 * k)%nat)
                  \/ (forall k, (k <= n)%nat -> j <> (p + 2 * k)%nat)).
  { destruct (decide (p <= j <= p + 2 * n)%nat) as [Hin|Hout];
      [|right; intros k Hk; lia].
    destruct (Nat.Even_or_Odd (j - p)) as [[k Hk]|[k Hk]].
    - left. exists k. lia.
    - right. intros k' _. lia. }
  destruct Hcase as [(k & Hk & ->)|Hno].
  - right. eexists. apply encode_lookup_hit. assumption.
  - left. apply encode_lookup_miss. assumption.
Qed.

Lemma encode_lookup_inv n p sh j d' :
  encode data_gpio data n p sh !! j = Some d' ->
  exists d, sh !! j = Some d
    /\ (d' = d \/ exists bit, d' = set_bit data_gpio data bit d).
Proof.
  intros Hj. destruct (encode_lookup_cases n p sh j) as [E|[bit E]];
    rewrite E in Hj.
  - exists d'. auto.
  - destruct (sh !! j) as [d|]; [|discriminate].
    injection Hj as <-. exists d. split; [reflexivity|]. right. eauto.
Qed.

Lemma uint8_t_half n :
  (n <= 7)%nat ->
  uint8_t (Z.shiftr (2 ^ Z.of_nat (S n)) 1) = 2 ^ Z.of_nat n.
Proof.
  intros Hn. rewrite Z.shiftr_div_pow2 by lia.
  replace (Z.of_nat (S n)) with (Z.of_nat n + 1) by lia.
  rewrite Z.pow_add_r, Z.div_mul by lia.
  unfold uint8_t. apply Z.mod_small. split; [lia|].
  apply Z.pow_lt_mono_r; lia.
Qed.

(** With fuel for every bit, the loop returns exactly when the buffer
    holds its last operation, and then computes [encode]. *)
Lemma SetBufferedByte_loop_fuel n fuel p sh :
  (n < fuel)%nat -> (n <= 7)%nat ->
  SetBufferedByte_loop fuel data_gpio data (2 ^ Z.of_nat n) p sh
  = if decide (p + 2 * n < length sh)%nat
    then _ ← shift1 data_gpio; Some (encode data_gpio data n p sh)
    else None.
Proof.
  revert fuel p sh. induction n as [|n IH]; intros fuel p sh Hf Hn;
    (destruct fuel as [|fuel]; [lia|]);
    cbn [SetBufferedByte_loop]; rewrite ?encode_0, ?encode_S.
  - change (2 ^ Z.of_nat 0 =? 0) with false. cbn match.
    destruct (sh !! p) as [d|] eqn:Hd; cbn [mbind option_bind].
    + pose proof (lookup_lt_Some _ _ _ Hd).
      rewrite decide_True by lia.
      destruct (shift1 data_gpio); cbn [mbind option_bind]; [|reflexivity].
      change (uint8_t (Z.shiftr (2 ^ Z.of_nat 0) 1)) with 0.
      destruct fuel; cbn; f_equal; symmetry;
        apply alter_as_insert; assumption.
    + pose proof (lookup_ge_None_1 _ _ Hd). rewrite decide_False by lia.
      reflexivity.
  - assert (Hnz : (2 ^ Z.of_nat (S n) =? 0) = false).
    { apply Z.eqb_neq. apply Z.pow_nonzero; lia. }
    rewrite Hnz. destruct (sh !! p) as [d|] eqn:Hd; cbn [mbind option_bind].
    + pose proof (lookup_lt_Some _ _ _ Hd).
      destruct (shift1 data_gpio) as [m|] eqn:Hm; cbn [mbind option_bind].
      * rewrite uint8_t_half by lia. rewrite IH by lia.
        rewrite length_insert. cbn [mbind option_bind].
        rewrite <- (alter_as_insert _ _ _ _ Hd).
        destruct (decide (p + 2 + 2 * n < length sh)%nat);
          [rewrite decide_True by lia | rewrite decide_False by lia];
          reflexivity.
      * case_decide; reflexivity.
    + pose proof (lookup_ge_None_1 _ _ Hd). rewrite decide_False by lia.
      reflexivity.
Qed.

End Encoder.

(** ** Growing the shadow buffer *)

Section Growth.

Lemma length_realloc junk old n : length (realloc junk old n) = n.
Proof.
  unfold realloc. rewrite length_app, length_take, length_fmap, length_seq.
  lia.
Qed.

(** [realloc] keeps what the old buffer held below the new size. *)
Lemma realloc_lookup_old junk old n i d :
  (i < n)%nat -> old !! i = Some d -> realloc junk old n !! i = Some d.
Proof.
  intros Hi Hd. unfold realloc.
  pose proof (lookup_lt_Some _ _ _ Hd).
  rewrite lookup_app_l by (rewrite length_take; lia).
  rewrite lookup_take_lt by lia. assumption.
Qed.

Lemma length_bzero buf start count :
  length (bzero buf start count) = length buf.
Proof. unfold bzero. apply length_inserts. Qed.

Lemma bzero_lookup_lt buf start count j :
  (j < start)%nat -> bzero buf start count !! j = buf !! j.
Proof. intros Hj. unfold bzero. apply list_lookup_inserts_lt. assumption. Qed.

Lemma bzero_lookup_in buf start count j :
  (start <= j < start + count)%nat -> (j < length buf)%nat ->
  bzero buf start count !! j = Some zero_GPIOData.
Proof.
  intros Hj Hl. unfold bzero.
  rewrite list_lookup_inserts by (rewrite ?length_replicate; lia).
  apply lookup_replicate_2. lia.
Qed.

Lemma rem2_even i : 0 <= i -> (Z.rem i 2 =? 0) = Z.even i.
Proof.
  intros Hi. rewrite Z.rem_mod_nonneg by lia.
  rewrite Zeven_mod. reflexivity.
Qed.

(** On a zeroed operation the clock loop leaves the pure clock
    operation. *)
Lemma clock_step_zero clock sh i :
  0 <= i -> sh !! Z.to_nat i = Some zero_GPIOData ->
  clock_step clock sh i !! Z.to_nat i = Some (clock_slot clock i).
Proof.
  intros Hi Hz. unfold clock_step, clock_slot. rewrite rem2_even by lia.
  destruct (Z.even i); rewrite list_lookup_alter, decide_True, Hz by reflexivity;
    reflexivity.
Qed.

Lemma clock_step_other clock sh i j :
  j <> Z.to_nat i -> clock_step clock sh i !! j = sh !! j.
Proof.
  intros Hj. unfold clock_step.
  destruct (Z.rem i 2 =? 0); apply list_lookup_alter_ne; congruence.
Qed.

Lemma length_clock_step clock sh i :
  length (clock_step clock sh i) = length sh.
Proof. unfold clock_step. destruct (Z.rem i 2 =? 0); apply length_alter. Qed.

(** The loop over [n] indices from [from]. *)
Lemma clock_fold_spec clock from n sh :
  0 <= from ->
  let sh' := foldl (clock_step clock) sh (seqZ from (Z.of_nat n)) in
  length sh' = length sh
  /\ (forall j, (j < Z.to_nat from)%nat \/ (Z.to_nat from + n <= j)%nat ->
        sh' !! j = sh !! j)
  /\ (forall i, from <= i < from + Z.of_nat n ->
        sh !! Z.to_nat i = Some zero_GPIOData ->
        sh' !! Z.to_nat i = Some (clock_slot clock i)).
Proof.
  intros Hfrom. induction n as [|n IH]; cbn zeta.
  - rewrite seqZ_nil by lia. cbn. repeat split; auto. intros; lia.
  - replace (Z.of_nat (S n)) with (Z.of_nat n + 1) by lia.
    rewrite seqZ_app by lia. rewrite foldl_app.
    rewrite (seqZ_cons _ 1), (seqZ_nil _ (Z.pred 1)) by lia. cbn [foldl].
    cbn zeta in IH. destruct IH as (IHl & IHo & IHi).
    set (sh' := foldl (clock_step clock) sh (seqZ from (Z.of_nat n))) in *.
    split; [|split].
    + rewrite length_clock_step. assumption.
    + intros j Hj. rewrite clock_step_other by lia. apply IHo. lia.
    + intros i Hi Hz. destruct (Z.eq_dec i (from + Z.of_nat n)) as [->|Hne].
      * apply clock_step_zero; [lia|]. rewrite IHo by lia. assumption.
      * rewrite clock_step_other by lia. apply IHi; [lia | assumption].
Qed.

End Growth.

Section GrowthOfEngine.
Context `{FtGPIO} `{RpiDMA}.

Lemma bytes_to_gpio_ops_odd bytes : Z.odd (bytes_to_gpio_ops bytes) = true.
Proof.
  unfold bytes_to_gpio_ops. rewrite <- Z.bit0_odd.
  rewrite int_of_testbit by lia. rewrite Z.bit0_odd.
  replace (bytes * 8 * 2 + 1) with (2 * (bytes * 8) + 1) by lia.
  apply Z.odd_odd.
Qed.

(** The previous end is even and the new slot count odd: they differ. *)
Lemma prev_end_not_ops b b' :
  bytes_to_gpio_ops b - 1 <> bytes_to_gpio_ops b'.
Proof.
  intros E. pose proof (bytes_to_gpio_ops_odd b) as Hb.
  pose proof (bytes_to_gpio_ops_odd b') as Hb'.
  rewrite <- E, Z.odd_sub, Hb in Hb'. discriminate.
Qed.

(** With a valid clock pin the loop is its passes. *)
Lemma clock_loop_valid clock from to sh :
  valid_gpio clock ->
  clock_loop clock from to sh = Some (clock_passes clock from to sh).
Proof.
  intros Hc. unfold clock_loop. destruct (to <=? from) eqn:E.
  - apply Z.leb_le in E. unfold clock_passes.
    rewrite seqZ_nil by lia. reflexivity.
  - rewrite shift1_valid by assumption. reflexivity.
Qed.

(** The buffer [grow] leaves, from the old one. *)
Lemma grow_eq junk this requested_bytes :
  let prev_gpio_end := bytes_to_gpio_ops (serial_byte_size_ this) - 1 in
  let gpio_operations := bytes_to_gpio_ops requested_bytes in
  valid_gpio (clock_gpio_ this) ->
  0 <= prev_gpio_end <= gpio_operations ->
  grow junk this requested_bytes
  = Some (with_timeline this requested_bytes
            (clock_passes (clock_gpio_ this) prev_gpio_end gpio_operations
               (bzero (realloc junk (gpio_shadow_ this)
                         (Z.to_nat gpio_operations))
                  (Z.to_nat prev_gpio_end)
                  (Z.to_nat (gpio_operations - prev_gpio_end))))
            (gpio_operations * sizeof_GPIOData)).
Proof.
  cbn zeta. intros Hc Hr. unfold grow.
  replace (_ <? _) with false by (symmetry; apply Z.ltb_ge; lia).
  replace (_ <? 0) with false by (symmetry; apply Z.ltb_ge; lia).
  cbn [orb]. rewrite clock_loop_valid by assumption. reflexivity.
Qed.

(** [grow] returns only when the slot counts are ordered and the shift
    of the clock pin is defined. *)
Lemma grow_Some junk this requested_bytes grown :
  grow junk this requested_bytes = Some grown ->
  0 <= bytes_to_gpio_ops (serial_byte_size_ this) - 1
    <= bytes_to_gpio_ops requested_bytes
  /\ valid_gpio (clock_gpio_ this).
Proof.
  unfold grow.
  destruct (_ <? _) eqn:H1; [discriminate|].
  destruct (_ <? 0) eqn:H2; [discriminate|].
  apply Z.ltb_ge in H1, H2. cbn [orb]. unfold clock_loop.
  destruct (_ <=? _) eqn:H3.
  - apply Z.leb_le in H3.
    pose proof (prev_end_not_ops (serial_byte_size_ this) requested_bytes).
    lia.
  - destruct (shift1 (clock_gpio_ this)) as [m|] eqn:Hm; [|discriminate].
    apply shift1_Some in Hm as [Hv _]. intros _. split; [lia | assumption].
Qed.

(** Shape of the grown buffer: its length, the prefix it keeps and the
    pure clock operations from the previous end on. *)
Lemma grown_shadow_spec junk clock old prev ops :
  0 <= prev <= ops ->
  let sh := clock_passes clock prev ops
              (bzero (realloc junk old (Z.to_nat ops)) (Z.to_nat prev)
                 (Z.to_nat (ops - prev))) in
  length sh = Z.to_nat ops
  /\ (forall i d, (i < Z.to_nat prev)%nat -> old !! i = Some d ->
        sh !! i = Some d)
  /\ (forall i, prev <= i < ops -> sh !! Z.to_nat i = Some (clock_slot clock i)).
Proof.
  intros Hr. cbn zeta. unfold clock_passes.
  pose proof (clock_fold_spec clock prev (Z.to_nat (ops - prev))
                (bzero (realloc junk old (Z.to_nat ops)) (Z.to_nat prev)
                   (Z.to_nat (ops - prev)))) as Hspec.
  cbn zeta in Hspec. rewrite Z2Nat.id in Hspec by lia.
  destruct Hspec as (Hl & Ho & Hi); [lia|].
  split; [|split].
  - rewrite Hl, length_bzero, length_realloc. reflexivity.
  - intros i d Hlt Hd. rewrite Ho by lia. rewrite bzero_lookup_lt by lia.
    apply realloc_lookup_old; [lia | assumption].
  - intros i Hlt. apply Hi; [lia|].
    apply bzero_lookup_in; [lia|]. rewrite length_realloc. lia.
Qed.

(** What a returning [RegisterDataGPIO] did. *)
Lemma RegisterDataGPIO_Some junk this gpio requested_bytes this' ok :
  RegisterDataGPIO junk this gpio requested_bytes = Some (this', ok) ->
  gpio_dma_ this = None
  /\ exists this1,
       (if serial_byte_size_ this <? requested_bytes
        then grow junk this requested_bytes else Some this) = Some this1
       /\ this' = with_gpio this1 (gpio_AddOutput (gpio_ this1) gpio).1
       /\ ok = (gpio_AddOutput (gpio_ this1) gpio).2.
Proof.
  unfold RegisterDataGPIO. destruct (gpio_dma_ this); [discriminate|].
  intros Hr. split; [reflexivity|].
  destruct (if serial_byte_size_ this <? requested_bytes
            then grow junk this requested_bytes else Some this)
    as [this1|]; [|discriminate].
  cbn in Hr. exists this1. split; [reflexivity|].
  destruct (gpio_AddOutput (gpio_ this1) gpio) as [g o].
  injection Hr as <- <-. split; reflexivity.
Qed.

(** [SetBufferedByte] in closed form. *)
Lemma SetBufferedByte_eq this data_gpio pos data :
  SetBufferedByte this data_gpio pos data
  = if negb (pos <? serial_byte_size_ this) then None
    else if decide (first_slot pos + 2 * 7 < length (gpio_shadow_ this))%nat
    then _ ← shift1 data_gpio;
         Some (with_timeline this (serial_byte_size_ this)
                 (encode data_gpio data 7 (first_slot pos) (gpio_shadow_ this))
                 (gpio_buffer_size_ this))
    else None.
Proof.
  unfold SetBufferedByte.
  destruct (negb (pos <? serial_byte_size_ this)); [reflexivity|].
  change 128 with (2 ^ Z.of_nat 7).
  rewrite SetBufferedByte_loop_fuel by lia.
  case_decide; [|reflexivity]. destruct (shift1 data_gpio); reflexivity.
Qed.

(** What a returning [SetBufferedByte] did: the assertion held, the
    shift of the pin is defined, and the eight operations it visits are
    operations of the buffer. *)
Lemma SetBufferedByte_Some this g pos data this' :
  SetBufferedByte this g pos data = Some this' ->
  pos < serial_byte_size_ this
  /\ valid_gpio g
  /\ (first_slot pos + 2 * 7 < length (gpio_shadow_ this))%nat
  /\ this' = with_timeline this (serial_byte_size_ this)
               (encode g data 7 (first_slot pos) (gpio_shadow_ this))
               (gpio_buffer_size_ this).
Proof.
  rewrite SetBufferedByte_eq.
  destruct (pos <? serial_byte_size_ this) eqn:Hlt; [|discriminate].
  apply Z.ltb_lt in Hlt. cbn [negb]. case_decide; [|discriminate].
  destruct (shift1 g) as [m|] eqn:Hm; [|discriminate].
  apply shift1_Some in Hm as [Hv _].
  cbn [mbind option_bind]. intros [= <-]. auto.
Qed.

(** And the converse. *)
Lemma SetBufferedByte_intro this g pos data :
  pos < serial_byte_size_ this ->
  valid_gpio g ->
  (first_slot pos + 2 * 7 < length (gpio_shadow_ this))%nat ->
  SetBufferedByte this g pos data
  = Some (with_timeline this (serial_byte_size_ this)
            (encode g data 7 (first_slot pos) (gpio_shadow_ this))
            (gpio_buffer_size_ this)).
Proof.
  intros Hlt Hv Hlen. rewrite SetBufferedByte_eq.
  replace (pos <? serial_byte_size_ this) with true
    by (symmetry; apply Z.ltb_lt; assumption).
  cbn [negb]. rewrite decide_True by assumption.
  rewrite shift1_valid by assumption. reflexivity.
Qed.

End GrowthOfEngine.

(** ** The invariant of reachable engines *)

Section Invariant.
Context `{FtGPIO} `{RpiDMA}.

Lemma bytes_to_gpio_ops_small bytes :
  0 <= bytes -> bytes * 16 + 1 <= INT_MAX ->
  bytes_to_gpio_ops bytes = bytes * 8 * 2 + 1.
Proof.
  intros Hlo Hhi. unfold bytes_to_gpio_ops. apply int_of_small.
  unfold INT_MAX in *. lia.
Qed.

Lemma clock_slot_pattern clock i :
  valid_gpio clock ->
  clock_pattern_at clock i (clock_slot clock i)
  /\ disjoint_masks (clock_slot clock i).
Proof.
  intros Hc. pose proof Hc as [Hc0 Hc1].
  unfold clock_pattern_at, clock_slot, disjoint_masks, pin_set, pin_clr.
  destruct (Z.even i); cbn [set clr]; split;
    try (rewrite mask_testbit by (assumption || lia); apply Z.eqb_refl);
    intros g [Hs Hl]; rewrite Z.bits_0 in *; discriminate.
Qed.

End Invariant.

Section InvariantSteps.
Context `{FtGPIO} `{RpiDMA}.

Lemma new_inv size0 clock this :
  valid_gpio clock -> DMAMultiSPI_new size0 clock = Some this ->
  engine_inv [] this.
Proof.
  intros Hc. unfold DMAMultiSPI_new.
  destruct (gpio_Init gpio_new) as [g1 [|]]; [|discriminate]. cbn [negb].
  destruct (gpio_AddOutput g1 clock) as [g2 [|]]; [|discriminate]. cbn [negb].
  intros [= <-]. constructor; cbn; try done.
  left. done.
Qed.

Lemma grow_inv caps this junk requested_bytes grown :
  engine_inv caps this ->
  serial_byte_size_ this < requested_bytes ->
  grow junk this requested_bytes = Some grown ->
  engine_inv (requested_bytes :: caps) grown.
Proof.
  intros [Hcap Hclock Hshape Hslots] Hlt Hg.
  destruct (grow_Some _ _ _ _ Hg) as [Hr _].
  rewrite grow_eq in Hg by assumption. injection Hg as <-.
  set (prev := bytes_to_gpio_ops (serial_byte_size_ this) - 1) in *.
  set (ops := bytes_to_gpio_ops requested_bytes) in *.
  destruct (grown_shadow_spec junk (clock_gpio_ this) (gpio_shadow_ this)
              prev ops Hr) as (Hl & Ho & Hn).
  constructor; cbn [with_timeline serial_byte_size_ clock_gpio_ gpio_shadow_].
  - cbn [max_capacity foldr]. fold (max_capacity caps). lia.
  - assumption.
  - right. split; [|assumption].
    pose proof (bytes_to_gpio_ops_odd requested_bytes) as Hodd.
    fold ops in Hodd. change (0 < ops).
    destruct (Z.eq_dec ops 0) as [E|E]; [|lia].
    rewrite E in Hodd. discriminate.
  - intros i d Hd. destruct (decide (i < Z.to_nat prev)%nat) as [Hi|Hi].
    + destruct Hshape as [[Hnil Hz]|[Hpos Hlen]].
      * exfalso. subst prev. rewrite Hz in Hi. vm_compute in Hi. lia.
      * destruct (lookup_lt_is_Some_2 (gpio_shadow_ this) i) as [d0 Hd0];
          [subst prev; lia|].
        rewrite (Ho i d0 Hi Hd0) in Hd. injection Hd as <-.
        apply Hslots. assumption.
    + pose proof (lookup_lt_Some _ _ _ Hd) as Hlt'. rewrite Hl in Hlt'.
      specialize (Hn (Z.of_nat i)). rewrite Nat2Z.id in Hn.
      rewrite Hn in Hd by lia. injection Hd as <-.
      apply clock_slot_pattern. assumption.
Qed.

Lemma register_inv caps this junk gpio requested_bytes this' ok :
  engine_inv caps this ->
  0 <= requested_bytes ->
  RegisterDataGPIO junk this gpio requested_bytes = Some (this', ok) ->
  engine_inv (requested_bytes :: caps) this'.
Proof.
  intros Hinv Hb Hr.
  destruct (RegisterDataGPIO_Some _ _ _ _ _ _ Hr)
    as (_ & this1 & H1 & -> & _).
  assert (Hinv1 : engine_inv (requested_bytes :: caps) this1).
  { destruct (serial_byte_size_ this <? requested_bytes) eqn:Hlt.
    - apply Z.ltb_lt in Hlt. eapply grow_inv; eassumption.
    - apply Z.ltb_ge in Hlt. injection H1 as <-.
      destruct Hinv as [Hcap Hclock Hshape Hslots].
      constructor; try assumption.
      cbn [max_capacity foldr]. fold (max_capacity caps). lia. }
  destruct Hinv1 as [Hcap Hclock Hshape Hslots].
  constructor; assumption.
Qed.

Lemma set_byte_inv caps this data_gpio pos data this' :
  engine_inv caps this ->
  valid_gpio data_gpio -> data_gpio <> clock_gpio_ this ->
  SetBufferedByte this data_gpio pos data = Some this' ->
  engine_inv caps this'.
Proof.
  intros [Hcap Hclock Hshape Hslots] Hg Hne Hs.
  destruct (SetBufferedByte_Some _ _ _ _ _ Hs) as (_ & _ & Hb & ->).
  constructor; unfold timeline_shape, with_timeline;
    cbn [serial_byte_size_ clock_gpio_ gpio_shadow_]; try assumption.
  - destruct Hshape as [[Hnil Hz]|[Hpos Hlen]].
    + left. rewrite Hnil in *. cbn in *. lia.
    + right. rewrite length_encode. auto.
  - intros i d' Hd'.
    destruct (encode_lookup_inv _ _ _ _ _ _ _ Hd') as (d & Hd & [->|[bit ->]]).
    + apply Hslots. assumption.
    + destruct (Hslots i d Hd) as [Hpat Hdis]. split.
      * destruct (set_bit_other data_gpio data bit d (clock_gpio_ this))
          as [Es Ec]; try assumption; [congruence|].
        unfold clock_pattern_at in *. destruct (Z.even (Z.of_nat i));
          congruence.
      * apply set_bit_disjoint. assumption.
Qed.

Lemma reachable_inv caps this : reachable caps this -> engine_inv caps this.
Proof.
  induction 1.
  - eapply new_inv; eassumption.
  - eapply register_inv; eassumption.
  - eapply set_byte_inv; eassumption.
Qed.

(** No call that makes an engine reachable finishes it. *)
Lemma reachable_unfinished caps this :
  reachable caps this -> gpio_dma_ this = None /\ alloced_ this = None.
Proof.
  induction 1 as [size0 clock this Hv Hnew
                 |caps this junk gpio b this' ok Hreach IH Hb Hr
                 |caps this g pos data this' Hreach IH Hg Hne Hpos Hs].
  - revert Hnew. unfold DMAMultiSPI_new.
    destruct (gpio_Init gpio_new) as [g1 [|]]; [|discriminate]. cbn [negb].
    destruct (gpio_AddOutput g1 clock) as [g2 [|]]; [|discriminate].
    cbn [negb]. intros [= <-]. split; reflexivity.
  - destruct (RegisterDataGPIO_Some _ _ _ _ _ _ Hr) as (_ & this1 & H1 & -> & _).
    unfold with_gpio; cbn [gpio_dma_ alloced_].
    destruct (serial_byte_size_ this <? b); [|injection H1 as <-; assumption].
    destruct (grow_Some _ _ _ _ H1) as [Hrange Hv].
    rewrite grow_eq in H1 by assumption. injection H1 as <-. assumption.
  - destruct (SetBufferedByte_Some _ _ _ _ _ Hs) as (_ & _ & _ & ->).
    assumption.
Qed.

End InvariantSteps.

(** ** Facts about the worked engine *)

Section ExampleFacts.
Import Example.

Lemma fresh_new : DMAMultiSPI_new 0 18 = Some fresh.
Proof. reflexivity. Qed.

Lemma one_byte_registered :
  RegisterDataGPIO junk fresh 23 1 = Some (one_byte, true).
Proof. reflexivity. Qed.

Lemma no_byte_registered :
  RegisterDataGPIO junk fresh 23 0 = Some (no_byte, true).
Proof. reflexivity. Qed.

Lemma wrapped_registered :
  RegisterDataGPIO junk fresh 23 (2 ^ 28 + 1) = Some (wrapped, true).
Proof. reflexivity. Qed.

Lemma all_ones_encoded : SetBufferedByte one_byte 23 0 0xFF = Some all_ones.
Proof. reflexivity. Qed.

Lemma finished_built : FinishRegistration junk_cb junk one_byte = Some finished.
Proof. reflexivity. Qed.

Lemma valid_gpio_18 : valid_gpio 18.
Proof. unfold valid_gpio. lia. Qed.

Lemma valid_gpio_23 : valid_gpio 23.
Proof. unfold valid_gpio. lia. Qed.

Lemma reachable_fresh : reachable [] fresh.
Proof. exact (reach_new 0 18 fresh valid_gpio_18 fresh_new). Qed.

Lemma reachable_one_byte : reachable [1] one_byte.
Proof.
  eapply reach_register;
    [exact reachable_fresh | lia | exact one_byte_registered].
Qed.

Lemma reachable_no_byte : reachable [0] no_byte.
Proof.
  eapply reach_register;
    [exact reachable_fresh | lia | exact no_byte_registered].
Qed.

Lemma reachable_wrapped : reachable [2 ^ 28 + 1] wrapped.
Proof.
  eapply reach_register;
    [exact reachable_fresh | lia | exact wrapped_registered].
Qed.

End ExampleFacts.

(** ** The encoder: [SetBufferedByte] *)

Section EncoderClaims.
Context `{FtGPIO} `{RpiDMA}.

(** A call changes the levels of no pin but its own. *)
Lemma SetBufferedByte_frame this data_gpio pos data this' q j :
  valid_gpio data_gpio -> valid_gpio q -> q <> data_gpio ->
  SetBufferedByte this data_gpio pos data = Some this' ->
  pin_levels q <$> gpio_shadow_ this' !! j
  = pin_levels q <$> gpio_shadow_ this !! j.
Proof.
  intros Hg Hq Hne Hs.
  destruct (SetBufferedByte_Some _ _ _ _ _ Hs) as (_ & _ & _ & ->).
  unfold with_timeline; cbn [gpio_shadow_].
  destruct (encode_lookup_cases data_gpio data 7 (first_slot pos)
              (gpio_shadow_ this) j) as [->|[bit ->]]; [reflexivity|].
  destruct (gpio_shadow_ this !! j) as [d|]; [|reflexivity].
  cbn. f_equal. unfold pin_levels.
  destruct (set_bit_other data_gpio data bit d q Hg Hq Hne) as [-> ->].
  reflexivity.
Qed.

(** C1 (as the code has it): in an engine whose capacity [b] has a slot
    count [16 b + 1] that fits [int] and whose buffer holds these
    [16 b + 1] operations, for a valid pin and a byte index below the
    capacity the call returns, and pass [k] of the encoder, for bit
    [7 - k] of the value, writes the level of the pin into the data
    operation [16 pos + 2k] alone: a 1 sets the pin in the set-mask and
    clears it from the clear-mask, a 0 does the converse.  The clock-edge
    operation [16 pos + 2k + 1] is left as it was. *)
Theorem set_byte_writes_data_slot (this : DMAMultiSPI) (pin pos value : Z) :
  valid_gpio pin ->
  0 <= pos < serial_byte_size_ this ->
  serial_byte_size_ this * 16 + 1 <= INT_MAX ->
  Z.of_nat (length (gpio_shadow_ this)) = serial_byte_size_ this * 16 + 1 ->
  exists this',
    SetBufferedByte this pin pos value = Some this'
    /\ forall k, 0 <= k < 8 ->
         (exists d', gpio_shadow_ this' !! Z.to_nat (16 * pos + 2 * k) = Some d'
            /\ pin_set d' pin = Z.testbit value (7 - k)
            /\ pin_clr d' pin = negb (Z.testbit value (7 - k)))
         /\ gpio_shadow_ this' !! Z.to_nat (16 * pos + 2 * k + 1)
            = gpio_shadow_ this !! Z.to_nat (16 * pos + 2 * k + 1).
Proof.
  intros Hpin Hpos Hmax Hlen.
  assert (Hfs : first_slot pos = Z.to_nat (2 * 8 * pos))
    by (apply first_slot_small; unfold INT_MAX in Hmax; lia).
  rewrite SetBufferedByte_intro by (try assumption; rewrite ?Hfs; lia).
  eexists. split; [reflexivity|]. intros k Hk. rewrite Hfs.
  unfold with_timeline; cbn [gpio_shadow_]. split.
  - replace (Z.to_nat (16 * pos + 2 * k))
      with (Z.to_nat (2 * 8 * pos) + 2 * Z.to_nat k)%nat by lia.
    rewrite encode_lookup_hit by lia.
    destruct (lookup_lt_is_Some_2 (gpio_shadow_ this)
                (Z.to_nat (2 * 8 * pos) + 2 * Z.to_nat k)) as [d Hd]; [lia|].
    rewrite Hd. cbn. eexists. split; [reflexivity|].
    replace (7 - k) with (Z.of_nat (7 - Z.to_nat k)) by lia.
    apply set_bit_pin; [assumption | lia].
  - apply encode_lookup_miss. intros k' Hk'. lia.
Qed.

(** In an engine whose buffer has the length of its capacity, within
    [int], a call for a valid pin with a byte index below the capacity
    returns, and keeps capacity and length. *)
Lemma SetBufferedByte_returns this data_gpio pos data :
  valid_gpio data_gpio ->
  0 <= pos < serial_byte_size_ this ->
  serial_byte_size_ this * 16 + 1 <= INT_MAX ->
  Z.of_nat (length (gpio_shadow_ this)) = serial_byte_size_ this * 16 + 1 ->
  exists this',
    SetBufferedByte this data_gpio pos data = Some this'
    /\ serial_byte_size_ this' = serial_byte_size_ this
    /\ length (gpio_shadow_ this') = length (gpio_shadow_ this).
Proof.
  intros Hv Hpos Hmax Hlen.
  assert (Hfs : first_slot pos = Z.to_nat (2 * 8 * pos))
    by (apply first_slot_small; unfold INT_MAX in Hmax; lia).
  rewrite SetBufferedByte_intro by (try assumption; rewrite ?Hfs; lia).
  eexists. split; [reflexivity|].
  unfold with_timeline; cbn [serial_byte_size_ gpio_shadow_].
  split; [reflexivity | apply length_encode].
Qed.

(** X17: non-interference of two pins where the buffer has the length
    of its capacity.  In an engine whose capacity [b] has a slot count
    [16 b + 1] that fits [int] and whose buffer holds these operations,
    for two distinct valid pins [P1] and [P2] and a byte index [i] below
    the capacity, [SetBufferedByte(P1, i, B1)] and then
    [SetBufferedByte(P2, i, B2)] both return, and every operation gives
    pin [P1] the levels the first call left; each of the two calls
    changes the levels of its own pin only. *)
Theorem set_byte_non_interference (this : DMAMultiSPI) (P1 P2 i B1 B2 : Z) :
  valid_gpio P1 -> valid_gpio P2 -> P1 <> P2 ->
  0 <= i < serial_byte_size_ this ->
  serial_byte_size_ this * 16 + 1 <= INT_MAX ->
  Z.of_nat (length (gpio_shadow_ this)) = serial_byte_size_ this * 16 + 1 ->
  exists s1 s2,
    SetBufferedByte this P1 i B1 = Some s1
    /\ SetBufferedByte s1 P2 i B2 = Some s2
    /\ (forall j, pin_levels P1 <$> gpio_shadow_ s2 !! j
                  = pin_levels P1 <$> gpio_shadow_ s1 !! j)
    /\ (forall q j, valid_gpio q -> q <> P1 ->
          pin_levels q <$> gpio_shadow_ s1 !! j
          = pin_levels q <$> gpio_shadow_ this !! j)
    /\ (forall q j, valid_gpio q -> q <> P2 ->
          pin_levels q <$> gpio_shadow_ s2 !! j
          = pin_levels q <$> gpio_shadow_ s1 !! j).
Proof.
  intros Hv1 Hv2 Hne Hi Hmax Hlen.
  destruct (SetBufferedByte_returns this P1 i B1 Hv1 Hi Hmax Hlen)
    as (s1 & Hs1 & Hcap1 & Hlen1).
  destruct (SetBufferedByte_returns s1 P2 i B2) as (s2 & Hs2 & _ & _);
    [assumption | lia | lia | lia |].
  exists s1, s2. split; [assumption|]. split; [assumption|].
  split; [|split].
  - intros j.
    exact (SetBufferedByte_frame s1 P2 i B2 s2 P1 j Hv2 Hv1 Hne Hs2).
  - intros q j Hq Hq1.
    exact (SetBufferedByte_frame this P1 i B1 s1 q j Hv1 Hq Hq1 Hs1).
  - intros q j Hq Hq2.
    exact (SetBufferedByte_frame s1 P2 i B2 s2 q j Hv2 Hq Hq2 Hs2).
Qed.

End EncoderClaims.

Lemma set_byte_writes_data_slot_witness :
  exists this',
    SetBufferedByte Example.one_byte 23 0 0xA5 = Some this'
    /\ forall k, 0 <= k < 8 ->
         (exists d', gpio_shadow_ this' !! Z.to_nat (16 * 0 + 2 * k) = Some d'
            /\ pin_set d' 23 = Z.testbit 0xA5 (7 - k)
            /\ pin_clr d' 23 = negb (Z.testbit 0xA5 (7 - k)))
         /\ gpio_shadow_ this' !! Z.to_nat (16 * 0 + 2 * k + 1)
            = gpio_shadow_ Example.one_byte !! Z.to_nat (16 * 0 + 2 * k + 1).
Proof.
  apply (set_byte_writes_data_slot Example.one_byte 23 0 0xA5).
  - exact valid_gpio_23.
  - split; [discriminate | reflexivity].
  - discriminate.
  - reflexivity.
Defined.

(** C1 as the specification words it fails on the worked engine: after
    [SetBufferedByte(23, 0, 0xFF)] the clock-edge operation 1 does not set
    pin 23. *)
Lemma writes_both_slots_counterexample :
  SetBufferedByte Example.one_byte 23 0 0xFF = Some Example.all_ones
  /\ 0 < serial_byte_size_ Example.one_byte
  /\ ~ writes_both_slots Example.all_ones 23 0 0xFF.
Proof.
  split; [exact all_ones_encoded|]. split; [reflexivity|].
  intros Hboth.
  destruct (Hboth 0 1) as (d' & Hd' & Hset & _); [lia | right; reflexivity |].
  vm_compute in Hd'. injection Hd' as <-. vm_compute in Hset. discriminate.
Qed.

Lemma set_byte_non_interference_witness :
  exists s1 s2,
    SetBufferedByte Example.one_byte 23 0 0xA5 = Some s1
    /\ SetBufferedByte s1 24 0 0x3C = Some s2
    /\ (forall j, pin_levels 23 <$> gpio_shadow_ s2 !! j
                  = pin_levels 23 <$> gpio_shadow_ s1 !! j)
    /\ (forall q j, valid_gpio q -> q <> 23 ->
          pin_levels q <$> gpio_shadow_ s1 !! j
          = pin_levels q <$> gpio_shadow_ Example.one_byte !! j)
    /\ (forall q j, valid_gpio q -> q <> 24 ->
          pin_levels q <$> gpio_shadow_ s2 !! j
          = pin_levels q <$> gpio_shadow_ s1 !! j).
Proof.
  apply (set_byte_non_interference Example.one_byte 23 24 0 0xA5 0x3C).
  - exact valid_gpio_23.
  - unfold valid_gpio. lia.
  - discriminate.
  - split; [discriminate | reflexivity].
  - discriminate.
  - reflexivity.
Defined.

(** C6: a byte index within the capacity is not always inside the
    buffer.  The engine that registered the capacity [2^28 + 1] holds 17
    operations, the [int] slot count of that capacity; byte index 1 is
    below the capacity and passes the assertion, and the second pass of
    the loop then accesses operation 18, outside the buffer.  Byte index
    0 is served. *)
Lemma set_byte_leaves_wrapped_buffer :
  reachable [2 ^ 28 + 1] Example.wrapped
  /\ serial_byte_size_ Example.wrapped = 2 ^ 28 + 1
  /\ length (gpio_shadow_ Example.wrapped) = 17%nat
  /\ first_slot 1 = 16%nat
  /\ SetBufferedByte Example.wrapped 23 1 0xA5 = None
  /\ is_Some (SetBufferedByte Example.wrapped 23 0 0xA5).
Proof.
  split; [exact reachable_wrapped|].
  repeat split; try reflexivity. eexists. reflexivity.
Qed.

(** ** Registration: [RegisterDataGPIO] *)

Section RegistrationClaims.
Context `{FtGPIO} `{RpiDMA}.

(** A growing call on an engine that was not finished, with a valid
    clock pin and slot counts that fit [int]: the call returns, and the
    buffer it leaves. *)
Lemma RegisterDataGPIO_grows junk this gpio requested_bytes :
  gpio_dma_ this = None ->
  valid_gpio (clock_gpio_ this) ->
  0 <= serial_byte_size_ this < requested_bytes ->
  requested_bytes * 16 + 1 <= INT_MAX ->
  let b := serial_byte_size_ this in
  let sh' := clock_passes (clock_gpio_ this) (b * 16) (requested_bytes * 16 + 1)
               (bzero (realloc junk (gpio_shadow_ this)
                         (Z.to_nat (requested_bytes * 16 + 1)))
                  (Z.to_nat (b * 16))
                  (Z.to_nat (requested_bytes * 16 + 1 - b * 16))) in
  RegisterDataGPIO junk this gpio requested_bytes
  = Some (with_gpio
            (with_timeline this requested_bytes sh'
               ((requested_bytes * 16 + 1) * sizeof_GPIOData))
            (gpio_AddOutput (gpio_ this) gpio).1,
          (gpio_AddOutput (gpio_ this) gpio).2).
Proof.
  intros Hdma Hclock Hb Hmax. cbn zeta. unfold RegisterDataGPIO. rewrite Hdma.
  replace (serial_byte_size_ this <? requested_bytes) with true
    by (symmetry; apply Z.ltb_lt; lia).
  assert (Eold : bytes_to_gpio_ops (serial_byte_size_ this) - 1
                 = serial_byte_size_ this * 16).
  { rewrite bytes_to_gpio_ops_small by lia. lia. }
  assert (Enew : bytes_to_gpio_ops requested_bytes = requested_bytes * 16 + 1).
  { rewrite bytes_to_gpio_ops_small by lia. lia. }
  rewrite grow_eq by (assumption || lia). rewrite Eold, Enew. cbn.
  destruct (gpio_AddOutput (gpio_ this) gpio) as [g ok]. reflexivity.
Qed.

(** X18: growth where the new slot count fits [int].  On an engine that
    was not finished, with a valid clock pin, of capacity [b > 0] and
    with a buffer of [16 b + 1] operations, whatever was encoded in it, a
    call with a larger capacity [b'] whose slot count [16 b' + 1] fits
    [int] returns, leaves every operation below [16 b] as it was, and
    every operation from [16 b] to [16 b'] is the pure clock operation
    of its index: no data pin is in its masks. *)
Theorem growth_preserves_prefix (junk : nat -> GPIOData) (this : DMAMultiSPI)
    (gpio b' : Z) :
  let b := serial_byte_size_ this in
  gpio_dma_ this = None ->
  valid_gpio (clock_gpio_ this) ->
  0 < b -> b < b' -> b' * 16 + 1 <= INT_MAX ->
  Z.of_nat (length (gpio_shadow_ this)) = b * 16 + 1 ->
  exists this' ok,
    RegisterDataGPIO junk this gpio b' = Some (this', ok)
    /\ serial_byte_size_ this' = b'
    /\ (forall i, 0 <= i < 16 * b ->
          gpio_shadow_ this' !! Z.to_nat i = gpio_shadow_ this !! Z.to_nat i)
    /\ (forall i, 16 * b <= i <= 16 * b' ->
          gpio_shadow_ this' !! Z.to_nat i
          = Some (clock_slot (clock_gpio_ this) i)).
Proof.
  cbn zeta. intros Hdma Hclock Hb Hlt Hmax Hlen.
  rewrite RegisterDataGPIO_grows by (assumption || lia).
  eexists _, _. split; [reflexivity|].
  unfold with_gpio, with_timeline; cbn [serial_byte_size_ gpio_shadow_].
  destruct (grown_shadow_spec junk (clock_gpio_ this) (gpio_shadow_ this)
              (serial_byte_size_ this * 16) (b' * 16 + 1))
    as (Hl & Ho & Hn); [lia|].
  split; [reflexivity|]. split.
  - intros i Hi.
    destruct (lookup_lt_is_Some_2 (gpio_shadow_ this) (Z.to_nat i))
      as [d Hd]; [lia|].
    rewrite Hd. apply Ho; [lia | assumption].
  - intros i Hi. apply Hn. lia.
Qed.

(** X19: registration is not atomic.  On an engine that was not
    finished, with a valid clock pin, when a call asks for more than the
    current capacity, with a slot count [16 b' + 1] that fits [int], and
    the pin reservation fails, the call returns failure and the engine
    it leaves holds the grown buffer: the new capacity, the new buffer
    size, the old operations below the previous end and the pure clock
    operations from there on. *)
Theorem failed_registration_keeps_growth (junk : nat -> GPIOData)
    (this : DMAMultiSPI) (gpio b' : Z) :
  let b := serial_byte_size_ this in
  gpio_dma_ this = None ->
  valid_gpio (clock_gpio_ this) ->
  0 <= b < b' -> b' * 16 + 1 <= INT_MAX ->
  (gpio_AddOutput (gpio_ this) gpio).2 = false ->
  exists this',
    RegisterDataGPIO junk this gpio b' = Some (this', false)
    /\ serial_byte_size_ this' = b'
    /\ gpio_buffer_size_ this' = (b' * 16 + 1) * sizeof_GPIOData
    /\ Z.of_nat (length (gpio_shadow_ this')) = b' * 16 + 1
    /\ (forall i d, 0 <= i < 16 * b ->
          gpio_shadow_ this !! Z.to_nat i = Some d ->
          gpio_shadow_ this' !! Z.to_nat i = Some d)
    /\ (forall i, 16 * b <= i <= 16 * b' ->
          gpio_shadow_ this' !! Z.to_nat i
          = Some (clock_slot (clock_gpio_ this) i)).
Proof.
  cbn zeta. intros Hdma Hclock Hb Hmax Hfail.
  rewrite RegisterDataGPIO_grows by (assumption || lia). rewrite Hfail.
  eexists. split; [reflexivity|].
  unfold with_gpio, with_timeline;
    cbn [serial_byte_size_ gpio_shadow_ gpio_buffer_size_].
  destruct (grown_shadow_spec junk (clock_gpio_ this) (gpio_shadow_ this)
              (serial_byte_size_ this * 16) (b' * 16 + 1))
    as (Hl & Ho & Hn); [lia|].
  split; [reflexivity|]. split; [reflexivity|]. split; [lia|]. split.
  - intros i d Hi Hd. apply Ho; [lia | assumption].
  - intros i Hi. apply Hn. lia.
Qed.

End RegistrationClaims.

Lemma growth_preserves_prefix_witness :
  exists this' ok,
    RegisterDataGPIO Example.junk Example.all_ones 24 4 = Some (this', ok)
    /\ serial_byte_size_ this' = 4
    /\ (forall i, 0 <= i < 16 * 1 ->
          gpio_shadow_ this' !! Z.to_nat i
          = gpio_shadow_ Example.all_ones !! Z.to_nat i)
    /\ (forall i, 16 * 1 <= i <= 16 * 4 ->
          gpio_shadow_ this' !! Z.to_nat i = Some (clock_slot 18 i)).
Proof.
  apply (growth_preserves_prefix Example.junk Example.all_ones 24 4).
  - reflexivity.
  - exact valid_gpio_18.
  - reflexivity.
  - reflexivity.
  - unfold INT_MAX. lia.
  - reflexivity.
Defined.

Lemma failed_registration_keeps_growth_witness :
  exists this',
    RegisterDataGPIO Example.junk Example.one_byte 99 4 = Some (this', false)
    /\ serial_byte_size_ this' = 4
    /\ gpio_buffer_size_ this' = (4 * 16 + 1) * sizeof_GPIOData
    /\ Z.of_nat (length (gpio_shadow_ this')) = 4 * 16 + 1
    /\ (forall i d, 0 <= i < 16 * 1 ->
          gpio_shadow_ Example.one_byte !! Z.to_nat i = Some d ->
          gpio_shadow_ this' !! Z.to_nat i = Some d)
    /\ (forall i, 16 * 1 <= i <= 16 * 4 ->
          gpio_shadow_ this' !! Z.to_nat i = Some (clock_slot 18 i)).
Proof.
  apply (failed_registration_keeps_growth Example.junk Example.one_byte 99 4).
  - reflexivity.
  - exact valid_gpio_18.
  - split; [discriminate | reflexivity].
  - unfold INT_MAX. lia.
  - reflexivity.
Defined.

Lemma reachable_two_bytes : reachable [2] Replay.two_bytes.
Proof.
  refine (reach_register [] Example.fresh Example.junk 23 2 Replay.two_bytes
            true reachable_fresh _ _); [lia | reflexivity].
Qed.

(** C2: growth to a capacity whose slot count does not fit [int].  On
    the worked engine of capacity 1, with a byte encoded,
    [RegisterDataGPIO(24, 2^28 + 1)] returns and records the capacity, but
    [bytes_to_gpio_ops] gives 17 for it: the buffer keeps its 17
    operations and none is added.  From capacity 2, where the buffer
    holds 33 operations, the same call hands [bzero] a negative length
    and is undefined. *)
Lemma growth_wraps_slot_count :
  (reachable [1] Example.all_ones
   /\ RegisterDataGPIO Example.junk Example.all_ones 24 (2 ^ 28 + 1)
      = Some (Replay.overgrown, true)
   /\ serial_byte_size_ Replay.overgrown = 2 ^ 28 + 1
   /\ bytes_to_gpio_ops (2 ^ 28 + 1) = 17
   /\ length (gpio_shadow_ Replay.overgrown) = 17%nat
   /\ gpio_shadow_ Replay.overgrown !! 17%nat = None)
  /\ (reachable [2] Replay.two_bytes
      /\ length (gpio_shadow_ Replay.two_bytes) = 33%nat
      /\ RegisterDataGPIO Example.junk Replay.two_bytes 24 (2 ^ 28 + 1) = None).
Proof.
  split.
  - split; [|repeat split; reflexivity].
    refine (reach_set_byte [1] Example.one_byte 23 0 0xFF Example.all_ones
              reachable_one_byte valid_gpio_23 _ _ all_ones_encoded);
      [discriminate | lia].
  - split; [exact reachable_two_bytes|]. split; reflexivity.
Qed.

(** C10: a failing registration that asks for a capacity whose slot
    count does not fit [int].  From capacity 2 the call for pin 99, which
    the reservation refuses, and capacity [2^28 + 1] is undefined in the
    growth, before the reservation is attempted: it does not return
    failure.  From capacity 1 it returns failure and leaves the new
    capacity with a buffer of 17 operations, not an enlarged one. *)
Lemma failed_growth_wraps_slot_count :
  (reachable [2] Replay.two_bytes
   /\ (gpio_AddOutput (gpio_ Replay.two_bytes) 99).2 = false
   /\ serial_byte_size_ Replay.two_bytes < 2 ^ 28 + 1
   /\ RegisterDataGPIO Example.junk Replay.two_bytes 99 (2 ^ 28 + 1) = None)
  /\ (reachable [1] Example.one_byte
      /\ RegisterDataGPIO Example.junk Example.one_byte 99 (2 ^ 28 + 1)
         = Some (Replay.unreserved, false)
      /\ serial_byte_size_ Replay.unreserved = 2 ^ 28 + 1
      /\ length (gpio_shadow_ Replay.unreserved) = 17%nat
      /\ length (gpio_shadow_ Example.one_byte) = 17%nat).
Proof.
  split.
  - split; [exact reachable_two_bytes|]. repeat split; reflexivity.
  - split; [exact reachable_one_byte|]. repeat split; reflexivity.
Qed.

(** ** The buffer of a reachable engine *)

Section TimelineClaims.
Context `{FtGPIO} `{RpiDMA}.

(** C3 (as the code has it): once a capacity [b > 0] was registered
    whose slot count [b * 16 + 1] fits [int], the buffer holds exactly
    [b * 16 + 1] operations, [b] being the largest capacity passed to
    [RegisterDataGPIO] so far, and that count is what
    [bytes_to_gpio_ops] computes, [bytes * 8 * 2 + 1]. *)
Theorem slot_count_of_capacity (caps : list Z) (this : DMAMultiSPI) :
  reachable caps this ->
  0 < max_capacity caps ->
  max_capacity caps * 16 + 1 <= INT_MAX ->
  serial_byte_size_ this = max_capacity caps
  /\ slot_count_formula caps this
  /\ bytes_to_gpio_ops (max_capacity caps) = max_capacity caps * 8 * 2 + 1.
Proof.
  intros Hreach Hpos Hmax.
  destruct (reachable_inv caps this Hreach) as [Hcap _ Hshape _].
  assert (Eops : bytes_to_gpio_ops (max_capacity caps)
                 = max_capacity caps * 8 * 2 + 1)
    by (apply bytes_to_gpio_ops_small; lia).
  split; [assumption|]. split; [|assumption].
  unfold slot_count_formula.
  destruct Hshape as [[_ Hz]|[_ Hlen]]; [lia|].
  rewrite Hlen, Hcap, Eops. lia.
Qed.

(** C5: in an engine reached by calls of [RegisterDataGPIO] and of
    [SetBufferedByte] on data pins other than the clock pin, no
    operation has a pin in both its set-mask and its clear-mask. *)
Theorem masks_stay_disjoint (caps : list Z) (this : DMAMultiSPI) :
  reachable caps this ->
  forall i d pin, gpio_shadow_ this !! i = Some d ->
    ~ (pin_set d pin = true /\ pin_clr d pin = true).
Proof.
  intros Hreach i d pin Hd.
  destruct (reachable_inv caps this Hreach) as [_ _ _ Hslots].
  destruct (Hslots i d Hd) as [_ Hdis]. apply Hdis.
Qed.

(** On a reachable engine, a returning [RegisterDataGPIO] gives the
    clock pin, in every operation that existed, the levels it had. *)
Lemma register_keeps_clock_levels caps this junk gpio requested_bytes
    this' ok j d :
  reachable caps this ->
  RegisterDataGPIO junk this gpio requested_bytes = Some (this', ok) ->
  gpio_shadow_ this !! j = Some d ->
  exists d', gpio_shadow_ this' !! j = Some d'
    /\ pin_levels (clock_gpio_ this) d' = pin_levels (clock_gpio_ this) d.
Proof.
  intros Hreach Hr Hd.
  destruct (reachable_inv caps this Hreach) as [_ Hclock Hshape Hslots].
  destruct (RegisterDataGPIO_Some _ _ _ _ _ _ Hr)
    as (_ & this1 & H1 & -> & _).
  unfold with_gpio; cbn [gpio_shadow_].
  destruct (serial_byte_size_ this <? requested_bytes);
    [|injection H1 as <-; eauto].
  destruct (grow_Some _ _ _ _ H1) as [Hb _].
  rewrite grow_eq in H1 by assumption. injection H1 as <-.
  unfold with_timeline; cbn [gpio_shadow_].
  set (prev := bytes_to_gpio_ops (serial_byte_size_ this) - 1) in *.
  set (ops := bytes_to_gpio_ops requested_bytes) in *.
  destruct (grown_shadow_spec junk (clock_gpio_ this) (gpio_shadow_ this)
              prev ops Hb) as (Hl & Ho & Hn).
  destruct (decide (j < Z.to_nat prev)%nat) as [Hj|Hj].
  - exists d. split; [|reflexivity]. apply Ho; assumption.
  - pose proof (lookup_lt_Some _ _ _ Hd) as Hjl.
    destruct Hshape as [[Hnil _]|[Hpos Hlen]].
    { rewrite Hnil in Hjl. cbn in Hjl. lia. }
    assert (Ej : j = Z.to_nat prev) by (subst prev; lia).
    assert (Hodd : Z.odd ops = true) by apply bytes_to_gpio_ops_odd.
    assert (Hev : Z.even prev = true).
    { subst prev. rewrite Z.even_sub, <- Z.negb_odd, bytes_to_gpio_ops_odd.
      reflexivity. }
    assert (Hops : prev < ops).
    { destruct (Z.eq_dec prev ops) as [E|E]; [|lia].
      rewrite E, <- Z.negb_odd, Hodd in Hev. discriminate. }
    exists (clock_slot (clock_gpio_ this) prev). split.
    + rewrite Ej. apply Hn. lia.
    + destruct (Hslots j d Hd) as [Hpat Hdis].
      unfold clock_pattern_at in Hpat.
      replace (Z.of_nat j) with prev in Hpat by lia. rewrite Hev in Hpat.
      specialize (Hdis (clock_gpio_ this)).
      unfold pin_levels, clock_slot. rewrite Hev.
      unfold pin_set, pin_clr in *. cbn [set clr].
      rewrite Z.bits_0, Hpat. pose proof Hclock as [Hc0 Hc1].
      rewrite mask_testbit, Z.eqb_refl by (assumption || lia).
      destruct (Z.testbit (set d) (clock_gpio_ this)); [|reflexivity].
      exfalso. apply Hdis. split; [reflexivity | exact Hpat].
Qed.

(** C4: in a reachable engine every operation at an even index has the
    clock pin in its clear-mask and every operation at an odd index has
    it in its set-mask.  A [SetBufferedByte] on a data pin other than the
    clock pin changes the clock pin's levels in no operation; a
    [RegisterDataGPIO] changes them in no operation that existed: the
    pattern comes from the growth that created the operation. *)
Theorem clock_pattern_invariant (caps : list Z) (this : DMAMultiSPI) :
  reachable caps this ->
  (forall i d, gpio_shadow_ this !! i = Some d ->
     clock_pattern_at (clock_gpio_ this) (Z.of_nat i) d)
  /\ (forall pin pos value this' j,
        valid_gpio pin -> pin <> clock_gpio_ this ->
        SetBufferedByte this pin pos value = Some this' ->
        pin_levels (clock_gpio_ this) <$> gpio_shadow_ this' !! j
        = pin_levels (clock_gpio_ this) <$> gpio_shadow_ this !! j)
  /\ (forall junk gpio requested_bytes this' ok j d,
        RegisterDataGPIO junk this gpio requested_bytes = Some (this', ok) ->
        gpio_shadow_ this !! j = Some d ->
        exists d', gpio_shadow_ this' !! j = Some d'
          /\ pin_levels (clock_gpio_ this) d'
             = pin_levels (clock_gpio_ this) d).
Proof.
  intros Hreach.
  destruct (reachable_inv caps this Hreach) as [_ Hclock _ Hslots].
  split; [|split].
  - intros i d Hd. apply (Hslots i d Hd).
  - intros pin pos value this' j Hpin Hne Hs.
    apply (SetBufferedByte_frame this pin pos value this'
             (clock_gpio_ this) j); auto.
  - intros junk gpio requested_bytes this' ok j d Hr Hd.
    eapply register_keeps_clock_levels; eassumption.
Qed.

End TimelineClaims.

Lemma reachable_all_ones : reachable [1] Example.all_ones.
Proof.
  refine (reach_set_byte [1] Example.one_byte 23 0 0xFF Example.all_ones
            reachable_one_byte valid_gpio_23 _ _ all_ones_encoded).
  - discriminate.
  - lia.
Qed.

Lemma slot_count_of_capacity_witness :
  serial_byte_size_ Example.all_ones = max_capacity [1]
  /\ slot_count_formula [1] Example.all_ones
  /\ bytes_to_gpio_ops (max_capacity [1]) = max_capacity [1] * 8 * 2 + 1.
Proof.
  apply (slot_count_of_capacity [1] Example.all_ones reachable_all_ones).
  - reflexivity.
  - discriminate.
Defined.

(** C3 as the specification words it fails twice: a channel registered
    with capacity 0 leaves the buffer null, not one operation long; and
    for the capacity [2^28 + 1] the slot count wraps in [int] to 17. *)
Lemma slot_count_formula_counterexample :
  (reachable [0] Example.no_byte
   /\ length (gpio_shadow_ Example.no_byte) = 0%nat
   /\ ~ slot_count_formula [0] Example.no_byte)
  /\ (reachable [2 ^ 28 + 1] Example.wrapped
      /\ length (gpio_shadow_ Example.wrapped) = 17%nat
      /\ ~ slot_count_formula [2 ^ 28 + 1] Example.wrapped).
Proof.
  split; (split; [|split]).
  - exact reachable_no_byte.
  - reflexivity.
  - unfold slot_count_formula. discriminate.
  - exact reachable_wrapped.
  - reflexivity.
  - unfold slot_count_formula. discriminate.
Qed.

Lemma masks_stay_disjoint_witness :
  reachable [1] Example.all_ones
  /\ forall i d pin, gpio_shadow_ Example.all_ones !! i = Some d ->
       ~ (pin_set d pin = true /\ pin_clr d pin = true).
Proof.
  split; [exact reachable_all_ones|].
  exact (masks_stay_disjoint [1] Example.all_ones reachable_all_ones).
Defined.

Lemma clock_pattern_invariant_witness :
  reachable [1] Example.all_ones
  /\ forall i d, gpio_shadow_ Example.all_ones !! i = Some d ->
       clock_pattern_at 18 (Z.of_nat i) d.
Proof.
  split; [exact reachable_all_ones|].
  exact (proj1 (clock_pattern_invariant [1] Example.all_ones
                  reachable_all_ones)).
Defined.

(** ** The control-block chain: [FinishRegistration] *)

Section DescriptorClaims.
Context `{FtGPIO} `{RpiDMA}.

Lemma kMaxOpsPerBlock_eq : kMaxOpsPerBlock = 4096.
Proof. reflexivity. Qed.

Lemma int_add_Some a b c : int_add a b = Some c -> c = a + b /\ c <= INT_MAX.
Proof.
  unfold int_add. destruct (_ && _) eqn:E; [|discriminate].
  intros [= <-]. apply andb_true_iff in E as [_ E]. apply Z.leb_le in E.
  auto.
Qed.

(** The loop of [FinishRegistration] after its first [m] passes. *)
Lemma finish_fold_spec blk st0 m :
  previous st0 = None -> cb st0 = None ->
  let st := foldl (finish_step blk) st0 (seqZ 0 (Z.of_nat m)) in
  length (blocks st) = length (blocks st0)
  /\ cb st = match m with O => None | S m' => Some m' end
  /\ previous st = cb st
  /\ (forall i c, (S i < m)%nat -> blocks st !! i = Some c ->
        next c = uint32_t (UncachedMemBlock_to_physical blk
                             (cb_address blk (Z.of_nat (S i)))))
  /\ (forall i c, (i < m)%nat -> blocks st !! i = Some c ->
        stride c = stride_word
        /\ dst c = uint32_t (PHYSICAL_GPIO_BUS + GPIO_SET_OFFSET)).
Proof.
  intros Hp Hc. induction m as [|m IH]; cbn zeta.
  - rewrite seqZ_nil by lia. cbn [foldl].
    split; [reflexivity|]. split; [assumption|]. split; [congruence|].
    split; intros; lia.
  - replace (Z.of_nat (S m)) with (Z.of_nat m + 1) by lia.
    rewrite seqZ_app by lia. rewrite foldl_app.
    rewrite (seqZ_cons _ 1), (seqZ_nil _ (Z.pred 1)) by lia. cbn [foldl].
    cbn zeta in IH. destruct IH as (IHl & IHc & IHp & IHn & IHs).
    set (st := foldl (finish_step blk) st0 (seqZ 0 (Z.of_nat m))) in *.
    replace (0 + Z.of_nat m) with (Z.of_nat m) by lia.
    unfold finish_step. rewrite !Nat2Z.id.
    cbn [blocks cb previous].
    split; [|split; [reflexivity|split; [reflexivity|split]]].
    + rewrite length_alter. destruct (previous st);
        rewrite ?length_alter; assumption.
    + intros i c Hi Hl.
      rewrite list_lookup_alter_ne in Hl by lia.
      rewrite IHp, IHc in Hl. destruct m as [|m']; [lia|].
      rewrite list_lookup_alter in Hl. case_decide as Hd.
      * subst i. destruct (blocks st !! m') as [c0|]; [|discriminate].
        injection Hl as <-. reflexivity.
      * apply IHn; [lia | assumption].
    + intros i c Hi Hl.
      rewrite list_lookup_alter in Hl. case_decide as Hd.
      * subst i. destruct (_ !! m) as [c0|]; [|discriminate].
        injection Hl as <-. split; reflexivity.
      * rewrite IHp, IHc in Hl. destruct m as [|m']; [lia|].
        rewrite list_lookup_alter in Hl. case_decide as Hd'.
        -- subst i. destruct (blocks st !! m') as [c0|] eqn:E0;
             [|discriminate].
           injection Hl as <-. cbn [with_next stride dst].
           apply IHs with m'; [lia | assumption].
        -- apply IHs with i; [lia | assumption].
Qed.

(** What a returning [FinishRegistration] built. *)
Lemma FinishRegistration_Some junk_cb junk_gpio this this' :
  FinishRegistration junk_cb junk_gpio this = Some this' ->
  let N := bytes_to_gpio_ops (serial_byte_size_ this) in
  let n := Z.to_nat (Z.quot (N + kMaxOpsPerBlock - 1) kMaxOpsPerBlock) in
  exists blk st,
    N + kMaxOpsPerBlock - 1 <= INT_MAX
    /\ (0 < n)%nat
    /\ alloced_ this' = Some blk
    /\ st = foldl (finish_step blk)
              (mk_finish_loop None None
                 (UncachedMemBlock_mem blk + Z.of_nat n * sizeof_dma_cb) N
                 (junk_cb <$> seq 0 n))
              (seqZ 0 (Z.of_nat n))
    /\ mem_cb this' = alter (with_next 0) (n - 1)%nat (blocks st).
Proof.
  unfold FinishRegistration. destruct (alloced_ this); [discriminate|].
  destruct (int_add _ kMaxOpsPerBlock) as [sum|] eqn:E1; [|discriminate].
  cbn [mbind option_bind].
  destruct (int_add sum (-1)) as [sum1|] eqn:E2; [|discriminate].
  cbn [mbind option_bind].
  apply int_add_Some in E1 as [-> _]. apply int_add_Some in E2 as [-> Hmax].
  destruct (negb _); [discriminate|].
  destruct (UncachedMemBlock_alloc _) as [blk|]; [|discriminate].
  cbn [mbind option_bind]. cbn zeta.
  set (N := bytes_to_gpio_ops (serial_byte_size_ this)) in *.
  replace (N + kMaxOpsPerBlock + -1) with (N + kMaxOpsPerBlock - 1) by lia.
  set (q := Z.quot (N + kMaxOpsPerBlock - 1) kMaxOpsPerBlock) in *.
  destruct (Z.le_gt_cases q 0) as [Hq|Hq].
  { rewrite (seqZ_nil 0 q) by assumption. cbn. discriminate. }
  pose proof (finish_fold_spec blk
    (mk_finish_loop None None
       (UncachedMemBlock_mem blk + q * sizeof_dma_cb) N
       (junk_cb <$> seq 0 (Z.to_nat q))) (Z.to_nat q) eq_refl eq_refl)
    as (_ & Hcb & _).
  cbn zeta in Hcb. rewrite Z2Nat.id in Hcb by lia. rewrite Hcb.
  destruct (Z.to_nat q) as [|n'] eqn:En; [lia|].
  cbn [mbind option_bind]. intros Heq. injection Heq as <-.
  eexists blk, _. cbn [alloced_ mem_cb].
  split; [lia|]. split; [lia|]. split; [reflexivity|].
  split; [reflexivity|].
  replace (Z.of_nat (S n')) with q by lia.
  replace (S n' - 1)%nat with n' by lia. reflexivity.
Qed.

End DescriptorClaims.

Section DescriptorTheorems.
Context `{FtGPIO} `{RpiDMA}.

Lemma int_add_fits a b :
  - 2 ^ 31 <= a + b <= INT_MAX -> int_add a b = Some (a + b).
Proof.
  intros Hr. unfold int_add.
  replace (- 2 ^ 31 <=? a + b) with true by (symmetry; apply Z.leb_le; lia).
  replace (a + b <=? INT_MAX) with true by (symmetry; apply Z.leb_le; lia).
  reflexivity.
Qed.

(** On an engine that was not finished, with a positive slot count, a
    block size that fits [int] and an allocator that hands out the block,
    [FinishRegistration] returns. *)
Lemma FinishRegistration_returns junk_cb junk_gpio this blk :
  let N := bytes_to_gpio_ops (serial_byte_size_ this) in
  let count := (N + kMaxOpsPerBlock - 1) / kMaxOpsPerBlock in
  alloced_ this = None ->
  0 < N ->
  0 <= sizeof_dma_cb ->
  count * sizeof_dma_cb + N * sizeof_GPIOData <= INT_MAX ->
  UncachedMemBlock_alloc (count * sizeof_dma_cb + N * sizeof_GPIOData)
    = Some blk ->
  exists this',
    FinishRegistration junk_cb junk_gpio this = Some this'
    /\ alloced_ this' = Some blk
    /\ Z.of_nat (length (mem_cb this')) = count.
Proof.
  cbn zeta. intros Hnone HN Hsz Hfit Halloc.
  set (N := bytes_to_gpio_ops (serial_byte_size_ this)) in *.
  rewrite kMaxOpsPerBlock_eq in *. unfold sizeof_GPIOData, INT_MAX in *.
  set (count := (N + 4096 - 1) / 4096) in *.
  assert (Hcount : 0 < count).
  { subst count. apply Z.div_str_pos. lia. }
  assert (Hquot : Z.quot (N + 4096 + -1) 4096 = count).
  { subst count. rewrite Z.quot_div_nonneg by lia. f_equal; lia. }
  unfold FinishRegistration. rewrite Hnone. fold N.
  rewrite kMaxOpsPerBlock_eq.
  rewrite (int_add_fits N 4096) by (unfold INT_MAX; nia).
  cbn [mbind option_bind].
  rewrite (int_add_fits (N + 4096) (-1)) by (unfold INT_MAX; nia).
  cbn [mbind option_bind]. rewrite Hquot. unfold sizeof_GPIOData.
  rewrite int_of_small by (unfold INT_MAX; nia).
  rewrite Z.eqb_refl. cbn [negb]. rewrite Halloc. cbn [mbind option_bind].
  pose proof (finish_fold_spec blk
    (mk_finish_loop None None
       (UncachedMemBlock_mem blk + count * sizeof_dma_cb) N
       (junk_cb <$> seq 0 (Z.to_nat count))) (Z.to_nat count) eq_refl eq_refl)
    as (Hlen & Hcb & _).
  cbn zeta in Hlen, Hcb. rewrite Z2Nat.id in Hlen, Hcb by lia.
  rewrite Hcb. destruct (Z.to_nat count) as [|n'] eqn:En; [lia|].
  cbn [mbind option_bind]. eexists. split; [reflexivity|].
  cbn [alloced_ mem_cb]. split; [reflexivity|].
  rewrite length_alter, Hlen. cbn [blocks].
  rewrite length_fmap, length_seq. lia.
Qed.

(** C7 (as the code has it): [FinishRegistration] takes the slot count
    from the capacity, not from the buffer.  On a reachable engine with
    largest registered capacity [b] it works with [N = 16 b + 1]: the
    length of the buffer when [b > 0], and 1 when [b = 0], where the
    buffer is still null.  When the byte size of the block fits [int]
    and the allocator hands out the block, it returns and has built
    [ceil (N / kMaxOpsPerBlock)] control blocks; every block but the last
    holds in [next] the physical address of the block after it, as a
    32-bit word, and the last block holds 0. *)
Theorem descriptor_chain (caps : list Z) (junk_cb : nat -> dma_cb)
    (junk_gpio : nat -> GPIOData) (this : DMAMultiSPI)
    (blk : UncachedMemBlock) :
  let N := max_capacity caps * 16 + 1 in
  let count := (N + kMaxOpsPerBlock - 1) / kMaxOpsPerBlock in
  reachable caps this ->
  0 <= sizeof_dma_cb ->
  count * sizeof_dma_cb + N * sizeof_GPIOData <= INT_MAX ->
  UncachedMemBlock_alloc (count * sizeof_dma_cb + N * sizeof_GPIOData)
    = Some blk ->
  exists this',
    FinishRegistration junk_cb junk_gpio this = Some this'
    /\ alloced_ this' = Some blk
    /\ (0 < max_capacity caps ->
        Z.of_nat (length (gpio_shadow_ this)) = N)
    /\ Z.of_nat (length (mem_cb this')) = count
    /\ (count - 1) * kMaxOpsPerBlock < N <= count * kMaxOpsPerBlock
    /\ (forall i, 0 <= i < count - 1 ->
          exists c, mem_cb this' !! Z.to_nat i = Some c
            /\ next c = uint32_t (UncachedMemBlock_to_physical blk
                                    (cb_address blk (i + 1))))
    /\ (exists c, mem_cb this' !! Z.to_nat (count - 1) = Some c
          /\ next c = 0).
Proof.
  cbn zeta. intros Hreach Hsz Hfit Halloc.
  destruct (reachable_inv caps this Hreach) as [Hcap _ Hshape _].
  destruct (reachable_unfinished caps this Hreach) as [_ Hnone].
  assert (Hnn : 0 <= max_capacity caps).
  { clear. induction caps as [|c caps IH]; cbn [max_capacity foldr]; [lia|].
    fold (max_capacity caps). lia. }
  assert (Hops : bytes_to_gpio_ops (serial_byte_size_ this)
                 = max_capacity caps * 16 + 1).
  { rewrite Hcap, bytes_to_gpio_ops_small; [lia | lia |].
    assert (0 <= (max_capacity caps * 16 + 1 + kMaxOpsPerBlock - 1)
                 / kMaxOpsPerBlock)
      by (rewrite kMaxOpsPerBlock_eq; apply Z.div_pos; lia).
    unfold sizeof_GPIOData in Hfit. nia. }
  destruct (FinishRegistration_returns junk_cb junk_gpio this blk)
    as (this' & Hf & Hblk & Hcount);
    rewrite ?Hops; try assumption; try lia.
  rewrite Hops in Hcount.
  exists this'. split; [assumption|]. split; [assumption|].
  destruct (FinishRegistration_Some _ _ _ _ Hf)
    as (blk' & st & Hmax & Hn & Hblk' & Hst & Hmem).
  assert (blk' = blk) as -> by congruence.
  cbn zeta in *. rewrite Hops in *.
  set (N := max_capacity caps * 16 + 1) in *.
  set (n := Z.to_nat (Z.quot (N + kMaxOpsPerBlock - 1) kMaxOpsPerBlock)) in *.
  set (count := (N + kMaxOpsPerBlock - 1) / kMaxOpsPerBlock) in *.
  destruct (finish_fold_spec blk
    (mk_finish_loop None None
       (UncachedMemBlock_mem blk + Z.of_nat n * sizeof_dma_cb) N
       (junk_cb <$> seq 0 n)) n eq_refl eq_refl)
    as (Hlen & _ & _ & Hnext & _).
  cbn zeta in *. rewrite <- Hst in *. cbn [blocks] in Hlen.
  rewrite length_fmap, length_seq in Hlen.
  assert (Hcn : Z.of_nat n = count).
  { rewrite <- Hcount, Hmem, length_alter, Hlen. reflexivity. }
  split.
  { intros Hpos. destruct Hshape as [[_ Hz]|[_ Hl]]; [lia|].
    rewrite Hl, Hops. subst N. lia. }
  split; [assumption|]. split.
  { subst count N. rewrite kMaxOpsPerBlock_eq. Z.div_mod_to_equations. lia. }
  split.
  - intros i Hi.
    destruct (lookup_lt_is_Some_2 (blocks st) (Z.to_nat i)) as [c Hc]; [lia|].
    exists c. split.
    + rewrite Hmem, list_lookup_alter_ne by lia. assumption.
    + rewrite (Hnext (Z.to_nat i) c) by (lia || assumption).
      do 3 f_equal. lia.
  - destruct (lookup_lt_is_Some_2 (blocks st) (n - 1)) as [c Hc]; [lia|].
    exists (with_next 0 c). split; [|reflexivity].
    replace (Z.to_nat (count - 1)) with (n - 1)%nat by lia.
    rewrite Hmem, list_lookup_alter, decide_True, Hc by reflexivity.
    reflexivity.
Qed.

(** C8 (as the code has it): every control block a returning
    [FinishRegistration] built has the set register as destination and
    carries, as destination stride, minus the size of one operation:
    16 bytes, the row that starts at the set register and ends with the
    [clr] field on the clear register, 12 bytes further. *)
Theorem descriptor_stride (junk_cb : nat -> dma_cb) (junk_gpio : nat -> GPIOData)
    (this this' : DMAMultiSPI) :
  FinishRegistration junk_cb junk_gpio this = Some this' ->
  forall i c, mem_cb this' !! i = Some c ->
    stride c = stride_word
    /\ dst c = uint32_t (PHYSICAL_GPIO_BUS + GPIO_SET_OFFSET)
    /\ sizeof_GPIOData = 16
    /\ offsetof_clr - offsetof_set = GPIO_CLR_OFFSET - GPIO_SET_OFFSET.
Proof.
  intros Hf i c Hc.
  destruct (FinishRegistration_Some _ _ _ _ Hf)
    as (blk & st & Hmax & Hn & Hblk & Hst & Hmem).
  cbn zeta in *.
  set (N := bytes_to_gpio_ops (serial_byte_size_ this)) in *.
  set (n := Z.to_nat (Z.quot (N + kMaxOpsPerBlock - 1) kMaxOpsPerBlock)) in *.
  destruct (finish_fold_spec blk
    (mk_finish_loop None None
       (UncachedMemBlock_mem blk + Z.of_nat n * sizeof_dma_cb) N
       (junk_cb <$> seq 0 n)) n eq_refl eq_refl)
    as (Hlen & _ & _ & _ & Hs).
  cbn zeta in *. rewrite <- Hst in *. cbn [blocks] in Hlen.
  rewrite length_fmap, length_seq in Hlen.
  assert (Hi : (i < n)%nat).
  { apply lookup_lt_Some in Hc. rewrite Hmem, length_alter in Hc. lia. }
  assert (Hsd : stride c = stride_word
                /\ dst c = uint32_t (PHYSICAL_GPIO_BUS + GPIO_SET_OFFSET)).
  { rewrite Hmem, list_lookup_alter in Hc. case_decide as Hd.
    - destruct (blocks st !! (n - 1)%nat) as [c0|] eqn:E0; [|discriminate].
      injection Hc as <-. cbn [with_next stride dst].
      apply (Hs (n - 1)%nat c0); [lia | assumption].
    - apply (Hs i c); assumption. }
  destruct Hsd as [Hs1 Hs2]. repeat split; assumption || reflexivity.
Qed.

End DescriptorTheorems.

Lemma three_blocks_registered :
  exists ok,
    RegisterDataGPIO Example.junk Example.fresh 23 513
    = Some (Replay.three_blocks, ok).
Proof.
  unfold Replay.three_blocks.
  rewrite RegisterDataGPIO_grows;
    [eauto | reflexivity | exact valid_gpio_18
     | split; [discriminate | reflexivity] | discriminate].
Qed.

Lemma reachable_three_blocks : reachable [513] Replay.three_blocks.
Proof.
  destruct three_blocks_registered as [ok Hr].
  eapply reach_register; [exact reachable_fresh | lia | exact Hr].
Qed.

Lemma descriptor_chain_witness :
  reachable [513] Replay.three_blocks
  /\ exists this',
       FinishRegistration Example.junk_cb Example.junk Replay.three_blocks
       = Some this'
       /\ alloced_ this' = Some (0x10000, 0xC0000000)
       /\ (0 < max_capacity [513] ->
           Z.of_nat (length (gpio_shadow_ Replay.three_blocks)) = 8209)
       /\ Z.of_nat (length (mem_cb this')) = 3
       /\ (3 - 1) * kMaxOpsPerBlock < 8209 <= 3 * kMaxOpsPerBlock
       /\ (forall i, 0 <= i < 3 - 1 ->
             exists c, mem_cb this' !! Z.to_nat i = Some c
               /\ next c = uint32_t (UncachedMemBlock_to_physical
                                       (0x10000, 0xC0000000)
                                       (cb_address (0x10000, 0xC0000000)
                                          (i + 1))))
       /\ (exists c, mem_cb this' !! Z.to_nat (3 - 1) = Some c /\ next c = 0).
Proof.
  split; [exact reachable_three_blocks|].
  apply (descriptor_chain [513] Example.junk_cb Example.junk
           Replay.three_blocks (0x10000, 0xC0000000)).
  - exact reachable_three_blocks.
  - discriminate.
  - discriminate.
  - reflexivity.
Defined.

(** C7 as the specification words it fails on an engine without a
    buffer: a new engine, and one that registered capacity 0, hold no
    operation, and [FinishRegistration] builds one control block for
    each, not none. *)
Lemma descriptor_count_formula_counterexample :
  (reachable [] Example.fresh
   /\ length (gpio_shadow_ Example.fresh) = 0%nat
   /\ FinishRegistration Example.junk_cb Example.junk Example.fresh
      = Some Replay.finished_fresh
   /\ length (mem_cb Replay.finished_fresh) = 1%nat
   /\ ~ descriptor_count_formula Example.fresh Replay.finished_fresh)
  /\ (reachable [0] Example.no_byte
      /\ length (gpio_shadow_ Example.no_byte) = 0%nat
      /\ FinishRegistration Example.junk_cb Example.junk Example.no_byte
         = Some Replay.finished_no_byte
      /\ length (mem_cb Replay.finished_no_byte) = 1%nat
      /\ ~ descriptor_count_formula Example.no_byte Replay.finished_no_byte).
Proof.
  split; (split; [|split; [|split; [|split]]]).
  - exact reachable_fresh.
  - reflexivity.
  - reflexivity.
  - reflexivity.
  - unfold descriptor_count_formula. discriminate.
  - exact reachable_no_byte.
  - reflexivity.
  - reflexivity.
  - reflexivity.
  - unfold descriptor_count_formula. discriminate.
Qed.

Lemma descriptor_stride_witness :
  FinishRegistration Example.junk_cb Example.junk Example.one_byte
  = Some Example.finished
  /\ forall i c, mem_cb Example.finished !! i = Some c ->
       stride c = stride_word
       /\ dst c = uint32_t (PHYSICAL_GPIO_BUS + GPIO_SET_OFFSET)
       /\ sizeof_GPIOData = 16
       /\ offsetof_clr - offsetof_set = GPIO_CLR_OFFSET - GPIO_SET_OFFSET.
Proof.
  split; [reflexivity|].
  apply (descriptor_stride Example.junk_cb Example.junk Example.one_byte
           Example.finished).
  reflexivity.
Defined.

(** C8 as the specification words it fails on the worked engine: the
    control block built for one byte carries 0xFFF0 (minus 16) as
    destination stride, not 0xFFF4 (minus 12, the distance of the two
    registers). *)
Lemma stride_is_register_distance_counterexample :
  FinishRegistration Example.junk_cb Example.junk Example.one_byte
  = Some Example.finished
  /\ exists c, mem_cb Example.finished !! 0%nat = Some c
       /\ stride c = 0xFFF00000
       /\ ~ stride_is_register_distance c.
Proof.
  split; [reflexivity|]. eexists. split; [reflexivity|].
  split; [reflexivity|]. unfold stride_is_register_distance. discriminate.
Qed.

(** ** The transfer: [SendBuffers] *)

Section TransferClaims.
Context `{FtGPIO} `{RpiDMA}.
Variable cs_reads : nat -> Z.

Lemma teardown_trace_eq b :
  trace (teardown cs_reads b)
  = trace b ++ teardown_trace (cs_reads (loads b)) (cs_reads (S (loads b)))
                 (cs_reads (S (S (loads b)))).
Proof.
  unfold teardown, cs_or, cs_and_not, load_cs, emit, teardown_trace.
  cbn [loads trace]. rewrite <- !app_assoc. reflexivity.
Qed.

(** The loop is left on a load without the active bit, or on a load with
    the error bit. *)
Lemma poll_exit_condition fuel b how b1 :
  poll cs_reads fuel b = Some (how, b1) ->
  exit_condition how (cs_reads (pred (loads b1))).
Proof.
  revert b. induction fuel as [|fuel IH]; intros b; cbn [poll];
    unfold load_cs; cbn [loads trace];
    destruct (Z.land (cs_reads (loads b)) DMA_CS_ACTIVE =? 0) eqn:Ea;
    try (intros [= <- <-]; cbn; apply Z.eqb_eq; assumption);
    destruct (negb (Z.land (cs_reads (S (loads b))) DMA_CS_ERROR =? 0)) eqn:Ee;
    try (intros [= <- <-]; cbn; apply negb_true_iff, Z.eqb_neq in Ee;
         assumption);
    try discriminate.
  intros Hp. apply IH in Hp. assumption.
Qed.

(** C9: whenever the poll loop of [SendBuffers] is left, on completion
    or on the error bit alike, the call returns, and what it did to the
    channel after the loop is the same four statements: abort, a sleep
    of 100 microseconds, clear active, reset.  The call returns no value,
    and the engine it leaves is the same however the loop was left. *)
Theorem send_teardown (fuel : nat) (junk_cb : nat -> dma_cb)
    (junk_gpio : nat -> GPIOData) (this this1 : DMAMultiSPI)
    (m : list GPIOData) (blk : UncachedMemBlock) (b b1 : bus)
    (how : poll_exit) :
  match gpio_dma_ this with
  | None => FinishRegistration junk_cb junk_gpio this
  | Some _ => Some this
  end = Some this1 ->
  memcpy (mem_gpio this1) (gpio_shadow_ this1) (gpio_buffer_size_ this1)
    = Some m ->
  alloced_ this1 = Some blk ->
  poll cs_reads fuel (arm cs_reads blk this1 b) = Some (how, b1) ->
  exit_condition how (cs_reads (pred (loads b1)))
  /\ exists b',
       SendBuffers cs_reads fuel junk_cb junk_gpio this b
       = Some (with_mem_gpio this1 m, b')
       /\ trace b' = trace b1
            ++ teardown_trace (cs_reads (loads b1)) (cs_reads (S (loads b1)))
                 (cs_reads (S (S (loads b1)))).
Proof.
  intros Hfin Hcpy Hblk Hpoll. split.
  - eapply poll_exit_condition. eassumption.
  - exists (teardown cs_reads b1). split; [|apply teardown_trace_eq].
    unfold SendBuffers. rewrite Hfin. cbn [mbind option_bind].
    rewrite Hcpy. cbn [mbind option_bind].
    rewrite Hblk. cbn [mbind option_bind].
    rewrite Hpoll. reflexivity.
Qed.

End TransferClaims.

Lemma send_teardown_witness :
  (exit_condition completed
     (Example.completing (pred (loads Example.polled_completing)))
   /\ exists b',
        SendBuffers Example.completing 10 Example.junk_cb Example.junk
          Example.all_ones Example.idle
        = Some (with_mem_gpio Example.ready Example.copied, b')
        /\ trace b' = trace Example.polled_completing
             ++ teardown_trace
                  (Example.completing (loads Example.polled_completing))
                  (Example.completing (S (loads Example.polled_completing)))
                  (Example.completing (S (S (loads Example.polled_completing)))))
  /\ (exit_condition errored
        (Example.failing (pred (loads Example.polled_failing)))
      /\ exists b',
           SendBuffers Example.failing 10 Example.junk_cb Example.junk
             Example.all_ones Example.idle
           = Some (with_mem_gpio Example.ready Example.copied, b')
           /\ trace b' = trace Example.polled_failing
                ++ teardown_trace
                     (Example.failing (loads Example.polled_failing))
                     (Example.failing (S (loads Example.polled_failing)))
                     (Example.failing (S (S (loads Example.polled_failing))))).
Proof.
  split.
  - apply (send_teardown Example.completing 10 Example.junk_cb Example.junk
             Example.all_ones Example.ready Example.copied
             (0x10000, 0xC0000000) Example.idle Example.polled_completing
             completed); reflexivity.
  - apply (send_teardown Example.failing 10 Example.junk_cb Example.junk
             Example.all_ones Example.ready Example.copied
             (0x10000, 0xC0000000) Example.idle Example.polled_failing
             errored); reflexivity.
Defined.

(** * Further properties *)

(** ** The encoder on one operation, again *)

Section SetBitAlgebra.

Lemma mask_testbit_all g i :
  valid_gpio g -> 0 <= i -> Z.testbit (uint32_t (shl1 g)) i = (g =? i).
Proof.
  intros Hg Hi. destruct (Z.lt_ge_cases i 32) as [Hlt|Hge].
  - apply mask_testbit; [assumption | lia].
  - rewrite uint32_t_testbit by lia.
    replace (i <? 32) with false by (symmetry; apply Z.ltb_ge; lia).
    symmetry. apply Z.eqb_neq. unfold valid_gpio in Hg. lia.
Qed.

Lemma not_mask_testbit_all g i :
  valid_gpio g -> 0 <= i ->
  Z.testbit (uint32_t (Z.lnot (shl1 g))) i = (i <? 32) && negb (g =? i).
Proof.
  intros Hg Hi. destruct (Z.lt_ge_cases i 32) as [Hlt|Hge].
  - rewrite not_mask_testbit by (assumption || lia).
    replace (i <? 32) with true by (symmetry; apply Z.ltb_lt; lia).
    reflexivity.
  - rewrite uint32_t_testbit by lia.
    replace (i <? 32) with false by (symmetry; apply Z.ltb_ge; lia).
    reflexivity.
Qed.

(** Bits of the four read-modify-write forms of [set_bit], for any pin. *)
Lemma rmw_or_testbit a g i :
  0 <= i ->
  Z.testbit (uint32_t (Z.lor a (uint32_t (shl1 g)))) i
  = (i <? 32) && (Z.testbit a i || Z.testbit (shl1 g) i).
Proof.
  intros Hi. rewrite (uint32_t_testbit (Z.lor _ _)) by lia.
  rewrite Z.lor_spec, uint32_t_testbit by lia.
  destruct (i <? 32), (Z.testbit a i), (Z.testbit (shl1 g) i); reflexivity.
Qed.

Lemma rmw_and_not_testbit a g i :
  0 <= i ->
  Z.testbit (uint32_t (Z.land a (uint32_t (Z.lnot (shl1 g))))) i
  = (i <? 32) && (Z.testbit a i && negb (Z.testbit (shl1 g) i)).
Proof.
  intros Hi. rewrite (uint32_t_testbit (Z.land _ _)) by lia.
  rewrite Z.land_spec, uint32_t_testbit, Z.lnot_spec by lia.
  destruct (i <? 32), (Z.testbit a i), (Z.testbit (shl1 g) i); reflexivity.
Qed.

(** A second pass for the same pin replaces what the first one wrote. *)
Lemma set_bit_overwrite g data1 bit1 data2 bit2 d :
  set_bit g data2 bit2 (set_bit g data1 bit1 d) = set_bit g data2 bit2 d.
Proof.
  unfold set_bit.
  destruct (negb (Z.land data1 bit1 =? 0)), (negb (Z.land data2 bit2 =? 0));
    unfold with_set, with_clr; cbn [set clr ignored_upper_set_bits reserved_area];
    f_equal; apply Z.bits_inj'; intros i Hi;
    repeat first [rewrite rmw_or_testbit by lia
                 | rewrite rmw_and_not_testbit by lia];
    destruct (i <? 32), (Z.testbit (set d) i), (Z.testbit (clr d) i),
      (Z.testbit (shl1 g) i); reflexivity.
Qed.

Lemma shl1_testbit g i :
  valid_gpio g -> 0 <= i < 32 -> Z.testbit (shl1 g) i = (g =? i).
Proof.
  intros Hg Hi. unfold shl1. rewrite int_of_testbit by lia.
  rewrite Z.shiftl_1_l. apply Z.pow2_bits_eqb. unfold valid_gpio in Hg. lia.
Qed.

(** Passes for two distinct pins commute. *)
Lemma set_bit_commute g1 data1 bit1 g2 data2 bit2 d :
  valid_gpio g1 -> valid_gpio g2 -> g1 <> g2 ->
  set_bit g1 data1 bit1 (set_bit g2 data2 bit2 d)
  = set_bit g2 data2 bit2 (set_bit g1 data1 bit1 d).
Proof.
  intros H1 H2 Hne. unfold set_bit.
  destruct (negb (Z.land data1 bit1 =? 0)), (negb (Z.land data2 bit2 =? 0));
    unfold with_set, with_clr; cbn [set clr ignored_upper_set_bits reserved_area];
    f_equal; apply Z.bits_inj'; intros i Hi;
    repeat first [rewrite rmw_or_testbit by lia
                 | rewrite rmw_and_not_testbit by lia];
    (destruct (Z.lt_ge_cases i 32) as [Hlt|Hge];
     [ replace (i <? 32) with true by (symmetry; apply Z.ltb_lt; lia);
       rewrite !shl1_testbit by (assumption || lia);
       destruct (Z.eqb_spec g1 i), (Z.eqb_spec g2 i); try congruence;
       destruct (Z.testbit (set d) i), (Z.testbit (clr d) i); reflexivity
     | replace (i <? 32) with false by (symmetry; apply Z.ltb_ge; lia);
       reflexivity ]).
Qed.

End SetBitAlgebra.

(** ** Calls of the encoder, composed *)

Section EncoderAlgebra.
Context `{FtGPIO} `{RpiDMA}.

Lemma hit_or_miss (n p j : nat) :
  (exists k, (k <= n)%nat /\ j = (p + 2 * k)%nat)
  \/ (forall k, (k <= n)%nat -> j <> (p + 2 * k)%nat).
Proof.
  destruct (decide (p <= j <= p + 2 * n)%nat) as [Hin|Hout];
    [|right; intros k Hk; lia].
  destruct (Nat.Even_or_Odd (j - p)) as [[k Hk]|[k Hk]].
  - left. exists k. lia.
  - right. intros k' _. lia.
Qed.

Lemma encode_overwrite g data1 data2 n p sh :
  encode g data2 n p (encode g data1 n p sh) = encode g data2 n p sh.
Proof.
  apply list_eq. intros j.
  destruct (hit_or_miss n p j) as [(k & Hk & ->)|Hmiss].
  - rewrite !encode_lookup_hit by assumption.
    destruct (sh !! (p + 2 * k)%nat) as [d|]; [|reflexivity].
    cbn. f_equal. apply set_bit_overwrite.
  - rewrite !encode_lookup_miss by assumption. reflexivity.
Qed.

Lemma encode_commute g1 data1 p1 g2 data2 p2 n sh :
  (valid_gpio g1 /\ valid_gpio g2 /\ g1 <> g2)
  \/ (forall k1 k2, (k1 <= n)%nat -> (k2 <= n)%nat ->
        (p1 + 2 * k1)%nat <> (p2 + 2 * k2)%nat) ->
  encode g1 data1 n p1 (encode g2 data2 n p2 sh)
  = encode g2 data2 n p2 (encode g1 data1 n p1 sh).
Proof.
  intros Hdis. apply list_eq. intros j.
  destruct (hit_or_miss n p1 j) as [(k1 & Hk1 & E1)|Hm1];
    destruct (hit_or_miss n p2 j) as [(k2 & Hk2 & E2)|Hm2].
  - destruct Hdis as [(Hv1 & Hv2 & Hne)|Hdis].
    + rewrite E1 at 1. rewrite encode_lookup_hit by assumption.
      rewrite <- E1, E2. rewrite encode_lookup_hit by assumption.
      rewrite encode_lookup_hit by assumption.
      rewrite <- E2, E1. rewrite encode_lookup_hit by assumption.
      rewrite <- E1.
      destruct (sh !! j) as [d|]; [|reflexivity].
      cbn. f_equal. apply set_bit_commute; assumption.
    + exfalso. apply (Hdis k1 k2 Hk1 Hk2). congruence.
  - rewrite (encode_lookup_miss g2 data2 n p2 _ j) by assumption.
    rewrite E1, !encode_lookup_hit by assumption. rewrite <- E1.
    rewrite encode_lookup_miss by assumption. reflexivity.
  - rewrite (encode_lookup_miss g1 data1 n p1 _ j) by assumption.
    rewrite E2, !encode_lookup_hit by assumption. rewrite <- E2.
    rewrite encode_lookup_miss by assumption. reflexivity.
  - rewrite !encode_lookup_miss by assumption. reflexivity.
Qed.

(** X1: a second [SetBufferedByte] for the same pin and byte index
    replaces the first: it returns, and leaves the engine the second
    call alone would have left.  Nothing of the first value remains. *)
Theorem set_byte_overwrites (this s1 : DMAMultiSPI) (g pos data1 data2 : Z) :
  SetBufferedByte this g pos data1 = Some s1 ->
  exists s2,
    SetBufferedByte s1 g pos data2 = Some s2
    /\ SetBufferedByte this g pos data2 = Some s2.
Proof.
  intros Hs1.
  destruct (SetBufferedByte_Some _ _ _ _ _ Hs1) as (Hpos & Hv & Hlen & ->).
  exists (with_timeline this (serial_byte_size_ this)
            (encode g data2 7 (first_slot pos) (gpio_shadow_ this))
            (gpio_buffer_size_ this)).
  split; [|apply SetBufferedByte_intro; assumption].
  rewrite SetBufferedByte_intro;
    unfold with_timeline; cbn [serial_byte_size_ gpio_shadow_ gpio_buffer_size_
      gpio_ clock_gpio_ alloced_ gpio_dma_ start_block_ dma_channel_ mem_cb
      mem_gpio]; rewrite ?length_encode; try assumption.
  rewrite encode_overwrite. reflexivity.
Qed.

(** X2: two returning calls of [SetBufferedByte] for distinct pins, or
    for distinct byte indices below [2^60] (where [2 * 8 * pos] does not
    wrap in [size_t]), can be swapped: the other order returns as well
    and leaves the same engine. *)
Theorem set_byte_commutes (this a ab : DMAMultiSPI)
    (g1 pos1 data1 g2 pos2 data2 : Z) :
  g1 <> g2
  \/ (0 <= pos1 < 2 ^ 60 /\ 0 <= pos2 < 2 ^ 60 /\ pos1 <> pos2) ->
  SetBufferedByte this g1 pos1 data1 = Some a ->
  SetBufferedByte a g2 pos2 data2 = Some ab ->
  exists b,
    SetBufferedByte this g2 pos2 data2 = Some b
    /\ SetBufferedByte b g1 pos1 data1 = Some ab.
Proof.
  intros Hdis Ha Hab.
  destruct (SetBufferedByte_Some _ _ _ _ _ Ha) as (Hpos1 & Hv1 & Hlen1 & ->).
  destruct (SetBufferedByte_Some _ _ _ _ _ Hab) as (Hpos2 & Hv2 & Hlen2 & ->).
  revert Hpos2 Hlen2.
  unfold with_timeline; cbn [serial_byte_size_ gpio_shadow_ gpio_buffer_size_
    gpio_ clock_gpio_ alloced_ gpio_dma_ start_block_ dma_channel_ mem_cb
    mem_gpio].
  rewrite length_encode. intros Hpos2 Hlen2.
  exists (with_timeline this (serial_byte_size_ this)
            (encode g2 data2 7 (first_slot pos2) (gpio_shadow_ this))
            (gpio_buffer_size_ this)).
  split; [apply SetBufferedByte_intro; assumption|].
  rewrite SetBufferedByte_intro;
    unfold with_timeline; cbn [serial_byte_size_ gpio_shadow_ gpio_buffer_size_
      gpio_ clock_gpio_ alloced_ gpio_dma_ start_block_ dma_channel_ mem_cb
      mem_gpio]; rewrite ?length_encode; try assumption.
  do 2 f_equal. apply encode_commute.
  destruct Hdis as [Hne|(Hp1 & Hp2 & Hne)]; [left; auto|].
  right. intros k1 k2 Hk1 Hk2. rewrite !first_slot_small by assumption. lia.
Qed.

(** X3: a returning [SetBufferedByte] touches the eight data operations
    it visits and nothing else.  These are the operations
    [first + 2k], [k = 0..7], where [first] is [2 * 8 * pos] as a
    [size_t], that is [16 pos] modulo [2^64].  Every other operation of
    the buffer is the one it was, the buffer keeps its length, and in the
    operations it rewrites the two padding words stay what they were.
    Capacity, buffer size and clock pin are kept. *)
Theorem set_byte_touches_own_byte (this this' : DMAMultiSPI) (g pos data : Z) :
  0 <= pos ->
  SetBufferedByte this g pos data = Some this' ->
  length (gpio_shadow_ this') = length (gpio_shadow_ this)
  /\ serial_byte_size_ this' = serial_byte_size_ this
  /\ gpio_buffer_size_ this' = gpio_buffer_size_ this
  /\ clock_gpio_ this' = clock_gpio_ this
  /\ (forall j, ~ data_slot_of pos j ->
        gpio_shadow_ this' !! j = gpio_shadow_ this !! j)
  /\ (forall j d d', gpio_shadow_ this !! j = Some d ->
        gpio_shadow_ this' !! j = Some d' ->
        ignored_upper_set_bits d' = ignored_upper_set_bits d
        /\ reserved_area d' = reserved_area d).
Proof.
  intros Hpos0 Hs.
  destruct (SetBufferedByte_Some _ _ _ _ _ Hs) as (Hpos & _ & Hlen & ->).
  unfold with_timeline; cbn [serial_byte_size_ gpio_shadow_ gpio_buffer_size_
    clock_gpio_].
  split; [apply length_encode|]. do 3 (split; [reflexivity|]). split.
  - intros j Hj. apply encode_lookup_miss. intros k Hk ->. apply Hj.
    exists k. split; [lia | reflexivity].
  - intros j d d' Hd Hd'.
    destruct (encode_lookup_inv _ _ _ _ _ _ _ Hd') as (d0 & Hd0 & [->|[bit ->]]);
      rewrite Hd in Hd0; injection Hd0 as <-; [auto|].
    unfold set_bit. destruct (negb _); split; reflexivity.
Qed.

End EncoderAlgebra.

(** ** Reading the buffer back *)

Section ReadBack.
Context `{FtGPIO} `{RpiDMA}.

Lemma mod_pow2_succ a n :
  0 <= n -> a mod 2 ^ (n + 1) = Z.b2z (Z.testbit a n) * 2 ^ n + a mod 2 ^ n.
Proof.
  intros Hn. rewrite Z.testbit_spec' by assumption.
  rewrite Z.pow_add_r by lia. change (2 ^ 1) with 2.
  rewrite Z.rem_mul_r by (try apply Z.pow_nonzero; lia). lia.
Qed.

(** Shifting in the eight bits of [v], most significant first, gives
    [v] as a [uint8_t]. *)
Lemma shift_in_byte (bit : Z -> bool) v :
  (forall k, 0 <= k < 8 -> bit k = Z.testbit v (7 - k)) ->
  foldl (fun acc k => 2 * acc + Z.b2z (bit k)) 0 (seqZ 0 8) = uint8_t v.
Proof.
  intros Hbit. change (seqZ 0 8) with [0; 1; 2; 3; 4; 5; 6; 7].
  cbn [foldl]. rewrite !Hbit by lia.
  change (7 - 0) with 7. change (7 - 1) with 6. change (7 - 2) with 5.
  change (7 - 3) with 4. change (7 - 4) with 3. change (7 - 5) with 2.
  change (7 - 6) with 1. change (7 - 7) with 0.
  unfold uint8_t.
  change (2 ^ 8) with (2 ^ (7 + 1)). rewrite mod_pow2_succ by lia.
  change (2 ^ 7) with (2 ^ (6 + 1)) at 2. rewrite mod_pow2_succ by lia.
  change (2 ^ 6) with (2 ^ (5 + 1)) at 2. rewrite mod_pow2_succ by lia.
  change (2 ^ 5) with (2 ^ (4 + 1)) at 2. rewrite mod_pow2_succ by lia.
  change (2 ^ 4) with (2 ^ (3 + 1)) at 2. rewrite mod_pow2_succ by lia.
  change (2 ^ 3) with (2 ^ (2 + 1)) at 2. rewrite mod_pow2_succ by lia.
  change (2 ^ 2) with (2 ^ (1 + 1)) at 2. rewrite mod_pow2_succ by lia.
  change (2 ^ 1) with (2 ^ (0 + 1)) at 2. rewrite mod_pow2_succ by lia.
  change (2 ^ 0) with 1. rewrite Z.mod_1_r.
  change (2 ^ 7) with 128. change (2 ^ 6) with 64. change (2 ^ 5) with 32.
  change (2 ^ 4) with 16. change (2 ^ 3) with 8. change (2 ^ 2) with 4.
  change (2 ^ 1) with 2.
  lia.
Qed.

Lemma read_byte_ext sh sh' g g' pos pos' :
  (forall k, 0 <= k < 8 ->
     read_bit sh' g' (Z.to_nat (16 * pos' + 2 * k))
     = read_bit sh g (Z.to_nat (16 * pos + 2 * k))) ->
  read_byte sh' g' pos' = read_byte sh g pos.
Proof.
  intros Hk. unfold read_byte. change (seqZ 0 8) with [0; 1; 2; 3; 4; 5; 6; 7].
  cbn [foldl]. rewrite !Hk by lia. reflexivity.
Qed.

(** X5: writing a byte and reading it back.  After
    [SetBufferedByte(pin, pos, value)], the eight data operations of byte
    [pos], read most significant bit first on [pin], give [value] as a
    [uint8_t]; what they give for any other valid pin, and what any other
    byte index gives, is what it was before the call.  The byte index is
    below [2^60], where [2 * 8 * pos] does not wrap in [size_t]. *)
Theorem set_byte_read_back (this : DMAMultiSPI) (pin pos value : Z) :
  valid_gpio pin ->
  0 <= pos < serial_byte_size_ this ->
  pos < 2 ^ 60 ->
  Z.of_nat (length (gpio_shadow_ this)) = serial_byte_size_ this * 16 + 1 ->
  exists this',
    SetBufferedByte this pin pos value = Some this'
    /\ read_byte (gpio_shadow_ this') pin pos = uint8_t value
    /\ (forall g' pos', valid_gpio g' -> 0 <= pos' ->
          g' <> pin \/ pos' <> pos ->
          read_byte (gpio_shadow_ this') g' pos'
          = read_byte (gpio_shadow_ this) g' pos').
Proof.
  intros Hpin Hpos Hwrap Hlen.
  assert (Hfs : first_slot pos = Z.to_nat (2 * 8 * pos))
    by (apply first_slot_small; lia).
  rewrite SetBufferedByte_intro by (try assumption; rewrite ?Hfs; lia).
  eexists. split; [reflexivity|]. rewrite Hfs.
  unfold with_timeline; cbn [gpio_shadow_]. split.
  - unfold read_byte. apply shift_in_byte. intros k Hk. unfold read_bit.
    replace (Z.to_nat (16 * pos + 2 * k))
      with (Z.to_nat (2 * 8 * pos) + 2 * Z.to_nat k)%nat by lia.
    rewrite encode_lookup_hit by lia.
    destruct (lookup_lt_is_Some_2 (gpio_shadow_ this)
                (Z.to_nat (2 * 8 * pos) + 2 * Z.to_nat k)) as [d Hd]; [lia|].
    rewrite Hd. cbn.
    replace (7 - k) with (Z.of_nat (7 - Z.to_nat k)) by lia.
    apply set_bit_pin; [assumption | lia].
  - intros g' pos' Hg' Hpos' Hother. apply read_byte_ext. intros k Hk.
    unfold read_bit.
    destruct (encode_lookup_cases pin value 7 (Z.to_nat (2 * 8 * pos))
                (gpio_shadow_ this) (Z.to_nat (16 * pos' + 2 * k)))
      as [->|[bit Hhit]]; [reflexivity|].
    destruct (Z.eq_dec g' pin) as [->|Hne].
    + destruct Hother as [Hc|Hp]; [congruence|].
      rewrite encode_lookup_miss by (intros k' Hk'; lia). reflexivity.
    + rewrite Hhit.
      destruct (gpio_shadow_ this !! Z.to_nat (16 * pos' + 2 * k)) as [d|];
        [|reflexivity].
      cbn. apply (set_bit_other pin value bit d g'); assumption.
Qed.

End ReadBack.

(** ** More of the invariant of reachable engines *)

Section FurtherInvariantSteps.
Context `{FtGPIO} `{RpiDMA}.

Lemma uint32_t_bounds x : 0 <= uint32_t x < 2 ^ 32.
Proof. unfold uint32_t. apply Z.mod_pos_bound. lia. Qed.

Lemma max_capacity_nonneg caps : 0 <= max_capacity caps.
Proof.
  induction caps as [|c caps IH]; cbn [max_capacity foldr]; [lia|].
  fold (max_capacity caps). lia.
Qed.

(** The index of the last operation is a multiple of 16, wrapped or not. *)
Lemma bytes_to_gpio_ops_aligned bytes : (bytes_to_gpio_ops bytes - 1) mod 16 = 0.
Proof.
  unfold bytes_to_gpio_ops, int_of.
  change (2 ^ 32) with 4294967296. change (2 ^ 31) with 2147483648.
  Z.div_mod_to_equations. lia.
Qed.

Lemma clock_slot_clean clock i : clean_slot (clock_slot clock i).
Proof.
  unfold clean_slot, clock_slot.
  destruct (Z.even i); cbn [set clr ignored_upper_set_bits reserved_area];
    pose proof (uint32_t_bounds (shl1 clock)); repeat split; lia.
Qed.

Lemma set_bit_clean g data bit d : clean_slot d -> clean_slot (set_bit g data bit d).
Proof.
  intros (Hi & Hr & _ & _). unfold clean_slot, set_bit.
  destruct (negb _); cbn [set clr ignored_upper_set_bits reserved_area
                          with_set with_clr];
    repeat split; try assumption; apply uint32_t_bounds.
Qed.

Lemma shape_aligned this :
  timeline_shape this ->
  gpio_shadow_ this = []
  \/ (Z.of_nat (length (gpio_shadow_ this)) - 1) mod 16 = 0
     /\ (0 < length (gpio_shadow_ this))%nat.
Proof.
  intros [[Hnil _]|[Hpos Hlen]]; [left; assumption|right].
  rewrite Hlen, Z2Nat.id by lia.
  split; [apply bytes_to_gpio_ops_aligned | lia].
Qed.

Lemma new_timeline_inv size0 clock this :
  DMAMultiSPI_new size0 clock = Some this -> timeline_inv this.
Proof.
  unfold DMAMultiSPI_new.
  destruct (gpio_Init gpio_new) as [g1 [|]]; [|discriminate]. cbn [negb].
  destruct (gpio_AddOutput g1 clock) as [g2 [|]]; [|discriminate]. cbn [negb].
  intros Heq. injection Heq as <-.
  constructor; cbn; auto; intros i d Hd; rewrite lookup_nil in Hd; discriminate.
Qed.

Lemma grow_timeline_inv caps this junk requested_bytes grown :
  engine_inv caps this -> timeline_inv this ->
  serial_byte_size_ this < requested_bytes ->
  grow junk this requested_bytes = Some grown ->
  timeline_inv grown.
Proof.
  intros [Hcap Hclock Hshape Hslots] [Hunf Hsize Hclean Hclk] Hlt Hg.
  destruct (grow_Some _ _ _ _ Hg) as [Hr _].
  rewrite grow_eq in Hg by assumption. injection Hg as <-.
  set (prev := bytes_to_gpio_ops (serial_byte_size_ this) - 1) in *.
  set (ops := bytes_to_gpio_ops requested_bytes) in *.
  destruct (grown_shadow_spec junk (clock_gpio_ this) (gpio_shadow_ this)
              prev ops Hr) as (Hl & Ho & Hn).
  assert (Hodd : Z.odd ops = true) by apply bytes_to_gpio_ops_odd.
  assert (Hops : 0 < ops).
  { destruct (Z.eq_dec ops 0) as [E|E]; [|lia]. rewrite E in Hodd. discriminate. }
  assert (Hold : forall i, (i < Z.to_nat prev)%nat ->
                   is_Some (gpio_shadow_ this !! i)).
  { intros i Hi. apply lookup_lt_is_Some_2.
    destruct Hshape as [[_ Hz]|[_ Hlen]].
    - exfalso. subst prev. rewrite Hz in Hi. vm_compute in Hi. lia.
    - subst prev. lia. }
  pose proof (max_capacity_nonneg caps) as Hnn.
  assert (Hlt_ops : prev < ops).
  { assert (Hev : Z.even prev = true).
    { subst prev. rewrite Z.even_sub, <- Z.negb_odd, bytes_to_gpio_ops_odd.
      reflexivity. }
    destruct (Z.eq_dec prev ops) as [E|E]; [|lia].
    rewrite E, <- Z.negb_odd, Hodd in Hev. discriminate. }
  constructor; unfold with_timeline;
    cbn [gpio_dma_ alloced_ gpio_shadow_ gpio_buffer_size_ serial_byte_size_
         clock_gpio_].
  - assumption.
  - right. split; [lia|]. rewrite Hl, Z2Nat.id by lia. reflexivity.
  - intros i d Hd. destruct (decide (i < Z.to_nat prev)%nat) as [Hi|Hi].
    + destruct (Hold i Hi) as [d0 Hd0].
      rewrite (Ho i d0 Hi Hd0) in Hd. injection Hd as <-. eauto.
    + pose proof (lookup_lt_Some _ _ _ Hd) as Hlt'. rewrite Hl in Hlt'.
      specialize (Hn (Z.of_nat i)). rewrite Nat2Z.id in Hn.
      rewrite Hn in Hd by lia. injection Hd as <-. apply clock_slot_clean.
  - intros i d Hd Hwhere. destruct (decide (i < Z.to_nat prev)%nat) as [Hi|Hi].
    + destruct (Hold i Hi) as [d0 Hd0].
      rewrite (Ho i d0 Hi Hd0) in Hd. injection Hd as <-.
      apply (Hclk i d0 Hd0). destruct Hwhere as [Ho'|Hlast]; [left; assumption|].
      exfalso. rewrite Hl in Hlast. lia.
    + pose proof (lookup_lt_Some _ _ _ Hd) as Hlt'. rewrite Hl in Hlt'.
      specialize (Hn (Z.of_nat i)). rewrite Nat2Z.id in Hn.
      rewrite Hn in Hd by lia. injection Hd as <-. reflexivity.
Qed.

Lemma register_timeline_inv caps this junk gpio requested_bytes this' ok :
  engine_inv caps this -> timeline_inv this ->
  RegisterDataGPIO junk this gpio requested_bytes = Some (this', ok) ->
  timeline_inv this'.
Proof.
  intros Hinv Htl Hr.
  destruct (RegisterDataGPIO_Some _ _ _ _ _ _ Hr) as (_ & this1 & H1 & -> & _).
  assert (Htl1 : timeline_inv this1).
  { destruct (serial_byte_size_ this <? requested_bytes) eqn:Hlt.
    - apply Z.ltb_lt in Hlt. eapply grow_timeline_inv; eassumption.
    - injection H1 as <-. assumption. }
  destruct Htl1 as [Hunf Hsize Hclean Hclk].
  constructor; assumption.
Qed.

Lemma set_byte_timeline_inv caps this g pos data this' :
  engine_inv caps this -> timeline_inv this ->
  0 <= pos ->
  SetBufferedByte this g pos data = Some this' ->
  timeline_inv this'.
Proof.
  intros [Hcap Hclock Hshape Hslots] [Hunf Hsize Hclean Hclk] Hpos0 Hs.
  destruct (SetBufferedByte_Some _ _ _ _ _ Hs) as (Hpos & _ & Hlen & ->).
  destruct (first_slot_aligned pos) as (q & Hq & Hfs). rewrite Hfs in *.
  constructor; unfold with_timeline;
    cbn [gpio_dma_ alloced_ gpio_shadow_ gpio_buffer_size_ serial_byte_size_
         clock_gpio_]; rewrite ?length_encode.
  - assumption.
  - destruct Hsize as [Hnil|Hsz]; [|right; assumption].
    rewrite Hnil in Hlen. cbn in Hlen. lia.
  - intros i d' Hd'.
    destruct (encode_lookup_inv _ _ _ _ _ _ _ Hd') as (d & Hd & [->|[bit ->]]).
    + eauto.
    + apply set_bit_clean. eauto.
  - intros i d' Hd' Hwhere.
    destruct (hit_or_miss 7 (Z.to_nat (16 * q)) i) as [(k & Hk & ->)|Hmiss].
    + exfalso. destruct Hwhere as [Hodd|Hlast].
      * rewrite Nat2Z.inj_add, Nat2Z.inj_mul, Z2Nat.id in Hodd by lia.
        replace (16 * q + Z.of_nat 2 * Z.of_nat k)
          with (2 * (8 * q + Z.of_nat k)) in Hodd by lia.
        rewrite Z.odd_mul in Hodd. discriminate.
      * destruct (shape_aligned this Hshape) as [Hnil|[Hal _]].
        { rewrite Hnil in Hlen. cbn in Hlen. lia. }
        rewrite <- Hlast in Hal. revert Hal.
        replace (Z.of_nat (S (Z.to_nat (16 * q) + 2 * k)) - 1)
          with (16 * q + 2 * Z.of_nat k) by lia.
        intros Hal. revert Hal. Z.div_mod_to_equations. lia.
    + rewrite encode_lookup_miss in Hd' by assumption. eauto.
Qed.

Lemma reachable_timeline_inv caps this : reachable caps this -> timeline_inv this.
Proof.
  induction 1 as [size0 clock this Hv Hnew
                 |caps this junk gpio b this' ok Hreach IH Hb Hr
                 |caps this g pos data this' Hreach IH Hg Hne Hpos Hs].
  - eapply new_timeline_inv; eassumption.
  - exact (register_timeline_inv caps this junk gpio b this' ok
             (reachable_inv _ _ Hreach) IH Hr).
  - exact (set_byte_timeline_inv caps this g pos data this'
             (reachable_inv _ _ Hreach) IH Hpos Hs).
Qed.

End FurtherInvariantSteps.

(** ** The buffer of a reachable engine, further *)

Section FurtherTimeline.
Context `{FtGPIO} `{RpiDMA}.

(** X4: on a reachable engine whose capacity fits the [int] slot count,
    [SetBufferedByte] returns exactly for a valid pin and a byte index
    below the largest registered capacity.  At or beyond the capacity the
    call stops in its assertion; for a pin outside 0..31 the shift
    [1 << data_gpio] is undefined.  On a new engine, and after
    registering capacity 0, no index is accepted. *)
Theorem set_byte_accepts_below_capacity (caps : list Z) (this : DMAMultiSPI)
    (g pos data : Z) :
  reachable caps this ->
  0 <= pos ->
  max_capacity caps * 16 + 1 <= INT_MAX ->
  is_Some (SetBufferedByte this g pos data)
  <-> valid_gpio g /\ pos < max_capacity caps.
Proof.
  intros Hreach Hpos Hmax.
  destruct (reachable_inv caps this Hreach) as [Hcap _ Hshape _].
  split.
  - intros [this' Hs].
    destruct (SetBufferedByte_Some _ _ _ _ _ Hs) as (Hlt & Hv & _).
    split; [assumption | lia].
  - intros [Hv Hlt].
    destruct Hshape as [[_ Hz]|[_ Hlen]]; [lia|].
    rewrite Hcap, bytes_to_gpio_ops_small in Hlen by lia.
    rewrite SetBufferedByte_intro; [eauto | lia | assumption |].
    rewrite first_slot_small by (unfold INT_MAX in Hmax; lia). lia.
Qed.

(** X6: in a reachable engine the clock-edge operations carry no data:
    every operation at an odd index is exactly "set the clock pin", with
    an empty clear-mask.  And the last operation of the buffer is exactly
    "clear the clock pin", with an empty set-mask: the transfer ends with
    the clock low and touches no data pin there. *)
Theorem clock_edges_carry_no_data (caps : list Z) (this : DMAMultiSPI) :
  reachable caps this ->
  (forall i d, gpio_shadow_ this !! i = Some d -> Z.odd (Z.of_nat i) = true ->
     d = mkGPIOData (uint32_t (shl1 (clock_gpio_ this))) 0 0 0)
  /\ (forall d, last (gpio_shadow_ this) = Some d ->
        d = mkGPIOData 0 0 0 (uint32_t (shl1 (clock_gpio_ this)))).
Proof.
  intros Hreach.
  destruct (reachable_inv caps this Hreach) as [_ _ Hshape _].
  destruct (reachable_timeline_inv caps this Hreach) as [_ _ _ Hclk].
  split.
  - intros i d Hd Hodd. rewrite (Hclk i d Hd (or_introl Hodd)).
    unfold clock_slot. rewrite <- Z.negb_odd, Hodd. reflexivity.
  - intros d Hlast. rewrite last_lookup in Hlast.
    destruct (shape_aligned this Hshape) as [Hnil|[Hal Hpos]].
    { rewrite Hnil in Hlast. discriminate. }
    rewrite (Hclk _ d Hlast) by (right; lia).
    unfold clock_slot.
    replace (Z.even (Z.of_nat (Init.Nat.pred (length (gpio_shadow_ this)))))
      with true; [reflexivity|].
    symmetry. apply Z.even_spec.
    exists ((Z.of_nat (length (gpio_shadow_ this)) - 1) / 16 * 8).
    revert Hal. Z.div_mod_to_equations. lia.
Qed.

(** X7: nothing of what [realloc] left in fresh memory survives in a
    reachable engine: in every operation the words
    [ignored_upper_set_bits] and [reserved_area] are 0, and both masks are
    32-bit values. *)
Theorem slots_are_clean (caps : list Z) (this : DMAMultiSPI) :
  reachable caps this ->
  forall i d, gpio_shadow_ this !! i = Some d ->
    ignored_upper_set_bits d = 0 /\ reserved_area d = 0
    /\ 0 <= set d < 2 ^ 32 /\ 0 <= clr d < 2 ^ 32.
Proof.
  intros Hreach i d Hd.
  destruct (reachable_timeline_inv caps this Hreach) as [_ _ Hclean _].
  apply (Hclean i d Hd).
Qed.

(** X8: on a reachable engine a returning [RegisterDataGPIO] never
    shrinks: the capacity becomes the larger of the old one and the
    requested one, and the buffer is at least as long as it was.  When
    the request does not exceed the capacity, buffer, capacity and buffer
    size are kept as they are, whatever the pin reservation answers; and
    the call's result is that answer. *)
Theorem registration_never_shrinks (caps : list Z) (this this' : DMAMultiSPI)
    (junk : nat -> GPIOData) (gpio requested_bytes : Z) (ok : bool) :
  reachable caps this ->
  RegisterDataGPIO junk this gpio requested_bytes = Some (this', ok) ->
  serial_byte_size_ this' = Z.max requested_bytes (serial_byte_size_ this)
  /\ (length (gpio_shadow_ this) <= length (gpio_shadow_ this'))%nat
  /\ ok = (gpio_AddOutput (gpio_ this) gpio).2
  /\ (requested_bytes <= serial_byte_size_ this ->
      gpio_shadow_ this' = gpio_shadow_ this
      /\ gpio_buffer_size_ this' = gpio_buffer_size_ this).
Proof.
  intros Hreach Hr.
  destruct (reachable_inv caps this Hreach) as [_ _ Hshape _].
  destruct (RegisterDataGPIO_Some _ _ _ _ _ _ Hr) as (_ & this1 & H1 & -> & ->).
  unfold with_gpio; cbn [serial_byte_size_ gpio_shadow_ gpio_buffer_size_].
  destruct (serial_byte_size_ this <? requested_bytes) eqn:Hlt.
  - apply Z.ltb_lt in Hlt.
    destruct (grow_Some _ _ _ _ H1) as [Hb Hv].
    rewrite grow_eq in H1 by assumption. injection H1 as <-.
    unfold with_timeline;
      cbn [serial_byte_size_ gpio_shadow_ gpio_buffer_size_ gpio_].
    set (prev := bytes_to_gpio_ops (serial_byte_size_ this) - 1) in *.
    set (ops := bytes_to_gpio_ops requested_bytes) in *.
    destruct (grown_shadow_spec junk (clock_gpio_ this) (gpio_shadow_ this)
                prev ops Hb) as (Hl & _ & _).
    assert (Hlt_ops : prev < ops).
    { assert (Hodd : Z.odd ops = true) by apply bytes_to_gpio_ops_odd.
      assert (Hev : Z.even prev = true).
      { subst prev. rewrite Z.even_sub, <- Z.negb_odd, bytes_to_gpio_ops_odd.
        reflexivity. }
      destruct (Z.eq_dec prev ops) as [E|E]; [|lia].
      rewrite E, <- Z.negb_odd, Hodd in Hev. discriminate. }
    split; [lia|]. split.
    + rewrite Hl. destruct Hshape as [[Hnil _]|[_ Hlen]].
      * rewrite Hnil. cbn. lia.
      * rewrite Hlen. subst prev. lia.
    + split; [reflexivity | lia].
  - apply Z.ltb_ge in Hlt. injection H1 as <-.
    split; [lia|]. split; [lia|]. split; [reflexivity|]. auto.
Qed.

End FurtherTimeline.

(** ** The life of an engine: finish, send, send again *)

Section Lifecycle.
Context `{FtGPIO} `{RpiDMA}.

(** What a returning [FinishRegistration] keeps and what it sets. *)
Lemma FinishRegistration_fields junk_cb junk_gpio this this' :
  FinishRegistration junk_cb junk_gpio this = Some this' ->
  alloced_ this = None
  /\ gpio_shadow_ this' = gpio_shadow_ this
  /\ serial_byte_size_ this' = serial_byte_size_ this
  /\ gpio_buffer_size_ this' = gpio_buffer_size_ this
  /\ clock_gpio_ this' = clock_gpio_ this
  /\ gpio_ this' = gpio_ this
  /\ mem_gpio this'
     = junk_gpio <$> seq 0 (Z.to_nat (bytes_to_gpio_ops (serial_byte_size_ this)))
  /\ exists blk,
       alloced_ this' = Some blk
       /\ gpio_dma_ this'
          = Some (UncachedMemBlock_mem blk
                  + Z.quot (bytes_to_gpio_ops (serial_byte_size_ this)
                            + kMaxOpsPerBlock - 1) kMaxOpsPerBlock
                    * sizeof_dma_cb)
       /\ start_block_ this' = UncachedMemBlock_mem blk.
Proof.
  unfold FinishRegistration. destruct (alloced_ this); [discriminate|].
  destruct (int_add _ kMaxOpsPerBlock) as [sum|] eqn:E1; [|discriminate].
  cbn [mbind option_bind].
  destruct (int_add sum (-1)) as [sum1|] eqn:E2; [|discriminate].
  cbn [mbind option_bind].
  apply int_add_Some in E1 as [-> _]. apply int_add_Some in E2 as [-> _].
  replace (bytes_to_gpio_ops (serial_byte_size_ this) + kMaxOpsPerBlock + -1)
    with (bytes_to_gpio_ops (serial_byte_size_ this) + kMaxOpsPerBlock - 1)
    by lia.
  destruct (negb _); [discriminate|].
  destruct (UncachedMemBlock_alloc _) as [blk|]; [|discriminate].
  cbn [mbind option_bind]. cbn zeta.
  destruct (cb _) as [last_cb|]; [|discriminate].
  cbn [mbind option_bind]. intros Heq. injection Heq as <-.
  cbn [gpio_shadow_ serial_byte_size_ gpio_buffer_size_ clock_gpio_ gpio_
       mem_gpio alloced_ gpio_dma_ start_block_].
  repeat (split; [reflexivity|]). eauto.
Qed.

(** What a returning [SendBuffers] went through. *)
Lemma SendBuffers_Some cs_reads fuel junk_cb junk_gpio this b this' b' :
  SendBuffers cs_reads fuel junk_cb junk_gpio this b = Some (this', b') ->
  exists this1 m blk how b1,
    match gpio_dma_ this with
    | None => FinishRegistration junk_cb junk_gpio this
    | Some _ => Some this
    end = Some this1
    /\ memcpy (mem_gpio this1) (gpio_shadow_ this1) (gpio_buffer_size_ this1)
       = Some m
    /\ alloced_ this1 = Some blk
    /\ poll cs_reads fuel (arm cs_reads blk this1 b) = Some (how, b1)
    /\ this' = with_mem_gpio this1 m
    /\ b' = teardown cs_reads b1.
Proof.
  unfold SendBuffers.
  destruct (match gpio_dma_ this with
            | None => FinishRegistration junk_cb junk_gpio this
            | Some _ => Some this
            end) as [this1|] eqn:E1; [|discriminate].
  cbn [mbind option_bind].
  destruct (memcpy _ _ _) as [m|] eqn:E2; [|discriminate].
  cbn [mbind option_bind].
  destruct (alloced_ this1) as [blk|] eqn:E3; [|discriminate].
  cbn [mbind option_bind].
  destruct (poll _ _ _) as [[how b1]|] eqn:E4; [|discriminate].
  cbn [mbind option_bind]. intros Heq. injection Heq as <- <-.
  exists this1, m, blk, how, b1. repeat split; assumption || reflexivity.
Qed.

(** Copying a whole buffer over a destination of its length leaves the
    buffer. *)
Lemma memcpy_whole dst src :
  src <> [] -> length dst = length src ->
  memcpy dst src (Z.of_nat (length src) * sizeof_GPIOData) = Some src.
Proof.
  intros Hne Hlen. unfold memcpy. destruct src as [|d src]; [contradiction|].
  set (l := d :: src) in *. unfold sizeof_GPIOData.
  replace (Z.of_nat (length l) * 16 <? 0) with false
    by (symmetry; apply Z.ltb_ge; lia).
  replace (Z.rem (Z.of_nat (length l) * 16) 16) with 0
    by (symmetry; apply Z.rem_mul; lia).
  rewrite Hlen. rewrite Z.ltb_irrefl. cbn [negb orb Z.eqb].
  rewrite Z.div_mul by lia. rewrite Nat2Z.id.
  rewrite firstn_all. rewrite <- Hlen, drop_all, app_nil_r. reflexivity.
Qed.

End Lifecycle.

Section LifecycleTheorems.
Context `{FtGPIO} `{RpiDMA}.

(** The first send of a reachable engine. *)
Lemma reachable_send caps this cs_reads fuel junk_cb junk_gpio b this' b' :
  reachable caps this ->
  SendBuffers cs_reads fuel junk_cb junk_gpio this b = Some (this', b') ->
  sendable this'
  /\ mem_gpio this' = gpio_shadow_ this
  /\ gpio_shadow_ this' = gpio_shadow_ this
  /\ serial_byte_size_ this' = serial_byte_size_ this
  /\ 0 < serial_byte_size_ this.
Proof.
  intros Hreach Hs.
  destruct (reachable_inv caps this Hreach) as [_ _ Hshape _].
  destruct (reachable_timeline_inv caps this Hreach) as [[Hdma _] Hsize _ _].
  destruct (SendBuffers_Some _ _ _ _ _ _ _ _ Hs)
    as (this1 & m & blk & how & b1 & Hfin & Hcpy & Hblk & _ & -> & _).
  rewrite Hdma in Hfin.
  destruct (FinishRegistration_fields _ _ _ _ Hfin)
    as (_ & Esh & Eser & Esz & _ & _ & Emem & blk' & Hb' & Hgd & _).
  rewrite Esh, Esz, Emem in Hcpy.
  destruct Hsize as [Hnil|[Hpos Hsz]].
  { rewrite Hnil in Hcpy. discriminate. }
  destruct Hshape as [[Hnil _]|[Hops Hlen]].
  { rewrite Hnil in Hsz, Hcpy. discriminate. }
  assert (Hne : gpio_shadow_ this <> []).
  { intros E. rewrite E in Hlen. cbn in Hlen. lia. }
  rewrite Hsz, memcpy_whole in Hcpy
    by (assumption || (rewrite length_fmap, length_seq; lia)).
  injection Hcpy as <-.
  unfold sendable, with_mem_gpio;
    cbn [gpio_dma_ alloced_ gpio_shadow_ mem_gpio gpio_buffer_size_
         serial_byte_size_].
  rewrite Hgd, Hb', Esh, Esz, Eser.
  repeat split; eauto.
Qed.

(** A send of a sendable engine. *)
Lemma sendable_send this cs_reads fuel junk_cb junk_gpio b this' b' :
  sendable this ->
  SendBuffers cs_reads fuel junk_cb junk_gpio this b = Some (this', b') ->
  this' = with_mem_gpio this (gpio_shadow_ this).
Proof.
  intros ([gd Hgd] & _ & Hne & Hlen & Hsz) Hs.
  destruct (SendBuffers_Some _ _ _ _ _ _ _ _ Hs)
    as (this1 & m & blk & how & b1 & Hfin & Hcpy & Hblk & _ & -> & _).
  rewrite Hgd in Hfin. injection Hfin as <-.
  rewrite Hsz, memcpy_whole in Hcpy by assumption.
  injection Hcpy as <-. reflexivity.
Qed.

(** X9: the first [SendBuffers] of a reachable engine, when it returns,
    has copied the whole buffer: the DMA memory [gpio_dma_] points to
    holds exactly the operations of [gpio_shadow_], and buffer and
    capacity are what they were.  It returns only if a positive capacity
    was registered: without one the buffer is null and [memcpy] reads
    from it. *)
Theorem first_send_copies_buffer (caps : list Z) (this this' : DMAMultiSPI)
    (cs_reads : nat -> Z) (fuel : nat) (junk_cb : nat -> dma_cb)
    (junk_gpio : nat -> GPIOData) (b b' : bus) :
  reachable caps this ->
  SendBuffers cs_reads fuel junk_cb junk_gpio this b = Some (this', b') ->
  mem_gpio this' = gpio_shadow_ this
  /\ gpio_shadow_ this' = gpio_shadow_ this
  /\ serial_byte_size_ this' = serial_byte_size_ this
  /\ 0 < max_capacity caps.
Proof.
  intros Hreach Hs.
  destruct (reachable_send caps this _ _ _ _ _ _ _ Hreach Hs)
    as (_ & Em & Esh & Eser & Hpos).
  destruct (reachable_inv caps this Hreach) as [Hcap _ _ _].
  repeat split; try assumption. lia.
Qed.

(** X10: an engine that [SendBuffers] returned from is frozen.
    [RegisterDataGPIO] stops in its assertion for every pin and
    capacity, [FinishRegistration] stops in its assertion, and a further
    [SendBuffers] does not build again: control blocks, memory block and
    head pointer are the ones of the first send. *)
Theorem sent_engine_is_frozen (this this' : DMAMultiSPI)
    (cs_reads : nat -> Z) (fuel : nat) (junk_cb : nat -> dma_cb)
    (junk_gpio : nat -> GPIOData) (b b' : bus) :
  SendBuffers cs_reads fuel junk_cb junk_gpio this b = Some (this', b') ->
  (forall junk gpio requested_bytes,
     RegisterDataGPIO junk this' gpio requested_bytes = None)
  /\ (forall junk_cb' junk_gpio',
        FinishRegistration junk_cb' junk_gpio' this' = None)
  /\ (forall cs_reads' fuel' junk_cb' junk_gpio' b0 this'' b'',
        SendBuffers cs_reads' fuel' junk_cb' junk_gpio' this' b0
        = Some (this'', b'') ->
        mem_cb this'' = mem_cb this'
        /\ alloced_ this'' = alloced_ this'
        /\ gpio_dma_ this'' = gpio_dma_ this'
        /\ start_block_ this'' = start_block_ this'
        /\ gpio_shadow_ this'' = gpio_shadow_ this').
Proof.
  intros Hs.
  destruct (SendBuffers_Some _ _ _ _ _ _ _ _ Hs)
    as (this1 & m & blk & how & b1 & Hfin & _ & Hblk & _ & -> & _).
  assert (Hgd : exists gd, gpio_dma_ this1 = Some gd).
  { destruct (gpio_dma_ this) as [gd|] eqn:E.
    - injection Hfin as <-. eauto.
    - destruct (FinishRegistration_fields _ _ _ _ Hfin)
        as (_ & _ & _ & _ & _ & _ & _ & blk' & _ & Hgd & _). eauto. }
  destruct Hgd as [gd Hgd].
  split; [|split].
  - intros junk gpio requested_bytes. unfold RegisterDataGPIO, with_mem_gpio.
    cbn [gpio_dma_]. rewrite Hgd. reflexivity.
  - intros junk_cb' junk_gpio'. unfold FinishRegistration, with_mem_gpio.
    cbn [alloced_]. rewrite Hblk. reflexivity.
  - intros cs_reads' fuel' junk_cb' junk_gpio' b0 this'' b'' Hs2.
    destruct (SendBuffers_Some _ _ _ _ _ _ _ _ Hs2)
      as (this2 & m2 & blk2 & how2 & b2 & Hfin2 & _ & _ & _ & -> & _).
    unfold with_mem_gpio in Hfin2. cbn [gpio_dma_] in Hfin2.
    rewrite Hgd in Hfin2. injection Hfin2 as <-.
    unfold with_mem_gpio;
      cbn [mem_cb alloced_ gpio_dma_ start_block_ gpio_shadow_].
    rewrite ?Hgd. repeat split; reflexivity.
Qed.

(** X11: sending again after encoding.  After a first send of a
    reachable engine and a returning [SetBufferedByte] on the engine it
    left, the next [SendBuffers], when it returns, copies the buffer as
    it is then: the DMA memory holds the newly encoded operations, and
    control blocks and memory block are those of the first send. *)
Theorem resend_copies_new_content (caps : list Z) (this s1 s2 s3 : DMAMultiSPI)
    (cs1 cs2 : nat -> Z) (fuel1 fuel2 : nat) (junk_cb junk_cb' : nat -> dma_cb)
    (junk_gpio junk_gpio' : nat -> GPIOData) (b1 b1' b2 b2' : bus)
    (g pos data : Z) :
  reachable caps this ->
  SendBuffers cs1 fuel1 junk_cb junk_gpio this b1 = Some (s1, b1') ->
  SetBufferedByte s1 g pos data = Some s2 ->
  SendBuffers cs2 fuel2 junk_cb' junk_gpio' s2 b2 = Some (s3, b2') ->
  mem_gpio s3 = gpio_shadow_ s2
  /\ gpio_shadow_ s3 = gpio_shadow_ s2
  /\ mem_cb s3 = mem_cb s1
  /\ alloced_ s3 = alloced_ s1.
Proof.
  intros Hreach Hsend1 Hset Hsend2.
  destruct (reachable_send caps this _ _ _ _ _ _ _ Hreach Hsend1)
    as ((Hgd & Hal & Hne & Hlen & Hsz) & _).
  destruct (SetBufferedByte_Some _ _ _ _ _ Hset) as (_ & _ & _ & E2).
  assert (Hs2 : sendable s2).
  { subst s2. unfold sendable, with_timeline;
      cbn [gpio_dma_ alloced_ gpio_shadow_ mem_gpio gpio_buffer_size_].
    rewrite length_encode. repeat split; try assumption.
    intros E. apply (f_equal length) in E. rewrite length_encode in E.
    destruct (gpio_shadow_ s1); [contradiction | discriminate]. }
  rewrite (sendable_send s2 _ _ _ _ _ _ _ Hs2 Hsend2).
  unfold with_mem_gpio; cbn [mem_gpio gpio_shadow_ mem_cb alloced_].
  subst s2. unfold with_timeline; cbn [mem_cb alloced_].
  repeat split; reflexivity.
Qed.

End LifecycleTheorems.

(** ** The slices of the control blocks *)

Section Slices.
Context `{FtGPIO} `{RpiDMA}.

(** The loop of [FinishRegistration] after [m] passes that found
    operations left: what remains, where the next slice starts, and the
    source and shape of the blocks written. *)
Lemma finish_fold_slices blk g0 N blocks0 m :
  0 < N ->
  Z.of_nat m * kMaxOpsPerBlock < N + kMaxOpsPerBlock ->
  let st := foldl (finish_step blk) (mk_finish_loop None None g0 N blocks0)
              (seqZ 0 (Z.of_nat m)) in
  remaining st = Z.max 0 (N - Z.of_nat m * kMaxOpsPerBlock)
  /\ start_gpio st
     = g0 + Z.min N (Z.of_nat m * kMaxOpsPerBlock) * sizeof_GPIOData
  /\ (forall i c, (i < m)%nat -> blocks st !! i = Some c ->
        src c = uint32_t (UncachedMemBlock_to_physical blk
                            (g0 + Z.of_nat i * kMaxOpsPerBlock * sizeof_GPIOData))
        /\ length_ c
           = uint32_t (Z.lor (DMA_CB_TXFR_LEN_YLENGTH
                                (Z.min kMaxOpsPerBlock
                                   (N - Z.of_nat i * kMaxOpsPerBlock)))
                         (DMA_CB_TXFR_LEN_XLENGTH sizeof_GPIOData))
        /\ info c
           = uint32_t (Z.lor (Z.lor (Z.lor DMA_CB_TI_SRC_INC DMA_CB_TI_DEST_INC)
                                DMA_CB_TI_NO_WIDE_BURSTS) DMA_CB_TI_TDMODE)).
Proof.
  intros HN. rewrite kMaxOpsPerBlock_eq. induction m as [|m IH]; intros Hm;
    cbn zeta.
  - rewrite seqZ_nil by lia. cbn [foldl remaining start_gpio blocks].
    split; [lia|]. split; [lia|]. intros; lia.
  - replace (Z.of_nat (S m)) with (Z.of_nat m + 1) by lia.
    rewrite seqZ_app by lia. rewrite foldl_app.
    rewrite (seqZ_cons _ 1), (seqZ_nil _ (Z.pred 1)) by lia. cbn [foldl].
    cbn zeta in IH. destruct IH as (IHr & IHs & IHb); [lia|].
    pose proof (finish_fold_spec blk (mk_finish_loop None None g0 N blocks0) m
                  eq_refl eq_refl) as (_ & Hcb & Hprev & _).
    cbn zeta in Hcb, Hprev.
    set (st := foldl (finish_step blk) (mk_finish_loop None None g0 N blocks0)
                 (seqZ 0 (Z.of_nat m))) in *.
    replace (0 + Z.of_nat m) with (Z.of_nat m) by lia.
    unfold finish_step. rewrite !Nat2Z.id, kMaxOpsPerBlock_eq.
    cbn [remaining start_gpio blocks]. rewrite IHr, IHs.
    assert (En : (if 4096 <? Z.max 0 (N - Z.of_nat m * 4096) then 4096
                  else Z.max 0 (N - Z.of_nat m * 4096))
                 = Z.min 4096 (N - Z.of_nat m * 4096)).
    { destruct (4096 <? _) eqn:E;
        [apply Z.ltb_lt in E | apply Z.ltb_ge in E]; lia. }
    rewrite En. unfold sizeof_GPIOData.
    split; [lia|]. split; [lia|].
    intros i c Hi Hl.
    rewrite list_lookup_alter in Hl. case_decide as Hd.
    + subst i. destruct (_ !! m) as [c0|]; [|discriminate].
      injection Hl as <-. unfold fill_cb. cbn [src length_ info].
      unfold sizeof_GPIOData. repeat split. do 2 f_equal. lia.
    + assert (Him : (i < m)%nat) by lia.
      rewrite Hprev, Hcb in Hl. destruct m as [|m']; [lia|].
      rewrite list_lookup_alter in Hl. case_decide as Hd'.
      * subst i. destruct (blocks st !! m') as [c0|] eqn:E0; [|discriminate].
        injection Hl as <-. cbn [with_next src length_ info].
        apply (IHb m' c0); [lia | assumption].
      * apply (IHb i c); assumption.
Qed.

(** X12: the control blocks a returning [FinishRegistration] built cut
    the DMA copy of the buffer into consecutive slices.  Block [i] reads
    from the physical address of operation [i * kMaxOpsPerBlock] and
    transfers [min (kMaxOpsPerBlock, N - i * kMaxOpsPerBlock)] rows of one
    operation each; that count is positive, the slice ends inside the [N]
    operations, and the slice of the last block ends exactly at [N].  All
    blocks carry the same transfer information word. *)
Theorem descriptor_slices (junk_cb : nat -> dma_cb) (junk_gpio : nat -> GPIOData)
    (this this' : DMAMultiSPI) :
  FinishRegistration junk_cb junk_gpio this = Some this' ->
  let N := bytes_to_gpio_ops (serial_byte_size_ this) in
  exists blk gpio_dma,
    alloced_ this' = Some blk
    /\ gpio_dma_ this' = Some gpio_dma
    /\ gpio_dma = cb_address blk (Z.of_nat (length (mem_cb this')))
    /\ forall i c, mem_cb this' !! i = Some c ->
         let n := Z.min kMaxOpsPerBlock (N - Z.of_nat i * kMaxOpsPerBlock) in
         src c = uint32_t (UncachedMemBlock_to_physical blk
                             (gpio_dma
                              + Z.of_nat i * kMaxOpsPerBlock * sizeof_GPIOData))
         /\ length_ c = uint32_t (Z.lor (DMA_CB_TXFR_LEN_YLENGTH n)
                                    (DMA_CB_TXFR_LEN_XLENGTH sizeof_GPIOData))
         /\ info c
            = uint32_t (Z.lor (Z.lor (Z.lor DMA_CB_TI_SRC_INC DMA_CB_TI_DEST_INC)
                                 DMA_CB_TI_NO_WIDE_BURSTS) DMA_CB_TI_TDMODE)
         /\ 0 < n <= kMaxOpsPerBlock
         /\ Z.of_nat i * kMaxOpsPerBlock + n <= N
         /\ (S i = length (mem_cb this') ->
             Z.of_nat i * kMaxOpsPerBlock + n = N).
Proof.
  intros Hf. cbn zeta.
  destruct (FinishRegistration_Some _ _ _ _ Hf)
    as (blk & st & Hmax & Hn & Hblk & Hst & Hmem).
  destruct (FinishRegistration_fields _ _ _ _ Hf)
    as (_ & _ & _ & _ & _ & _ & _ & blk' & Hblk' & Hgd & _).
  assert (blk' = blk) as -> by congruence.
  cbn zeta in *.
  set (N := bytes_to_gpio_ops (serial_byte_size_ this)) in *.
  set (q := Z.quot (N + kMaxOpsPerBlock - 1) kMaxOpsPerBlock) in *.
  assert (Hq : 0 < q) by lia.
  assert (HN : 0 < N /\ (q - 1) * 4096 < N <= q * 4096).
  { subst q. rewrite kMaxOpsPerBlock_eq in *.
    assert (HNpos : 0 < N).
    { destruct (Z.lt_ge_cases 0 N) as [|Hneg]; [assumption|].
      exfalso. revert Hq. Z.quot_rem_to_equations. lia. }
    split; [assumption|].
    rewrite Z.quot_div_nonneg by lia. Z.div_mod_to_equations. lia. }
  destruct HN as [HNpos Hceil].
  destruct (finish_fold_spec blk
    (mk_finish_loop None None
       (UncachedMemBlock_mem blk + Z.of_nat (Z.to_nat q) * sizeof_dma_cb) N
       (junk_cb <$> seq 0 (Z.to_nat q))) (Z.to_nat q) eq_refl eq_refl)
    as (Hlen & _).
  destruct (finish_fold_slices blk
    (UncachedMemBlock_mem blk + Z.of_nat (Z.to_nat q) * sizeof_dma_cb) N
    (junk_cb <$> seq 0 (Z.to_nat q)) (Z.to_nat q) HNpos)
    as (_ & _ & Hslice).
  { rewrite kMaxOpsPerBlock_eq. lia. }
  cbn zeta in *. rewrite <- Hst in *. cbn [blocks] in Hlen.
  rewrite length_fmap, length_seq in Hlen.
  assert (Hcount : length (mem_cb this') = Z.to_nat q)
    by (rewrite Hmem, length_alter; assumption).
  exists blk, (UncachedMemBlock_mem blk + q * sizeof_dma_cb).
  split; [assumption|]. split; [assumption|]. split.
  { unfold cb_address. rewrite Hcount, Z2Nat.id by lia. reflexivity. }
  intros i c Hc.
  assert (Hi : (i < Z.to_nat q)%nat).
  { apply lookup_lt_Some in Hc. lia. }
  assert (Hfields : exists c0, blocks st !! i = Some c0
                     /\ src c = src c0 /\ length_ c = length_ c0
                     /\ info c = info c0).
  { rewrite Hmem, list_lookup_alter in Hc. case_decide as Hd.
    - destruct (blocks st !! (Z.to_nat q - 1)%nat) as [c0|] eqn:E0;
        [|discriminate].
      injection Hc as <-. exists c0. subst i. auto.
    - exists c. auto. }
  destruct Hfields as (c0 & Hc0 & -> & -> & ->).
  destruct (Hslice i c0 Hi Hc0) as (Hsrc & Hlength & Hinfo).
  rewrite Z2Nat.id in Hsrc by lia.
  split; [assumption|]. split; [assumption|]. split; [assumption|].
  rewrite kMaxOpsPerBlock_eq. split; [lia|]. split; [lia|].
  intros Hlast. lia.
Qed.

End Slices.

(** ** The poll loop *)

Section Polling.
Context `{FtGPIO} `{RpiDMA}.
Variable cs_reads : nat -> Z.

(** Passes that find the channel busy only sleep. *)
Lemma poll_busy n fuel b :
  busy_for cs_reads (loads b) n ->
  poll cs_reads (n + fuel) b
  = poll cs_reads fuel
      (mk_bus (loads b + 2 * n) (trace b ++ poll_rounds cs_reads (loads b) n)).
Proof.
  revert b. induction n as [|n IH]; intros b Hbusy.
  - cbn [poll_rounds Nat.add]. rewrite app_nil_r.
    replace (loads b + 2 * 0)%nat with (loads b) by lia.
    destruct b; reflexivity.
  - destruct (Hbusy 0%nat) as [Ha He]; [lia|].
    replace (loads b + 2 * 0)%nat with (loads b) in Ha by lia.
    replace (loads b + 2 * 0 + 1)%nat with (S (loads b)) in He by lia.
    cbn [Nat.add poll]. unfold load_cs at 1 2. cbn [loads trace].
    apply Z.eqb_neq in Ha. rewrite Ha.
    apply Z.eqb_eq in He. rewrite He. cbn [negb].
    rewrite IH.
    + unfold emit. cbn [loads trace poll_rounds]. f_equal. f_equal; [lia|].
      rewrite <- !app_assoc. reflexivity.
    + unfold emit. cbn [loads trace]. intros j Hj.
      destruct (Hbusy (S j)) as [Ha' He']; [lia|].
      replace (S (S (loads b)) + 2 * j)%nat with (loads b + 2 * S j)%nat by lia.
      replace (S (S (loads b)) + 2 * j + 1)%nat
        with (loads b + 2 * S j + 1)%nat by lia.
      auto.
Qed.

Lemma poll_leaves how fuel b :
  leaves cs_reads how (loads b) ->
  poll cs_reads fuel b
  = Some (how, mk_bus (loads b + length (last_loads cs_reads how (loads b)))
                 (trace b ++ last_loads cs_reads how (loads b))).
Proof.
  intros Hl. destruct how; cbn [leaves last_loads length] in *.
  - destruct fuel; cbn [poll]; unfold load_cs; cbn [loads trace];
      apply Z.eqb_eq in Hl; rewrite Hl; do 3 f_equal; lia.
  - destruct Hl as [Ha He]. apply Z.eqb_neq in Ha, He.
    destruct fuel; cbn [poll]; unfold load_cs; cbn [loads trace];
      rewrite Ha, He; cbn [negb]; do 3 f_equal; try lia;
      rewrite <- app_assoc; reflexivity.
Qed.

(** A channel that always shows the active bit and never the error bit
    keeps the loop going, whatever the bound on the sleeps. *)
Lemma poll_stuck fuel b :
  (forall k, Z.land (cs_reads k) DMA_CS_ACTIVE <> 0
             /\ Z.land (cs_reads k) DMA_CS_ERROR = 0) ->
  poll cs_reads fuel b = None.
Proof.
  intros Hstuck. revert b. induction fuel as [|fuel IH]; intros b;
    cbn [poll]; unfold load_cs; cbn [loads trace];
    destruct (Hstuck (loads b)) as [Ha _];
    destruct (Hstuck (S (loads b))) as [_ He];
    apply Z.eqb_neq in Ha; apply Z.eqb_eq in He; rewrite Ha, He; cbn [negb].
  - reflexivity.
  - apply IH.
Qed.

Lemma arm_eq blk this b :
  arm cs_reads blk this b
  = mk_bus (loads b + 2)
      (trace b ++ arm_trace blk this (cs_reads (loads b))
                    (cs_reads (S (loads b)))).
Proof.
  unfold arm, cs_or, load_cs, emit, arm_trace. cbn [loads trace].
  f_equal; [lia|]. rewrite <- !app_assoc. reflexivity.
Qed.

(** X13: [SendBuffers] has no timeout.  Against a channel that shows the
    active bit and no error bit on every load, it does not return,
    however many polls it is given. *)
Theorem send_waits_without_bound (fuel : nat) (junk_cb : nat -> dma_cb)
    (junk_gpio : nat -> GPIOData) (this : DMAMultiSPI) (b : bus) :
  (forall k, Z.land (cs_reads k) DMA_CS_ACTIVE <> 0
             /\ Z.land (cs_reads k) DMA_CS_ERROR = 0) ->
  SendBuffers cs_reads fuel junk_cb junk_gpio this b = None.
Proof.
  intros Hstuck. unfold SendBuffers.
  destruct (match gpio_dma_ this with
            | None => FinishRegistration junk_cb junk_gpio this
            | Some _ => Some this
            end) as [this1|]; [|reflexivity].
  cbn [mbind option_bind].
  destruct (memcpy _ _ _) as [m|]; [|reflexivity]. cbn [mbind option_bind].
  destruct (alloced_ this1) as [blk|]; [|reflexivity].
  cbn [mbind option_bind]. rewrite poll_stuck by assumption. reflexivity.
Qed.

(** [SendBuffers] against a channel that is busy for [n] passes and then
    leaves the loop. *)
Lemma send_runs n fuel how junk_cb junk_gpio this this1 m blk b :
  match gpio_dma_ this with
  | None => FinishRegistration junk_cb junk_gpio this
  | Some _ => Some this
  end = Some this1 ->
  memcpy (mem_gpio this1) (gpio_shadow_ this1) (gpio_buffer_size_ this1)
    = Some m ->
  alloced_ this1 = Some blk ->
  busy_for cs_reads (loads b + 2) n ->
  leaves cs_reads how (loads b + 2 + 2 * n) ->
  (n <= fuel)%nat ->
  let k := (loads b + 2 + 2 * n)%nat in
  SendBuffers cs_reads fuel junk_cb junk_gpio this b
  = Some (with_mem_gpio this1 m,
          teardown cs_reads
            (mk_bus (k + length (last_loads cs_reads how k))
               ((trace b
                 ++ arm_trace blk this1 (cs_reads (loads b))
                      (cs_reads (S (loads b)))
                 ++ poll_rounds cs_reads (loads b + 2) n)
                ++ last_loads cs_reads how k))).
Proof.
  intros Hfin Hcpy Hblk Hbusy Hleaves Hfuel. cbn zeta.
  unfold SendBuffers. rewrite Hfin. cbn [mbind option_bind].
  rewrite Hcpy. cbn [mbind option_bind]. rewrite Hblk. cbn [mbind option_bind].
  rewrite arm_eq.
  replace fuel with (n + (fuel - n))%nat by lia.
  rewrite poll_busy by (cbn [loads]; assumption).
  cbn [loads trace]. rewrite (poll_leaves how) by (cbn [loads]; assumption).
  cbn [loads trace mbind option_bind]. rewrite <- !app_assoc. reflexivity.
Qed.

(** X14: the whole register protocol of one [SendBuffers].  On an engine
    whose preparation succeeds, against a channel that is busy for [n]
    passes of the poll loop and then shows the active bit cleared, or the
    error bit, the call returns when given at least [n] polls.  Its
    accesses are, in order: clear the end flag, store the physical address
    of the head control block, store the priorities, set active; [n] times
    two loads and a sleep of 10 microseconds; the loads of the last pass;
    and the teardown.  It sleeps [n] times in the loop and never stores
    to the channel while it polls. *)
Theorem send_protocol (n fuel : nat) (how : poll_exit) (junk_cb : nat -> dma_cb)
    (junk_gpio : nat -> GPIOData) (this this1 : DMAMultiSPI)
    (m : list GPIOData) (blk : UncachedMemBlock) (b : bus) :
  match gpio_dma_ this with
  | None => FinishRegistration junk_cb junk_gpio this
  | Some _ => Some this
  end = Some this1 ->
  memcpy (mem_gpio this1) (gpio_shadow_ this1) (gpio_buffer_size_ this1)
    = Some m ->
  alloced_ this1 = Some blk ->
  busy_for cs_reads (loads b + 2) n ->
  leaves cs_reads how (loads b + 2 + 2 * n) ->
  (n <= fuel)%nat ->
  let k := (loads b + 2 + 2 * n)%nat in
  let k' := (k + length (last_loads cs_reads how k))%nat in
  exists b',
    SendBuffers cs_reads fuel junk_cb junk_gpio this b
    = Some (with_mem_gpio this1 m, b')
    /\ trace b'
       = trace b
         ++ arm_trace blk this1 (cs_reads (loads b)) (cs_reads (S (loads b)))
         ++ poll_rounds cs_reads (loads b + 2) n
         ++ last_loads cs_reads how k
         ++ teardown_trace (cs_reads k') (cs_reads (S k')) (cs_reads (S (S k'))).
Proof.
  intros Hfin Hcpy Hblk Hbusy Hleaves Hfuel. cbn zeta.
  eexists. split; [apply send_runs; eassumption|].
  rewrite teardown_trace_eq. cbn [loads trace].
  rewrite <- !app_assoc. reflexivity.
Qed.

(** X15: a reachable engine with a positive capacity can be sent.  When
    the control blocks and the operations together fit an [int] byte
    count and the allocator hands out the block, the first [SendBuffers]
    passes the assertion of [FinishRegistration], copies within both
    buffers, and returns as soon as the channel leaves the poll loop; the
    DMA memory then holds exactly the operations of the buffer. *)
Theorem reachable_send_returns (caps : list Z) (this : DMAMultiSPI)
    (blk : UncachedMemBlock) (n fuel : nat) (how : poll_exit)
    (junk_cb : nat -> dma_cb) (junk_gpio : nat -> GPIOData) (b : bus) :
  reachable caps this ->
  0 < max_capacity caps ->
  0 <= sizeof_dma_cb ->
  let N := max_capacity caps * 16 + 1 in
  let count := (N + kMaxOpsPerBlock - 1) / kMaxOpsPerBlock in
  count * sizeof_dma_cb + N * sizeof_GPIOData <= INT_MAX ->
  UncachedMemBlock_alloc (count * sizeof_dma_cb + N * sizeof_GPIOData)
    = Some blk ->
  busy_for cs_reads (loads b + 2) n ->
  leaves cs_reads how (loads b + 2 + 2 * n) ->
  (n <= fuel)%nat ->
  exists this' b',
    SendBuffers cs_reads fuel junk_cb junk_gpio this b = Some (this', b')
    /\ mem_gpio this' = gpio_shadow_ this
    /\ gpio_shadow_ this' = gpio_shadow_ this
    /\ alloced_ this' = Some blk
    /\ Z.of_nat (length (mem_cb this')) = count.
Proof.
  intros Hreach Hcap Hcb. cbn zeta. intros Hfit Halloc Hbusy Hleaves Hfuel.
  destruct (reachable_inv caps this Hreach) as [Hser _ Hshape _].
  destruct (reachable_timeline_inv caps this Hreach) as [[Hdma Hall] Hsize _ _].
  assert (Hcount : 0 <= (max_capacity caps * 16 + 1 + kMaxOpsPerBlock - 1)
                        / kMaxOpsPerBlock).
  { rewrite kMaxOpsPerBlock_eq. apply Z.div_pos; lia. }
  assert (Hops : bytes_to_gpio_ops (serial_byte_size_ this)
                 = max_capacity caps * 16 + 1).
  { rewrite Hser, bytes_to_gpio_ops_small; unfold sizeof_GPIOData in *; nia. }
  destruct (FinishRegistration_returns junk_cb junk_gpio this blk)
    as (this1 & Hfin & Hblk & Hlen);
    rewrite ?Hops; try assumption; try lia.
  rewrite Hops in Hlen.
  destruct (FinishRegistration_fields _ _ _ _ Hfin)
    as (_ & Esh & _ & Esz & _ & _ & Emem & _).
  destruct Hshape as [[_ Hz]|[_ Hshl]]; [lia|].
  rewrite Hops in Hshl, Emem.
  assert (Hne : gpio_shadow_ this <> []).
  { intros E. rewrite E in Hshl. cbn in Hshl. lia. }
  destruct Hsize as [Hnil|[_ Hsz]]; [contradiction|].
  assert (Hcpy : memcpy (mem_gpio this1) (gpio_shadow_ this1)
                   (gpio_buffer_size_ this1) = Some (gpio_shadow_ this)).
  { rewrite Esh, Esz, Emem, Hsz. apply memcpy_whole; [assumption|].
    rewrite length_fmap, length_seq. lia. }
  eexists _, _. split.
  - apply (send_runs n fuel how junk_cb junk_gpio this this1
             (gpio_shadow_ this) blk b); try assumption.
    rewrite Hdma. exact Hfin.
  - unfold with_mem_gpio; cbn [mem_gpio gpio_shadow_ alloced_ mem_cb].
    auto.
Qed.

End Polling.

(** ** The clock pin used as a data pin *)

Section ClockAsData.
Context `{FtGPIO} `{RpiDMA}.

(** X16: nothing in [SetBufferedByte] tells the clock pin from a data
    pin.  Called with the clock pin and a byte index below the capacity
    on a reachable engine whose capacity fits the [int] slot count, it
    returns, and at the data operation of every 1-bit of the byte the
    clock pin is then driven high and no longer low: the clock-low half
    of that bit is gone from the buffer. *)
Theorem clock_pin_as_data_breaks_clock (caps : list Z) (this : DMAMultiSPI)
    (pos data k : Z) :
  reachable caps this ->
  0 <= pos < max_capacity caps ->
  max_capacity caps * 16 + 1 <= INT_MAX ->
  0 <= k < 8 ->
  Z.testbit data (7 - k) = true ->
  exists this' d,
    SetBufferedByte this (clock_gpio_ this) pos data = Some this'
    /\ gpio_shadow_ this' !! Z.to_nat (16 * pos + 2 * k) = Some d
    /\ pin_set d (clock_gpio_ this) = true
    /\ pin_clr d (clock_gpio_ this) = false
    /\ ~ clock_pattern_at (clock_gpio_ this) (16 * pos + 2 * k) d.
Proof.
  intros Hreach Hpos Hmax Hk Hbit.
  destruct (reachable_inv caps this Hreach) as [Hcap Hclock Hshape _].
  destruct Hshape as [[_ Hz]|[_ Hlen]]; [lia|].
  rewrite Hcap, bytes_to_gpio_ops_small in Hlen by lia.
  assert (Hfs : first_slot pos = Z.to_nat (2 * 8 * pos))
    by (apply first_slot_small; unfold INT_MAX in Hmax; lia).
  rewrite SetBufferedByte_intro by (try assumption; rewrite ?Hfs; lia).
  destruct (lookup_lt_is_Some_2 (gpio_shadow_ this)
              (Z.to_nat (16 * pos + 2 * k))) as [d0 Hd0]; [lia|].
  eexists _, (set_bit (clock_gpio_ this) data (2 ^ (7 - k)) d0).
  split; [reflexivity|]. rewrite Hfs.
  unfold with_timeline; cbn [gpio_shadow_].
  destruct (set_bit_pin (clock_gpio_ this) data (7 - k) d0 Hclock)
    as [Hset Hclr]; [lia|].
  rewrite Hbit in Hset, Hclr. cbn [negb] in Hclr.
  split; [|split; [assumption|split; [assumption|]]].
  - replace (Z.to_nat (16 * pos + 2 * k))
      with (Z.to_nat (2 * 8 * pos) + 2 * Z.to_nat k)%nat by lia.
    rewrite encode_lookup_hit by lia.
    replace (Z.to_nat (2 * 8 * pos) + 2 * Z.to_nat k)%nat
      with (Z.to_nat (16 * pos + 2 * k)) by lia.
    rewrite Hd0. cbn [fmap option_fmap option_map].
    do 3 f_equal. lia.
  - unfold clock_pattern_at.
    replace (Z.even (16 * pos + 2 * k)) with true.
    + rewrite Hclr. discriminate.
    + symmetry. replace (16 * pos + 2 * k) with (2 * (8 * pos + k)) by lia.
      apply Z.even_mul.
Qed.

End ClockAsData.

(** ** The properties on the example engine *)

Lemma valid_gpio_24 : valid_gpio 24.
Proof. unfold valid_gpio. lia. Qed.

Lemma two_pins_encoded :
  SetBufferedByte Example.all_ones 24 0 0x0F = Some Replay.two_pins.
Proof. reflexivity. Qed.

Lemma sent_returned :
  SendBuffers Example.completing 10 Example.junk_cb Example.junk
    Example.all_ones Example.idle
  = Some (Replay.sent, Replay.sent_bus).
Proof. reflexivity. Qed.

Lemma rewritten_encoded :
  SetBufferedByte Replay.sent 23 0 0 = Some Replay.rewritten.
Proof. reflexivity. Qed.

Lemma resent_returned :
  SendBuffers Example.failing 10 Example.junk_cb Example.junk
    Replay.rewritten Example.idle
  = Some (Replay.resent, Replay.resent_bus).
Proof. reflexivity. Qed.

Lemma set_byte_overwrites_witness :
  SetBufferedByte Example.one_byte 23 0 0xFF = Some Example.all_ones
  /\ exists s2,
       SetBufferedByte Example.all_ones 23 0 0x1A5 = Some s2
       /\ SetBufferedByte Example.one_byte 23 0 0x1A5 = Some s2.
Proof.
  split; [reflexivity|].
  apply (set_byte_overwrites Example.one_byte Example.all_ones 23 0 0xFF 0x1A5).
  reflexivity.
Defined.

Lemma set_byte_commutes_witness :
  exists b,
    SetBufferedByte Example.one_byte 24 0 0x0F = Some b
    /\ SetBufferedByte b 23 0 0xFF = Some Replay.two_pins.
Proof.
  apply (set_byte_commutes Example.one_byte Example.all_ones Replay.two_pins
           23 0 0xFF 24 0 0x0F).
  - left. discriminate.
  - reflexivity.
  - reflexivity.
Defined.

Lemma set_byte_touches_own_byte_witness :
  length (gpio_shadow_ Example.all_ones) = length (gpio_shadow_ Example.one_byte)
  /\ serial_byte_size_ Example.all_ones = serial_byte_size_ Example.one_byte
  /\ gpio_buffer_size_ Example.all_ones = gpio_buffer_size_ Example.one_byte
  /\ clock_gpio_ Example.all_ones = clock_gpio_ Example.one_byte
  /\ (forall j, ~ data_slot_of 0 j ->
        gpio_shadow_ Example.all_ones !! j = gpio_shadow_ Example.one_byte !! j)
  /\ (forall j d d', gpio_shadow_ Example.one_byte !! j = Some d ->
        gpio_shadow_ Example.all_ones !! j = Some d' ->
        ignored_upper_set_bits d' = ignored_upper_set_bits d
        /\ reserved_area d' = reserved_area d).
Proof.
  apply (set_byte_touches_own_byte Example.one_byte Example.all_ones 23 0 0xFF).
  - lia.
  - reflexivity.
Defined.

Lemma set_byte_read_back_witness :
  exists this',
    SetBufferedByte Example.one_byte 23 0 0x1A5 = Some this'
    /\ read_byte (gpio_shadow_ this') 23 0 = uint8_t 0x1A5
    /\ (forall g' pos', valid_gpio g' -> 0 <= pos' ->
          g' <> 23 \/ pos' <> 0 ->
          read_byte (gpio_shadow_ this') g' pos'
          = read_byte (gpio_shadow_ Example.one_byte) g' pos').
Proof.
  apply (set_byte_read_back Example.one_byte 23 0 0x1A5).
  - unfold valid_gpio. lia.
  - cbn. lia.
  - reflexivity.
  - reflexivity.
Defined.

Lemma set_byte_accepts_below_capacity_witness :
  (is_Some (SetBufferedByte Example.one_byte 23 0 0xFF)
   <-> valid_gpio 23 /\ 0 < max_capacity [1])
  /\ (is_Some (SetBufferedByte Example.one_byte 23 1 0xFF)
      <-> valid_gpio 23 /\ 1 < max_capacity [1])
  /\ (is_Some (SetBufferedByte Example.one_byte 55 0 0xFF)
      <-> valid_gpio 55 /\ 0 < max_capacity [1]).
Proof.
  split.
  - apply (set_byte_accepts_below_capacity [1] Example.one_byte 23 0 0xFF).
    + exact reachable_one_byte.
    + lia.
    + cbn. unfold INT_MAX. lia.
  - split.
    + apply (set_byte_accepts_below_capacity [1] Example.one_byte 23 1 0xFF).
      * exact reachable_one_byte.
      * lia.
      * cbn. unfold INT_MAX. lia.
    + apply (set_byte_accepts_below_capacity [1] Example.one_byte 55 0 0xFF).
      * exact reachable_one_byte.
      * lia.
      * cbn. unfold INT_MAX. lia.
Defined.

Lemma clock_edges_carry_no_data_witness :
  (forall i d, gpio_shadow_ Example.all_ones !! i = Some d ->
     Z.odd (Z.of_nat i) = true ->
     d = mkGPIOData (uint32_t (shl1 (clock_gpio_ Example.all_ones))) 0 0 0)
  /\ (forall d, last (gpio_shadow_ Example.all_ones) = Some d ->
        d = mkGPIOData 0 0 0 (uint32_t (shl1 (clock_gpio_ Example.all_ones)))).
Proof.
  apply (clock_edges_carry_no_data [1] Example.all_ones).
  exact reachable_all_ones.
Defined.

Lemma slots_are_clean_witness :
  reachable [1] Example.all_ones
  /\ forall i d, gpio_shadow_ Example.all_ones !! i = Some d ->
       ignored_upper_set_bits d = 0 /\ reserved_area d = 0
       /\ 0 <= set d < 2 ^ 32 /\ 0 <= clr d < 2 ^ 32.
Proof.
  split; [exact reachable_all_ones|].
  apply (slots_are_clean [1] Example.all_ones).
  exact reachable_all_ones.
Defined.

Lemma registration_never_shrinks_witness :
  serial_byte_size_ Example.one_byte
  = Z.max 1 (serial_byte_size_ Example.fresh)
  /\ (length (gpio_shadow_ Example.fresh)
      <= length (gpio_shadow_ Example.one_byte))%nat
  /\ true = (gpio_AddOutput (gpio_ Example.fresh) 23).2
  /\ (1 <= serial_byte_size_ Example.fresh ->
      gpio_shadow_ Example.one_byte = gpio_shadow_ Example.fresh
      /\ gpio_buffer_size_ Example.one_byte = gpio_buffer_size_ Example.fresh).
Proof.
  apply (registration_never_shrinks [] Example.fresh Example.one_byte
           Example.junk 23 1 true).
  - exact reachable_fresh.
  - reflexivity.
Defined.

Lemma first_send_copies_buffer_witness :
  mem_gpio Replay.sent = gpio_shadow_ Example.all_ones
  /\ gpio_shadow_ Replay.sent = gpio_shadow_ Example.all_ones
  /\ serial_byte_size_ Replay.sent = serial_byte_size_ Example.all_ones
  /\ 0 < max_capacity [1].
Proof.
  apply (first_send_copies_buffer [1] Example.all_ones Replay.sent
           Example.completing 10 Example.junk_cb Example.junk
           Example.idle Replay.sent_bus).
  - exact reachable_all_ones.
  - reflexivity.
Defined.

Lemma sent_engine_is_frozen_witness :
  (forall junk gpio requested_bytes,
     RegisterDataGPIO junk Replay.sent gpio requested_bytes = None)
  /\ (forall junk_cb' junk_gpio',
        FinishRegistration junk_cb' junk_gpio' Replay.sent = None)
  /\ (forall cs_reads' fuel' junk_cb' junk_gpio' b0 this'' b'',
        SendBuffers cs_reads' fuel' junk_cb' junk_gpio' Replay.sent b0
        = Some (this'', b'') ->
        mem_cb this'' = mem_cb Replay.sent
        /\ alloced_ this'' = alloced_ Replay.sent
        /\ gpio_dma_ this'' = gpio_dma_ Replay.sent
        /\ start_block_ this'' = start_block_ Replay.sent
        /\ gpio_shadow_ this'' = gpio_shadow_ Replay.sent).
Proof.
  apply (sent_engine_is_frozen Example.all_ones Replay.sent
           Example.completing 10 Example.junk_cb Example.junk
           Example.idle Replay.sent_bus).
  reflexivity.
Defined.

Lemma resend_copies_new_content_witness :
  mem_gpio Replay.resent = gpio_shadow_ Replay.rewritten
  /\ gpio_shadow_ Replay.resent = gpio_shadow_ Replay.rewritten
  /\ mem_cb Replay.resent = mem_cb Replay.sent
  /\ alloced_ Replay.resent = alloced_ Replay.sent.
Proof.
  apply (resend_copies_new_content [1] Example.all_ones Replay.sent
           Replay.rewritten Replay.resent Example.completing Example.failing
           10 10 Example.junk_cb Example.junk_cb Example.junk Example.junk
           Example.idle Replay.sent_bus Example.idle Replay.resent_bus
           23 0 0).
  - exact reachable_all_ones.
  - reflexivity.
  - reflexivity.
  - reflexivity.
Defined.

Lemma descriptor_slices_witness :
  FinishRegistration Example.junk_cb Example.junk Example.one_byte
  = Some Example.finished
  /\ exists blk gpio_dma,
       alloced_ Example.finished = Some blk
       /\ gpio_dma_ Example.finished = Some gpio_dma
       /\ gpio_dma = cb_address blk (Z.of_nat (length (mem_cb Example.finished)))
       /\ forall i c, mem_cb Example.finished !! i = Some c ->
            let n := Z.min kMaxOpsPerBlock
                       (bytes_to_gpio_ops (serial_byte_size_ Example.one_byte)
                        - Z.of_nat i * kMaxOpsPerBlock) in
            src c = uint32_t (UncachedMemBlock_to_physical blk
                                (gpio_dma
                                 + Z.of_nat i * kMaxOpsPerBlock * sizeof_GPIOData))
            /\ length_ c = uint32_t (Z.lor (DMA_CB_TXFR_LEN_YLENGTH n)
                                       (DMA_CB_TXFR_LEN_XLENGTH sizeof_GPIOData))
            /\ info c
               = uint32_t (Z.lor (Z.lor (Z.lor DMA_CB_TI_SRC_INC DMA_CB_TI_DEST_INC)
                                    DMA_CB_TI_NO_WIDE_BURSTS) DMA_CB_TI_TDMODE)
            /\ 0 < n <= kMaxOpsPerBlock
            /\ Z.of_nat i * kMaxOpsPerBlock + n
               <= bytes_to_gpio_ops (serial_byte_size_ Example.one_byte)
            /\ (S i = length (mem_cb Example.finished) ->
                Z.of_nat i * kMaxOpsPerBlock + n
                = bytes_to_gpio_ops (serial_byte_size_ Example.one_byte)).
Proof.
  split; [reflexivity|].
  apply (descriptor_slices Example.junk_cb Example.junk Example.one_byte
           Example.finished).
  reflexivity.
Defined.

Lemma stuck_is_busy k :
  Z.land (Replay.stuck k) DMA_CS_ACTIVE <> 0
  /\ Z.land (Replay.stuck k) DMA_CS_ERROR = 0.
Proof. split; [discriminate | reflexivity]. Qed.

Lemma send_waits_without_bound_witness :
  SendBuffers Replay.stuck 1000 Example.junk_cb Example.junk
    Example.all_ones Example.idle = None
  /\ SendBuffers Replay.stuck 1000 Example.junk_cb Example.junk
       Replay.sent Example.idle = None.
Proof.
  split.
  - apply (send_waits_without_bound Replay.stuck 1000 Example.junk_cb
             Example.junk Example.all_ones Example.idle).
    exact stuck_is_busy.
  - apply (send_waits_without_bound Replay.stuck 1000 Example.junk_cb
             Example.junk Replay.sent Example.idle).
    exact stuck_is_busy.
Defined.

Lemma completing_busy : busy_for Example.completing 2 3.
Proof.
  intros j Hj.
  destruct j as [|[|[|j]]]; [split; [discriminate | reflexivity] .. | lia].
Qed.

Lemma failing_busy : busy_for Example.failing 2 0.
Proof. intros j Hj. lia. Qed.

Lemma send_protocol_witness :
  (exists b',
     SendBuffers Example.completing 3 Example.junk_cb Example.junk
       Example.all_ones Example.idle
     = Some (with_mem_gpio Example.ready Example.copied, b')
     /\ trace b'
        = trace Example.idle
          ++ arm_trace (0x10000, 0xC0000000) Example.ready
               (Example.completing 0) (Example.completing 1)
          ++ poll_rounds Example.completing 2 3
          ++ last_loads Example.completing completed 8
          ++ teardown_trace (Example.completing 9) (Example.completing 10)
               (Example.completing 11))
  /\ (exists b',
        SendBuffers Example.failing 0 Example.junk_cb Example.junk
          Example.all_ones Example.idle
        = Some (with_mem_gpio Example.ready Example.copied, b')
        /\ trace b'
           = trace Example.idle
             ++ arm_trace (0x10000, 0xC0000000) Example.ready
                  (Example.failing 0) (Example.failing 1)
             ++ poll_rounds Example.failing 2 0
             ++ last_loads Example.failing errored 2
             ++ teardown_trace (Example.failing 4) (Example.failing 5)
                  (Example.failing 6)).
Proof.
  split.
  - apply (send_protocol Example.completing 3 3 completed Example.junk_cb
             Example.junk Example.all_ones Example.ready Example.copied
             (0x10000, 0xC0000000) Example.idle).
    + reflexivity.
    + reflexivity.
    + reflexivity.
    + exact completing_busy.
    + reflexivity.
    + lia.
  - apply (send_protocol Example.failing 0 0 errored Example.junk_cb
             Example.junk Example.all_ones Example.ready Example.copied
             (0x10000, 0xC0000000) Example.idle).
    + reflexivity.
    + reflexivity.
    + reflexivity.
    + exact failing_busy.
    + split; discriminate.
    + lia.
Defined.

Lemma reachable_send_returns_witness :
  exists this' b',
    SendBuffers Example.completing 3 Example.junk_cb Example.junk
      Example.all_ones Example.idle = Some (this', b')
    /\ mem_gpio this' = gpio_shadow_ Example.all_ones
    /\ gpio_shadow_ this' = gpio_shadow_ Example.all_ones
    /\ alloced_ this' = Some (0x10000, 0xC0000000)
    /\ Z.of_nat (length (mem_cb this'))
       = (max_capacity [1] * 16 + 1 + kMaxOpsPerBlock - 1) / kMaxOpsPerBlock.
Proof.
  apply (reachable_send_returns Example.completing [1] Example.all_ones
           (0x10000, 0xC0000000) 3 3 completed Example.junk_cb Example.junk
           Example.idle).
  - exact reachable_all_ones.
  - reflexivity.
  - discriminate.
  - discriminate.
  - reflexivity.
  - exact completing_busy.
  - reflexivity.
  - lia.
Defined.

Lemma clock_pin_as_data_breaks_clock_witness :
  exists this' d,
    SetBufferedByte Example.one_byte (clock_gpio_ Example.one_byte) 0 0x80
    = Some this'
    /\ gpio_shadow_ this' !! Z.to_nat (16 * 0 + 2 * 0) = Some d
    /\ pin_set d (clock_gpio_ Example.one_byte) = true
    /\ pin_clr d (clock_gpio_ Example.one_byte) = false
    /\ ~ clock_pattern_at (clock_gpio_ Example.one_byte) (16 * 0 + 2 * 0) d.
Proof.
  apply (clock_pin_as_data_breaks_clock [1] Example.one_byte 0 0x80 0).
  - exact reachable_one_byte.
  - cbn. lia.
  - discriminate.
  - lia.
  - reflexivity.
Defined.
